(** * Actors and genome codec of [actor.py]

    A shallow embedding of [actor.py] (perceptron and neural-network actors
    with their genome encode/decode operations) together with the properties
    of its specification.

    numpy arrays are modelled as views (base buffer, offset, shape) onto
    mutable buffers that live in an explicit heap, so that in-place
    operators ([-=], [/=]), [copy], [reshape] views and slices alias exactly
    as they do in numpy.  Python objects with identity (actors, lists) are
    heap objects too.  The code is embedded once, generically in the scalar
    type of the arrays, and instantiated at IEEE binary64 (the kernel's
    primitive floats, which evaluate) and at the real numbers with an
    explicit rounding operator (for error analysis).

    Conventions of the embedding:
    - every array holds float64 elements; the in-place operators
      broadcast their right operand, and [high - low] is taken on two
      arrays of the space's shape;
    - [dot] sums each row from left to right, starting from zero;
    - a [for] loop over a list iterates over the elements the list has when
      the loop starts (no loop of the code changes the list it iterates);
    - a constructor computes the attributes and then allocates the object,
      where Python allocates first and assigns the attributes one by one:
      no reference to [self] escapes [__init__], so the two agree;
    - the two [react_to] methods are split in the vector they compute
      ([_outputs]) and the final scan ([argmax]), and the statements the
      two classes share ([actor_dims], [random_matrix], [normalize]) are
      written once;
    - [np.random.random] draws from a stream of scalars carried by the
      state; nothing is assumed of the stream except where a property
      states it;
    - a computation that raises has no result ([None]). *)

From Stdlib Require Import ZArith Reals Lra Lia Floats.
From stdpp Require Import base option list gmap.

(** ** Scalars *)

(** The arithmetic the program performs on array elements.  [gtb x y] is
    Python's [x > y]. *)
Class Num (num : Type) := {
  zero : num;
  one : num;
  two : num;
  add : num -> num -> num;
  sub : num -> num -> num;
  mul : num -> num -> num;
  div : num -> num -> num;
  opp : num -> num;
  gtb : num -> num -> bool
}.

(** [np.exp] on one element. *)
Class Exp (num : Type) := np_exp : num -> num.

(** numpy's float64: IEEE 754 binary64. *)
#[export] Instance float64 : Num PrimFloat.float := {|
  zero := 0%float;
  one := 1%float;
  two := 2%float;
  add := PrimFloat.add;
  sub := PrimFloat.sub;
  mul := PrimFloat.mul;
  div := PrimFloat.div;
  opp := PrimFloat.opp;
  gtb := fun x y => PrimFloat.ltb y x
|}.

(** [x > y] on real numbers. *)
Definition Rgtb (x y : R) : bool := if Rlt_dec y x then true else false.

(** Real numbers where every operation is followed by a rounding [rnd]
    (the usual model of floating-point arithmetic away from overflow);
    [rnd := id] is exact arithmetic. *)
Definition rounded (rnd : R -> R) : Num R := {|
  zero := 0%R;
  one := 1%R;
  two := 2%R;
  add := fun x y => rnd (x + y)%R;
  sub := fun x y => rnd (x - y)%R;
  mul := fun x y => rnd (x * y)%R;
  div := fun x y => rnd (x / y)%R;
  opp := fun x => (- x)%R;
  gtb := Rgtb
|}.

Definition rounded_exp (rnd : R -> R) : Exp R := fun x => rnd (Rtrigo_def.exp x).

(** ** [product] *)

(** [reduce(f, l)] without an initial value: [TypeError] on an empty
    sequence, otherwise a left fold seeded with the first element. *)
Definition reduce {A} (f : A -> A -> A) (l : list A) : option A :=
  match l with
  | [] => None
  | x :: t => Some (fold_left f t x)
  end.

Definition product (l : list nat) : option nat := reduce Nat.mul l.

(** ** Heap, arrays and the state monad *)

(** A numpy array value: a contiguous, row-major view onto a data buffer.
    [copy] makes a new buffer; [reshape] and slicing make new views of the
    same buffer. *)
Record ndarray := {
  nd_base : nat;
  nd_offset : nat;
  nd_shape : list nat
}.

(** gym's [Box] observation space and [Discrete] action space, as far as
    the program reads them. *)
Record Box := { shape : list nat; low : ndarray; high : ndarray }.
Record Discrete := { n : nat }.

(** Attributes of a [PerceptronActor] (and [GeneticPerceptronActor]). *)
Record PerceptronActor := {
  p_observation_space : Box;
  p_action_space : Discrete;
  p_n_obs : nat;
  p_obs_range : ndarray;
  p_n_act : nat;
  p_perceptron_matrix : ndarray
}.

(** Attributes of a [NeuralNetActor] (and [GeneticNNActor]); [l_layers] is
    the address of the Python list held by [_layers]. *)
Record NeuralNetActor := {
  l_observation_space : Box;
  l_action_space : Discrete;
  l_n_obs : nat;
  l_obs_range : ndarray;
  l_n_act : nat;
  l_layers : nat
}.

(** numpy's [size]: the number of elements of an array of a given shape. *)
Definition size_of (sh : list nat) : nat := foldr Nat.mul 1 sh.

Section Embedding.
Context {num : Type} `{Num num}.

Inductive obj :=
  | Buffer (data : list num)
  | PyList (items : list ndarray)
  | Perceptron (a : PerceptronActor)
  | NeuralNet (a : NeuralNetActor).

(** The heap of Python objects and the state of [np.random]'s global
    generator, given as the stream of its future draws. *)
Record state := { heap : gmap nat obj; rng : nat -> num }.

(** Computations that read and write the state and may raise. *)
Definition M (A : Type) : Type := state -> option (A * state).

#[export] Instance M_ret : MRet M := fun A a s => Some (a, s).
#[export] Instance M_bind : MBind M := fun A B f m s =>
  match m s with
  | Some (a, s') => f a s'
  | None => None
  end.

Definition raise {A} : M A := fun _ => None.

Definition lift {A} (o : option A) : M A :=
  match o with Some a => mret a | None => raise end.

Definition alloc (o : obj) : M nat := fun s =>
  let l := fresh (dom (heap s)) in
  Some (l, {| heap := <[l := o]> (heap s); rng := rng s |}).

Definition load (l : nat) : M obj := fun s =>
  match heap s !! l with
  | Some o => Some (o, s)
  | None => None
  end.

Definition store (l : nat) (o : obj) : M unit := fun s =>
  Some (tt, {| heap := <[l := o]> (heap s); rng := rng s |}).

Fixpoint foldM {A B} (f : A -> B -> M A) (a : A) (l : list B) : M A :=
  match l with
  | [] => mret a
  | x :: l' => a' ← f a x; foldM f a' l'
  end.

Definition load_buffer (l : nat) : M (list num) :=
  o ← load l; match o with Buffer d => mret d | _ => raise end.

Definition load_list (l : nat) : M (list ndarray) :=
  o ← load l; match o with PyList xs => mret xs | _ => raise end.

Definition load_perceptron (l : nat) : M PerceptronActor :=
  o ← load l; match o with Perceptron a => mret a | _ => raise end.

Definition load_nn (l : nat) : M NeuralNetActor :=
  o ← load l; match o with NeuralNet a => mret a | _ => raise end.

(** The elements of a view, in row-major order. *)
Definition elements (a : ndarray) : M (list num) :=
  d ← load_buffer (nd_base a);
  let k := size_of (nd_shape a) in
  if decide (nd_offset a + k <= length d)
  then mret (take k (drop (nd_offset a) d))
  else raise.

(** Overwrite the elements of a view in place. *)
Definition write_elements (a : ndarray) (new : list num) : M unit :=
  d ← load_buffer (nd_base a);
  store (nd_base a)
    (Buffer (take (nd_offset a) d ++ new ++ drop (nd_offset a + length new) d)).

Definition new_array (sh : list nat) (data : list num) : M ndarray :=
  l ← alloc (Buffer data);
  mret {| nd_base := l; nd_offset := 0; nd_shape := sh |}.

(** *** numpy operations used by the program

    The in-place operators of [react_to] broadcast their right operand as
    numpy does.  The one binary operator that makes a new array,
    [high - low] in the constructors, is modelled for operands of equal
    shape: the two bounds of a [Box] have the shape of the space. *)

Definition np_copy (a : ndarray) : M ndarray :=
  d ← elements a; new_array (nd_shape a) d.

(** [np.reshape(a, sh)]: a view with the new shape; [ValueError] when the
    sizes differ. *)
Definition np_reshape (a : ndarray) (sh : list nat) : M ndarray :=
  if decide (size_of sh = size_of (nd_shape a))
  then mret {| nd_base := nd_base a; nd_offset := nd_offset a; nd_shape := sh |}
  else raise.

(** An elementwise operation with a scalar ([a + 1.], [2 * a], [-a],
    [np.exp(a)], ...): a new array. *)
Definition map_array (f : num -> num) (a : ndarray) : M ndarray :=
  d ← elements a; new_array (nd_shape a) (f <$> d).

(** [a - b] on arrays: a new array. *)
Definition zip_array (f : num -> num -> num) (a b : ndarray) : M ndarray :=
  if decide (nd_shape a = nd_shape b)
  then da ← elements a; db ← elements b;
       new_array (nd_shape a) (zip_with f da db)
  else raise.

(** numpy's broadcasting of the right operand of an in-place operator:
    the data [d] of an array of shape [sb], repeated to the shape [sa] of
    the array that is written.  With the two shapes aligned, a dimension of
    [sb] must be that of [sa], or 1 (the data is then repeated along it);
    anything else is a [ValueError]. *)
Fixpoint broadcast_to (sa sb : list nat) (d : list num) : option (list num) :=
  match sa, sb with
  | [], [] => Some d
  | da :: ra, db :: rb =>
      let k := size_of rb in
      if decide (db = da) then
        (fun parts => concat parts)
          <$> (mapM (fun i => broadcast_to ra rb (take k (drop (i * k) d)))
                    (seq 0 da))
      else if decide (db = 1) then
        (fun x => concat (replicate da x)) <$> (broadcast_to ra rb d)
      else None
  | _, _ => None
  end.

(** Shapes are aligned on the right: the shorter [sb] is completed with
    leading 1s.  An operand with more dimensions than the array written
    cannot be broadcast into it. *)
Definition broadcast (sa sb : list nat) (d : list num) : option (list num) :=
  if decide (length sb <= length sa)
  then broadcast_to sa (replicate (length sa - length sb) 1 ++ sb) d
  else None.

(** [a -= b], [a /= b]: [b] is broadcast to the shape of [a] and the
    result is written into [a]'s own buffer. *)
Definition inplace (f : num -> num -> num) (a b : ndarray) : M unit :=
  da ← elements a; db ← elements b;
  db' ← lift (broadcast (nd_shape a) (nd_shape b) db);
  write_elements a (zip_with f da db').

(** One entry of a matrix-vector product, summed left to right. *)
Definition dot_row (w v : list num) : num :=
  fold_left (fun acc p => add acc (mul p.1 p.2)) (zip w v) zero.

(** Row [i] of a row-major matrix with [c] columns. *)
Definition row (c : nat) (dw : list num) (i : nat) : list num :=
  take c (drop (i * c) dw).

Definition matvec (r c : nat) (dw dv : list num) : list num :=
  (fun i => dot_row (row c dw i) dv) <$> seq 0 r.

(** [W.dot(v)] for a 2-D [W] and a 1-D [v]; [ValueError] when the inner
    dimensions differ. *)
Definition np_dot (W v : ndarray) : M ndarray :=
  match nd_shape W, nd_shape v with
  | [r; c], [c'] =>
      if decide (c = c')
      then dw ← elements W; dv ← elements v; new_array [r] (matvec r c dw dv)
      else raise
  | _, _ => raise
  end.

(** [a[start:stop]] with non-negative bounds: a view of the rows
    [start..stop) along the first axis, clipped to the array. *)
Definition np_slice (a : ndarray) (start stop : nat) : M ndarray :=
  match nd_shape a with
  | [] => raise
  | d :: rest =>
      let start' := start `min` d in
      let stop' := stop `min` d in
      mret {| nd_base := nd_base a;
              nd_offset := nd_offset a + start' * size_of rest;
              nd_shape := (stop' - start') :: rest |}
  end.

(** [np.concatenate((a, b))] along the first axis. *)
Definition np_concatenate (a b : ndarray) : M ndarray :=
  match nd_shape a, nd_shape b with
  | da :: ra, db :: rb =>
      if decide (ra = rb)
      then ea ← elements a; eb ← elements b;
           new_array ((da + db) :: ra) (ea ++ eb)
      else raise
  | _, _ => raise
  end.

(** [np.random.random(sh)]: the next [size_of sh] draws of the generator. *)
Definition np_random_random (sh : list nat) : M ndarray := fun s =>
  let k := size_of sh in
  new_array sh (rng s <$> seq 0 k)
    {| heap := heap s; rng := fun i => rng s (k + i) |}.

(** Python lists of arrays. *)
Definition new_list : M nat := alloc (PyList []).

Definition list_append (l : nat) (x : ndarray) : M unit :=
  xs ← load_list l; store l (PyList (xs ++ [x])).

End Embedding.

(** ** The actors *)

Section Actors.
Context {num : Type} `{Num num}.

(** The scan that ends both [react_to] methods:
    [i = 0; for j,x in enumerate(outputs): if x > outputs[i]: i = j]. *)
Definition argmax_step (outputs : list num) (i : option nat) (jx : nat * num)
    : option nat :=
  i ← i; oi ← outputs !! i;
  Some (if gtb jx.2 oi then jx.1 else i).

Definition argmax_scan (outputs : list num) : option nat :=
  fold_left (argmax_step outputs) (imap pair outputs) (Some 0).

(** Iterating over [outputs] yields scalars only for a 1-D array. *)
Definition argmax (outputs : ndarray) : M nat :=
  match nd_shape outputs with
  | [_] => xs ← elements outputs; lift (argmax_scan xs)
  | _ => raise
  end.

(** The first four statements of both constructors. *)
Definition actor_dims (observation_space : Box) : M (nat * ndarray) :=
  n_obs ← lift (product (shape observation_space));
  hi ← np_copy (high observation_space);
  lo ← np_copy (low observation_space);
  obs_range ← zip_array sub hi lo;
  mret (n_obs, obs_range).

(** [(np.random.random((out_size, in_size))*2)-1] *)
Definition random_matrix (out_size in_size : nat) : M ndarray :=
  r ← np_random_random [out_size; in_size];
  r2 ← map_array (fun x => mul x two) r;
  map_array (fun x => sub x one) r2.

(** [PerceptronActor.__init__]; the new object's address is returned. *)
Definition PerceptronActor_init (observation_space : Box)
    (action_space : Discrete) : M nat :=
  '(n_obs, obs_range) ← actor_dims observation_space;
  let n_act := n action_space in
  m ← random_matrix n_act n_obs;
  alloc (Perceptron {|
    p_observation_space := observation_space;
    p_action_space := action_space;
    p_n_obs := n_obs;
    p_obs_range := obs_range;
    p_n_act := n_act;
    p_perceptron_matrix := m |}).

(** The first four statements of both [react_to] methods, up to the
    [reshape] (a view of the normalized copy). *)
Definition normalize (observation_space : Box) (obs_range : ndarray)
    (n_obs : nat) (observation : ndarray) : M ndarray :=
  obs ← np_copy observation;
  inplace sub obs (low observation_space);;
  inplace div obs obs_range;;
  np_reshape obs [n_obs].

(** [PerceptronActor.react_to], lines 40-44: the vector [outputs]. *)
Definition PerceptronActor_outputs (self : nat) (observation : ndarray)
    : M ndarray :=
  a ← load_perceptron self;
  v ← normalize (p_observation_space a) (p_obs_range a) (p_n_obs a) observation;
  obs ← np_copy v;
  np_dot (p_perceptron_matrix a) obs.

Definition PerceptronActor_react_to (self : nat) (observation : ndarray)
    : M nat :=
  outputs ← PerceptronActor_outputs self observation;
  argmax outputs.

(** [NeuralNetActor.__init__] *)
Definition NeuralNetActor_init (observation_space : Box)
    (action_space : Discrete) (hidden_layers : list nat) : M nat :=
  '(n_obs, obs_range) ← actor_dims observation_space;
  let n_act := n action_space in
  layers ← new_list;
  foldM (fun _ sz =>
           m ← random_matrix sz.2 sz.1;
           list_append layers m)
        tt (zip ([n_obs] ++ hidden_layers) (hidden_layers ++ [n_act]));;
  alloc (NeuralNet {|
    l_observation_space := observation_space;
    l_action_space := action_space;
    l_n_obs := n_obs;
    l_obs_range := obs_range;
    l_n_act := n_act;
    l_layers := layers |}).

(** [1. / (1. + np.exp(-v))] *)
Definition sigmoid `{Exp num} (x : num) : num :=
  div one (add one (np_exp (opp x))).

Definition sigmoid_array `{Exp num} (v : ndarray) : M ndarray :=
  neg ← map_array opp v;
  e ← map_array np_exp neg;
  p ← map_array (add one) e;
  map_array (div one) p.

(** [NeuralNetActor.react_to], lines 66-73: the final [current_vector]. *)
Definition NeuralNetActor_outputs `{Exp num} (self : nat)
    (observation : ndarray) : M ndarray :=
  a ← load_nn self;
  v ← normalize (l_observation_space a) (l_obs_range a) (l_n_obs a) observation;
  layers ← load_list (l_layers a);
  foldM (fun current_vector layer =>
           d ← np_dot layer current_vector;
           sigmoid_array d) v layers.

Definition NeuralNetActor_react_to `{Exp num} (self : nat)
    (observation : ndarray) : M nat :=
  current_vector ← NeuralNetActor_outputs self observation;
  argmax current_vector.

(** [GeneticPerceptronActor.get_genome] *)
Definition GeneticPerceptronActor_get_genome (self : nat) : M ndarray :=
  a ← load_perceptron self;
  c ← np_copy (p_perceptron_matrix a);
  v ← np_reshape c [p_n_obs a * p_n_act a];
  p ← map_array (fun x => add x one) v;
  map_array (fun x => div x two) p.

(** [GeneticPerceptronActor.from_genome] *)
Definition GeneticPerceptronActor_from_genome (self : nat) (genome : ndarray)
    : M nat :=
  a ← load_perceptron self;
  pa ← PerceptronActor_init (p_observation_space a) (p_action_space a);
  g ← np_copy genome;
  a ← load_perceptron self;
  m ← np_reshape g (nd_shape (p_perceptron_matrix a));
  d ← map_array (mul two) m;
  w ← map_array (fun x => sub x one) d;
  b ← load_perceptron pa;
  store pa (Perceptron {|
    p_observation_space := p_observation_space b;
    p_action_space := p_action_space b;
    p_n_obs := p_n_obs b;
    p_obs_range := p_obs_range b;
    p_n_act := p_n_act b;
    p_perceptron_matrix := w |});;
  mret pa.

(** [GeneticNNActor.get_genome] *)
Definition GeneticNNActor_get_genome (self : nat) : M ndarray :=
  a ← load_nn self;
  genome ← new_array [0] [];
  layers ← load_list (l_layers a);
  genome ← foldM (fun genome layer =>
                    c ← np_copy layer;
                    sz ← lift (product (nd_shape layer));
                    v ← np_reshape c [sz];
                    np_concatenate genome v) genome layers;
  p ← map_array (fun x => add x one) genome;
  map_array (fun x => div x two) p.

(** [GeneticNNActor.from_genome] *)
Definition GeneticNNActor_from_genome (self : nat) (genome : ndarray)
    : M nat :=
  g ← np_copy genome;
  g2 ← map_array (fun x => mul x two) g;
  genome ← map_array (fun x => sub x one) g2;
  a ← load_nn self;
  nna ← NeuralNetActor_init (l_observation_space a) (l_action_space a) [];
  fresh_layers ← new_list;
  b ← load_nn nna;
  store nna (NeuralNet {|
    l_observation_space := l_observation_space b;
    l_action_space := l_action_space b;
    l_n_obs := l_n_obs b;
    l_obs_range := l_obs_range b;
    l_n_act := l_n_act b;
    l_layers := fresh_layers |});;
  a ← load_nn self;
  layers ← load_list (l_layers a);
  foldM (fun start layer =>
           layer_size ← lift (product (nd_shape layer));
           sl ← np_slice genome start (start + layer_size);
           c ← np_copy sl;
           new_layer ← np_reshape c (nd_shape layer);
           b ← load_nn nna;
           list_append (l_layers b) new_layer;;
           mret (start + layer_size))
        0 layers;;
  mret nna.

End Actors.

(** * Vocabulary of the specification *)

Section Vocabulary.
Context {num : Type} `{Num num}.
Implicit Types (s : @state num) (a b : ndarray) (d : list num).

(** ** The argmax scan *)

(** No index holds a value strictly greater than the one at [i]. *)
Definition no_greater (v : list num) (i : nat) : Prop :=
  exists x, v !! i = Some x /\ forall j y, v !! j = Some y -> gtb y x = false.

(** [i] is the smallest index at which no value is strictly greater. *)
Definition first_max (v : list num) (i : nat) : Prop :=
  no_greater v i /\ forall i', i' < i -> ~ no_greater v i'.

(** [>] orders the entries of [v] like a strict weak order. *)
Record ordered_on (v : list num) : Prop := {
  gtb_irrefl : forall x, x ∈ v -> gtb x x = false;
  gtb_trans : forall x y z, x ∈ v -> y ∈ v -> z ∈ v ->
    gtb x y = true -> gtb y z = true -> gtb x z = true;
  gtb_negtrans : forall x y z, x ∈ v -> y ∈ v -> z ∈ v ->
    gtb x y = true -> gtb x z = true \/ gtb z y = true
}.

(** State of the scan after the first [k] entries. *)
Definition scan_inv (v : list num) (k i : nat) : Prop :=
  (i = 0 \/ i < k) /\
  (forall j y x, j < k -> v !! j = Some y -> v !! i = Some x -> gtb y x = false) /\
  (forall i' x' x, i' < i -> v !! i' = Some x' -> v !! i = Some x ->
     gtb x x' = true).

(** ** Array contents, allocation, and correctness of computations *)

(** [contents s a d]: in state [s] the view [a] is valid and holds [d]. *)
Definition contents s a d : Prop :=
  exists buf, heap s !! nd_base a = Some (Buffer buf) /\
              nd_offset a + size_of (nd_shape a) <= length buf /\
              d = take (size_of (nd_shape a)) (drop (nd_offset a) buf).

Definition set_heap s (h : gmap nat obj) : state := {| heap := h; rng := rng s |}.

(** What every array-producing operation guarantees: the array is new, it
    owns a buffer that did not exist before, and nothing else changed. *)
Definition allocated s s1 a sh d : Prop :=
  heap s !! nd_base a = None /\
  nd_offset a = 0 /\ nd_shape a = sh /\
  heap s1 = <[nd_base a := Buffer d]> (heap s) /\
  rng s1 = rng s.

(** Total and partial correctness of a computation from a given state. *)
Definition wp {A} (m : M A) s (Q : A -> state -> Prop) : Prop :=
  exists x s1, m s = Some (x, s1) /\ Q x s1.

Definition wlp {A} (m : M A) s (Q : A -> state -> Prop) : Prop :=
  forall x s1, m s = Some (x, s1) -> Q x s1.

(** ** Normalization, and the invariants of the actors *)

(** The normalized observation as a flat vector:
    [(observation - low) / (high - low)], elementwise. *)
Definition normalized (o lo hi : list num) : list num :=
  zip_with div (zip_with sub o lo) (zip_with sub hi lo).

(** The observation space is consistent: its bounds are arrays of the
    space's shape, holding [lo] and [hi]. *)
Record space_ok s (sp : Box) (lo hi : list num) : Prop := {
  low_shape : nd_shape (low sp) = shape sp;
  high_shape : nd_shape (high sp) = shape sp;
  low_contents : contents s (low sp) lo;
  high_contents : contents s (high sp) hi
}.

(** What holds of a perceptron actor [p] stored at [self], as built by
    the constructor or by [from_genome]; [w] is its weight matrix in
    row-major order. *)
Record perceptron_ok s (self : nat) (p : PerceptronActor)
    (lo hi w : list num) : Prop := {
  po_heap : heap s !! self = Some (Perceptron p);
  po_space : space_ok s (p_observation_space p) lo hi;
  po_n_obs : product (shape (p_observation_space p)) = Some (p_n_obs p);
  po_n_act : p_n_act p = n (p_action_space p);
  po_range_shape : nd_shape (p_obs_range p) = shape (p_observation_space p);
  po_range : contents s (p_obs_range p) (zip_with sub hi lo);
  po_matrix_shape :
    nd_shape (p_perceptron_matrix p) = [p_n_act p; p_n_obs p];
  po_matrix : contents s (p_perceptron_matrix p) w
}.

(** The action chosen by a perceptron with weights [w] ([r] rows, [c]
    columns) on the normalized input [x]. *)
Definition perceptron_policy (r c : nat) (w x : list num) : option nat :=
  argmax_scan (matvec r c w x).

(** A fresh weight: [2r - 1] for a draw [r] of the generator. *)
Definition fresh_weight (r : num) : num := sub (mul r two) one.

(** Consecutive layer shapes fit: each matrix has as many columns as the
    vector it is applied to has entries. *)
Fixpoint chained (c : nat) (shapes : list (list nat)) : Prop :=
  match shapes with
  | [] => True
  | sh :: rest => exists r, sh = [r; c] /\ chained r rest
  end.

(** What holds of a network actor [p] stored at [self]; [layers] is the
    list held by [_layers] and [ws] the weights of each layer in row-major
    order. *)
Record nn_ok s (self : nat) (p : NeuralNetActor) (lo hi : list num)
    (layers : list ndarray) (ws : list (list num)) : Prop := {
  no_heap : heap s !! self = Some (NeuralNet p);
  no_space : space_ok s (l_observation_space p) lo hi;
  no_n_obs : product (shape (l_observation_space p)) = Some (l_n_obs p);
  no_n_act : l_n_act p = n (l_action_space p);
  no_range_shape : nd_shape (l_obs_range p) = shape (l_observation_space p);
  no_range : contents s (l_obs_range p) (zip_with sub hi lo);
  no_list : heap s !! l_layers p = Some (PyList layers);
  no_chain : chained (l_n_obs p) (nd_shape <$> layers);
  no_layers : Forall2 (contents s) layers ws
}.

(** ** The genome codec *)

(** [(w + 1) / 2] and its inverses as the two [from_genome] methods write
    them: [2 * g - 1] (perceptron) and [g * 2. - 1.] (network). *)
Definition encode (w : num) : num := div (add w one) two.

Definition decode_perceptron (g : num) : num := sub (mul two g) one.

Definition decode_network (g : num) : num := sub (mul g two) one.

(** The layer shapes [NeuralNetActor.__init__] builds. *)
Definition layer_shapes (n_obs : nat) (hidden_layers : list nat) (n_act : nat)
    : list (list nat) :=
  (fun sz => [sz.2; sz.1])
    <$> zip ([n_obs] ++ hidden_layers) (hidden_layers ++ [n_act]).

(** Every object other than the one at [lst] is left as it was. *)
Definition preserved_except (lst : nat) s s1 : Prop :=
  forall l o, l <> lst -> heap s !! l = Some o -> heap s1 !! l = Some o.

(** A weight freshly drawn from a generator whose draws satisfy [P]. *)
Definition fresh_from (P : num -> Prop) (w : num) : Prop :=
  exists r, P r /\ w = fresh_weight r.

(** The total number of parameters of matrices of the given shapes. *)
Definition total_parameters (shapes : list (list nat)) : nat :=
  sum_list (size_of <$> shapes).

(** Cut a flat vector into consecutive pieces of the given sizes. *)
Fixpoint split_sizes (sizes : list nat) (d : list num) : list (list num) :=
  match sizes with
  | [] => []
  | k :: rest => take k d :: split_sizes rest (drop k d)
  end.

Context `{Exp num}.

(** ** The forward pass of a network *)

(** One layer: [sigmoid(W . v)] for a weight matrix of shape [sh]. *)
Definition layer_out (sh : list nat) (w cur : list num) : list num :=
  match sh with
  | [r; c] => sigmoid <$> matvec r c w cur
  | _ => []
  end.

Definition feed_forward (shapes : list (list nat)) (ws : list (list num))
    (x : list num) : list num :=
  fold_left (fun cur l => layer_out l.1 l.2 cur) (zip shapes ws) x.

(** The action chosen by a network on the normalized input [x]. *)
Definition network_policy (shapes : list (list nat)) (ws : list (list num))
    (x : list num) : option nat :=
  argmax_scan (feed_forward shapes ws x).

End Vocabulary.

(** The number of parameters of a weight matrix of shape
    [(out_size, in_size)]. *)
Definition matrix_parameters (sh : list nat) : nat :=
  match sh with
  | [out_size; in_size] => out_size * in_size
  | _ => 0
  end.

(** ** Order of binary64 floats *)

Section FloatOrder.

Local Open Scope Z_scope.

(** A key in lexicographic order that ranks the non-NaN floats as [<]
    does: infinities outermost, the two zeros together. *)
Definition rank (f : spec_float) : Z * Z * Z :=
  match f with
  | S754_nan => (0, 0, 0)
  | S754_zero _ => (0, 0, 0)
  | S754_infinity true => (-2, 0, 0)
  | S754_infinity false => (2, 0, 0)
  | S754_finite false m e => (1, e, Zpos m)
  | S754_finite true m e => (-1, - e, Zneg m)
  end.

Definition lex_lt (p q : Z * Z * Z) : Prop :=
  p.1.1 < q.1.1 \/
  (p.1.1 = q.1.1 /\ (p.1.2 < q.1.2 \/ (p.1.2 = q.1.2 /\ p.2 < q.2))).

End FloatOrder.

(** ** Rounded real arithmetic *)

Section RealArithmetic.

Local Open Scope R_scope.

(** binary64's unit roundoff, [2^-53]. *)
Definition unit_roundoff : R := / 9007199254740992.

(** What the analysis uses of a rounding operator, all of it true of
    binary64's round-to-nearest: it is monotone, it leaves the integers
    -2..2 alone, and on [-8, 8] it is off by at most half a unit in the
    last place of 8, that is four unit roundoffs. *)
Record rounding (rnd : R -> R) : Prop := {
  rnd_mono : forall x y, x <= y -> rnd x <= rnd y;
  rnd_exact : forall z : Z, (-2 <= z <= 2)%Z -> rnd (IZR z) = IZR z;
  rnd_error : forall x, -8 <= x <= 8 ->
    Rabs (rnd x - x) <= 4 * unit_roundoff
}.

Definition in_range (a b x : R) : Prop := a <= x <= b.

Definition close (x y : R) : Prop := Rabs (x - y) <= / 1000000000.

(** A magnitude that binary64 holds with room to spare: the difference of
    two numbers within it does not overflow. *)
Definition finite_bound : R := 2 ^ 1022.

End RealArithmetic.

(** ** Concrete states used to exercise the theorems *)

Definition vec (l k : nat) : ndarray :=
  {| nd_base := l; nd_offset := 0; nd_shape := [k] |}.

Definition mat (l r c : nat) : ndarray :=
  {| nd_base := l; nd_offset := 0; nd_shape := [r; c] |}.

(** The space with [low = [0, 0]] and [high = [2, 4]]. *)
Definition demo_space : Box :=
  {| shape := [2]; low := vec 0 2; high := vec 1 2 |}.

Definition demo_perceptron : PerceptronActor := {|
  p_observation_space := demo_space;
  p_action_space := {| n := 3 |};
  p_n_obs := 2;
  p_obs_range := vec 3 2;
  p_n_act := 3;
  p_perceptron_matrix := mat 4 3 2 |}.

(** A heap with the space's bounds (0, 1), the observation [[1, 2]] (2)
    and a perceptron actor (5) with its range (3) and matrix (4). *)
Definition demo_state : @state float := {|
  heap := list_to_map [
    (0, Buffer [0; 0]%float);
    (1, Buffer [2; 4]%float);
    (2, Buffer [1; 2]%float);
    (3, Buffer [2; 4]%float);
    (4, Buffer [0.5; -0.5; 0.25; 0.75; -1; 1]%float);
    (5, Perceptron demo_perceptron)];
  rng := fun _ => 0.25%float |}.

(** A perceptron with weights [[-1,-1], [1,-1], [1,1]] over the bounds
    [[0, 0]] and [[1, 1]], and the observation [[inf, inf]] (2): its output
    vector is [[-inf, nan, inf]]. *)
Definition nan_state : @state float := {|
  heap := list_to_map [
    (0, Buffer [0; 0]%float);
    (1, Buffer [1; 1]%float);
    (2, Buffer [infinity; infinity]);
    (3, Buffer [1; 1]%float);
    (4, Buffer [-1; -1; 1; -1; 1; 1]%float);
    (5, Perceptron {|
          p_observation_space :=
            {| shape := [2]; low := vec 0 2; high := vec 1 2 |};
          p_action_space := {| n := 3 |};
          p_n_obs := 2;
          p_obs_range := vec 3 2;
          p_n_act := 3;
          p_perceptron_matrix := mat 4 3 2 |})];
  rng := fun _ => 0.25%float |}.

(** A state over the reals: the bounds [[0, 0]] (0) and [[2, 4]] (1) of
    [demo_space] and a generator whose draws are all [1/4]. *)
Definition real_state : @state R := {|
  heap := list_to_map [(0, Buffer [0; 0]%R); (1, Buffer [2; 4]%R)];
  rng := fun _ => (/ 4)%R |}.

(** A perceptron actor over the reals, in exact arithmetic. *)
Definition real_actor_state : @state R := {|
  heap := list_to_map [
    (0, Buffer [0; 0]%R);
    (1, Buffer [2; 4]%R);
    (2, Buffer [1; 2]%R);
    (3, Buffer [2 - 0; 4 - 0]%R);
    (4, Buffer [/ 2; - / 2; / 4; 3 / 4; -1; 1]%R);
    (5, Perceptron demo_perceptron)];
  rng := fun _ => (/ 4)%R |}.

(** A space with five observations. *)
Definition wide_space : Box :=
  {| shape := [5]; low := vec 0 5; high := vec 1 5 |}.

Definition wide_state : @state float := {|
  heap := list_to_map [
    (0, Buffer [0; 0; 0; 0; 0]%float);
    (1, Buffer [1; 1; 1; 1; 1]%float)];
  rng := fun _ => 0.25%float |}.

(** A genome for the 3 x 2 perceptron of [demo_state]. *)
Definition genome_state : @state float := {|
  heap := <[6 := Buffer [0; 0.25; 0.5; 0.75; 1; 0.5]%float]> (heap demo_state);
  rng := rng demo_state |}.

(** A network with no hidden layer that holds the very matrix of the
    perceptron of [real_actor_state]. *)
Definition demo_network : NeuralNetActor := {|
  l_observation_space := demo_space;
  l_action_space := {| n := 3 |};
  l_n_obs := 2;
  l_obs_range := vec 3 2;
  l_n_act := 3;
  l_layers := 6 |}.

Definition real_pair_state : @state R := {|
  heap := <[7 := NeuralNet demo_network]>
            (<[6 := PyList [mat 4 3 2]]> (heap real_actor_state));
  rng := rng real_actor_state |}.

(** [real_pair_state] with a genome of eight elements (8): two more than
    the network (7) has parameters. *)
Definition long_genome_state : @state R := {|
  heap := <[8 := Buffer [0; / 4; / 2; 3 / 4; 1; / 2; 1; 0]%R]>
            (heap real_pair_state);
  rng := rng real_pair_state |}.

(** [real_actor_state] with a genome (6) for its 3 x 2 perceptron. *)
Definition real_genome_state : @state R := {|
  heap := <[6 := Buffer [0; / 4; / 2; 3 / 4; 1; / 2]%R]>
            (heap real_actor_state);
  rng := rng real_actor_state |}.

(** * Lemmas *)

(** ** Properties of [product] *)

Lemma fold_left_mul (l : list nat) (x : nat) :
  fold_left Nat.mul l x = x * size_of l.
Proof.
  revert x. induction l as [|y l IH]; intros x; simpl.
  - lia.
  - rewrite IH. lia.
Qed.

Lemma product_cons (x : nat) (l : list nat) :
  product (x :: l) = Some (size_of (x :: l)).
Proof. unfold product, reduce. f_equal. apply fold_left_mul. Qed.

Lemma product_Some (l : list nat) (k : nat) :
  product l = Some k -> k = size_of l.
Proof. destruct l; [done|]. rewrite product_cons. congruence. Qed.

Lemma product_pair (r c : nat) : product [r; c] = Some (r * c).
Proof. rewrite product_cons. simpl. f_equal. lia. Qed.

(** ** The argmax scan *)

Section Argmax.
Context {num : Type} `{Num num}.

Lemma scan_prefix (v : list num) (k : nat) :
  v <> [] -> ordered_on v -> k <= length v ->
  exists i, fold_left (argmax_step v) (take k (imap pair v)) (Some 0) = Some i
            /\ scan_inv v k i.
Proof.
  intros Hne Hord. induction k as [|k IH]; intros Hk.
  - exists 0. split; [done|]. repeat split; [by left|intros; lia..].
  - destruct IH as (i & Hfold & Hi & Hmax & Hmin); [lia|].
    destruct (lookup_lt_is_Some_2 v k) as [xk Hxk]; [lia|].
    assert (Hik : i < length v).
    { destruct Hi; [subst; destruct v; [done|simpl; lia]|lia]. }
    destruct (lookup_lt_is_Some_2 v i Hik) as [xi Hxi].
    erewrite take_S_r; last by (rewrite list_lookup_imap, Hxk).
    rewrite fold_left_app, Hfold. simpl. unfold argmax_step. simpl.
    rewrite Hxi. simpl.
    assert (Hink : xk ∈ v) by (eapply list_elem_of_lookup_2; eauto).
    assert (Hini : xi ∈ v) by (eapply list_elem_of_lookup_2; eauto).
    destruct (gtb xk xi) eqn:Hgt; eexists; (split; [reflexivity|]).
    + split; [right; lia|]. split.
      * intros j y x Hj Hy Hx. rewrite Hxk in Hx. injection Hx as <-.
        destruct (decide (j = k)) as [->|Hjk].
        { rewrite Hxk in Hy. injection Hy as <-. by apply (gtb_irrefl v). }
        destruct (gtb y xk) eqn:Hyk; [|done].
        assert (Hy' : y ∈ v) by (eapply list_elem_of_lookup_2; eauto).
        assert (Hc : gtb y xi = true) by (by apply (gtb_trans v Hord y xk xi)).
        rewrite (Hmax j y xi) in Hc; [done|lia|done..].
      * intros i' x' x Hi' Hx' Hx. rewrite Hxk in Hx. injection Hx as <-.
        assert (Hx'' : x' ∈ v) by (eapply list_elem_of_lookup_2; eauto).
        destruct (gtb_negtrans v Hord xk xi x') as [?|Hc]; [done..|].
        rewrite (Hmax i' x' xi) in Hc; [done|lia|done..].
    + split; [destruct Hi; [by left|right; lia]|]. split; [|done].
      intros j y x Hj Hy Hx. rewrite Hxi in Hx. injection Hx as <-.
      destruct (decide (j = k)) as [->|Hjk].
      { rewrite Hxk in Hy. by injection Hy as <-. }
      eapply (Hmax j); eauto. lia.
Qed.

Lemma argmax_scan_first_max (v : list num) :
  v <> [] -> ordered_on v ->
  exists i, argmax_scan v = Some i /\ first_max v i.
Proof.
  intros Hne Hord.
  destruct (scan_prefix v (length v) Hne Hord) as (i & Hfold & Hi & Hmax & Hmin);
    [lia|].
  rewrite take_ge in Hfold by (rewrite length_imap; lia).
  exists i. split; [done|].
  assert (Hik : i < length v).
  { destruct Hi; [subst; destruct v; [done|simpl; lia]|lia]. }
  destruct (lookup_lt_is_Some_2 v i Hik) as [xi Hxi].
  split.
  - exists xi. split; [done|]. intros j y Hy.
    eapply (Hmax j); eauto. eapply lookup_lt_Some; eauto.
  - intros i' Hi' (x' & Hx' & Hno).
    specialize (Hmin i' x' xi Hi' Hx' Hxi).
    rewrite (Hno i xi Hxi) in Hmin. done.
Qed.

End Argmax.

(** ** Reasoning about stateful computations *)

Section Reasoning.
Context {num : Type} `{Num num}.
Implicit Types (s : @state num) (a b : ndarray) (d : list num).

Lemma bind_Some {A B} (m : M A) (f : A -> M B) s y s2 :
  (m ≫= f) s = Some (y, s2) <->
  exists x s1, m s = Some (x, s1) /\ f x s1 = Some (y, s2).
Proof.
  unfold mbind, M_bind. split.
  - destruct (m s) as [[x s1]|]; [eauto|done].
  - intros (x & s1 & -> & ?). done.
Qed.

Lemma bind_run {A B} (m : M A) (f : A -> M B) s x s1 :
  m s = Some (x, s1) -> (m ≫= f) s = f x s1.
Proof. unfold mbind, M_bind. by intros ->. Qed.

Lemma ret_Some {A} (x y : A) s s1 :
  (mret x : M A) s = Some (y, s1) <-> y = x /\ s1 = s.
Proof. unfold mret, M_ret. split; [by intros [= -> ->]|by intros [-> ->]]. Qed.

Lemma lift_Some {A} (o : option A) (x : A) s s1 :
  lift o s = Some (x, s1) <-> o = Some x /\ s1 = s.
Proof.
  destruct o as [y|]; simpl; [rewrite ret_Some|unfold raise].
  - split; [by intros [-> ->]|by intros [[= ->] ->]].
  - split; [done|by intros [? _]].
Qed.

Lemma load_Some l o s s1 :
  load l s = Some (o, s1) <-> heap s !! l = Some o /\ s1 = s.
Proof.
  unfold load. destruct (heap s !! l) as [o'|].
  - split; [by intros [= -> ->]|by intros [[= ->] ->]].
  - split; [done|by intros [? _]].
Qed.

Lemma load_buffer_Some l d s s1 :
  load_buffer l s = Some (d, s1) <-> heap s !! l = Some (Buffer d) /\ s1 = s.
Proof.
  unfold load_buffer. rewrite bind_Some. split.
  - intros (o & s' & [Ho ->]%load_Some & Hr).
    destruct o; try done. apply ret_Some in Hr as [-> ->]. done.
  - intros [Ho ->]. exists (Buffer d), s. by rewrite load_Some, ret_Some.
Qed.

Lemma load_list_Some l xs s s1 :
  load_list l s = Some (xs, s1) <-> heap s !! l = Some (PyList xs) /\ s1 = s.
Proof.
  unfold load_list. rewrite bind_Some. split.
  - intros (o & s' & [Ho ->]%load_Some & Hr).
    destruct o; try done. apply ret_Some in Hr as [-> ->]. done.
  - intros [Ho ->]. exists (PyList xs), s. by rewrite load_Some, ret_Some.
Qed.

Lemma load_perceptron_Some l p s s1 :
  load_perceptron l s = Some (p, s1) <->
  heap s !! l = Some (Perceptron p) /\ s1 = s.
Proof.
  unfold load_perceptron. rewrite bind_Some. split.
  - intros (o & s' & [Ho ->]%load_Some & Hr).
    destruct o; try done. apply ret_Some in Hr as [-> ->]. done.
  - intros [Ho ->]. exists (Perceptron p), s. by rewrite load_Some, ret_Some.
Qed.

Lemma load_nn_Some l p s s1 :
  load_nn l s = Some (p, s1) <-> heap s !! l = Some (NeuralNet p) /\ s1 = s.
Proof.
  unfold load_nn. rewrite bind_Some. split.
  - intros (o & s' & [Ho ->]%load_Some & Hr).
    destruct o; try done. apply ret_Some in Hr as [-> ->]. done.
  - intros [Ho ->]. exists (NeuralNet p), s. by rewrite load_Some, ret_Some.
Qed.

Lemma elements_Some a d s s1 :
  elements a s = Some (d, s1) <-> contents s a d /\ s1 = s.
Proof.
  unfold elements, contents. rewrite bind_Some. split.
  - intros (buf & s' & [Hb ->]%load_buffer_Some & Hr).
    case_decide; [|done]. apply ret_Some in Hr as [-> ->]. eauto.
  - intros [(buf & Hb & Hle & ->) ->]. exists buf, s.
    rewrite load_buffer_Some. split; [done|].
    rewrite decide_True by done. done.
Qed.

Lemma contents_length s a d : contents s a d -> length d = size_of (nd_shape a).
Proof.
  intros (buf & _ & Hle & ->). rewrite length_take, length_drop. lia.
Qed.

Lemma contents_weaken s s1 a d :
  heap s ⊆ heap s1 -> contents s a d -> contents s1 a d.
Proof.
  intros Hsub (buf & Hb & ?). exists buf. split; [|done].
  eapply lookup_weaken; eauto.
Qed.

Lemma contents_reshape s a d sh :
  contents s a d -> size_of sh = size_of (nd_shape a) ->
  contents s {| nd_base := nd_base a; nd_offset := nd_offset a; nd_shape := sh |} d.
Proof.
  intros (buf & Hb & Hle & ->) Hsz. exists buf. simpl. rewrite Hsz. done.
Qed.

(** A freshly made array owns its whole buffer. *)
Lemma contents_whole s l sh d :
  heap s !! l = Some (Buffer d) -> length d = size_of sh ->
  contents s {| nd_base := l; nd_offset := 0; nd_shape := sh |} d.
Proof.
  intros Hl Hlen. exists d. simpl. split; [done|]. split; [lia|].
  rewrite drop_0, take_ge; [done|lia].
Qed.

Lemma alloc_Some o l s s1 :
  alloc o s = Some (l, s1) <->
  l = fresh (dom (heap s)) /\ s1 = set_heap s (<[l := o]> (heap s)).
Proof.
  unfold alloc, set_heap. simpl.
  split; [by intros [= <- <-]|by intros [-> ->]].
Qed.

Lemma fresh_None s : heap s !! fresh (dom (heap s)) = None.
Proof. apply not_elem_of_dom, is_fresh. Qed.

Lemma new_array_Some sh d a s s1 :
  new_array sh d s = Some (a, s1) <->
  a = {| nd_base := fresh (dom (heap s)); nd_offset := 0; nd_shape := sh |} /\
  s1 = set_heap s (<[nd_base a := Buffer d]> (heap s)).
Proof.
  unfold new_array. rewrite bind_Some. split.
  - intros (l & s' & [-> ->]%alloc_Some & [-> ->]%ret_Some). done.
  - intros [-> ->]. eexists _, _. rewrite alloc_Some, ret_Some. done.
Qed.

Lemma new_array_allocated sh d a s s1 :
  new_array sh d s = Some (a, s1) -> allocated s s1 a sh d.
Proof.
  intros [-> ->]%new_array_Some. split; [apply fresh_None|done].
Qed.

Lemma new_array_run sh d s :
  exists a s1, new_array sh d s = Some (a, s1) /\ allocated s s1 a sh d.
Proof.
  eexists _, _. split; [by apply new_array_Some|].
  split; [apply fresh_None|done].
Qed.

Lemma allocated_sub s s1 a sh d : allocated s s1 a sh d -> heap s ⊆ heap s1.
Proof. intros (Hn & _ & _ & -> & _). by apply insert_subseteq. Qed.

Lemma allocated_contents s s1 a sh d :
  allocated s s1 a sh d -> length d = size_of sh -> contents s1 a d.
Proof.
  intros (Hn & Ho & Hsh & Hh & _) Hlen. destruct a as [l o sh']. simpl in *.
  subst. apply contents_whole; [|done]. rewrite Hh. apply lookup_insert_eq.
Qed.

Lemma wp_bind {A B} (m : M A) (f : A -> M B) s Q :
  wp m s (fun x s1 => wp (f x) s1 Q) -> wp (m ≫= f) s Q.
Proof.
  intros (x & s1 & Hm & y & s2 & Hf & HQ). exists y, s2.
  split; [|done]. by rewrite (bind_run _ _ _ _ _ Hm).
Qed.

Lemma wlp_bind {A B} (m : M A) (f : A -> M B) s Q :
  wlp m s (fun x s1 => wlp (f x) s1 Q) -> wlp (m ≫= f) s Q.
Proof.
  intros Hm y s2 (x & s1 & H1 & H2)%bind_Some. by eapply Hm.
Qed.

Lemma wp_ret {A} (x : A) s (Q : A -> state -> Prop) : Q x s -> wp (mret x) s Q.
Proof. intros HQ. by exists x, s. Qed.

Lemma wlp_ret {A} (x : A) s (Q : A -> state -> Prop) : Q x s -> wlp (mret x) s Q.
Proof. by intros HQ y s1 [-> ->]%ret_Some. Qed.

Lemma wp_mono {A} (m : M A) s (Q Q' : A -> state -> Prop) :
  wp m s Q -> (forall x s1, Q x s1 -> Q' x s1) -> wp m s Q'.
Proof. intros (x & s1 & ? & ?) HQ. exists x, s1. eauto. Qed.

Lemma wlp_mono {A} (m : M A) s (Q Q' : A -> state -> Prop) :
  wlp m s Q -> (forall x s1, Q x s1 -> Q' x s1) -> wlp m s Q'.
Proof. intros Hm HQ x s1 Hr. eauto. Qed.

Lemma wp_lift {A} (o : option A) x s (Q : A -> state -> Prop) :
  o = Some x -> Q x s -> wp (lift o) s Q.
Proof. intros -> HQ. by exists x, s. Qed.

Lemma wlp_lift {A} (o : option A) s (Q : A -> state -> Prop) :
  (forall x, o = Some x -> Q x s) -> wlp (lift o) s Q.
Proof. intros HQ x s1 [-> ->]%lift_Some. eauto. Qed.

Lemma wp_load_perceptron l p s Q :
  heap s !! l = Some (Perceptron p) -> Q p s -> wp (load_perceptron l) s Q.
Proof. intros Hl HQ. exists p, s. by rewrite load_perceptron_Some. Qed.

Lemma wlp_load_perceptron l s Q :
  (forall p, heap s !! l = Some (Perceptron p) -> Q p s) ->
  wlp (load_perceptron l) s Q.
Proof. intros HQ p s1 [Hl ->]%load_perceptron_Some. eauto. Qed.

Lemma wp_load_nn l p s Q :
  heap s !! l = Some (NeuralNet p) -> Q p s -> wp (load_nn l) s Q.
Proof. intros Hl HQ. exists p, s. by rewrite load_nn_Some. Qed.

Lemma wlp_load_nn l s Q :
  (forall p, heap s !! l = Some (NeuralNet p) -> Q p s) -> wlp (load_nn l) s Q.
Proof. intros HQ p s1 [Hl ->]%load_nn_Some. eauto. Qed.

Lemma wp_load_list l xs s Q :
  heap s !! l = Some (PyList xs) -> Q xs s -> wp (load_list l) s Q.
Proof. intros Hl HQ. exists xs, s. by rewrite load_list_Some. Qed.

Lemma wlp_load_list l s Q :
  (forall xs, heap s !! l = Some (PyList xs) -> Q xs s) -> wlp (load_list l) s Q.
Proof. intros HQ p s1 [Hl ->]%load_list_Some. eauto. Qed.

Lemma wp_elements a d s Q : contents s a d -> Q d s -> wp (elements a) s Q.
Proof. intros Hc HQ. exists d, s. by rewrite elements_Some. Qed.

Lemma wlp_elements a s Q :
  (forall d, contents s a d -> Q d s) -> wlp (elements a) s Q.
Proof. intros HQ d s1 [Hc ->]%elements_Some. eauto. Qed.

Lemma wp_new_array sh d s Q :
  (forall a s1, allocated s s1 a sh d -> Q a s1) -> wp (new_array sh d) s Q.
Proof.
  intros HQ. destruct (new_array_run sh d s) as (a & s1 & Hr & Ha).
  exists a, s1. eauto.
Qed.

Lemma wlp_new_array sh d s Q :
  (forall a s1, allocated s s1 a sh d -> Q a s1) -> wlp (new_array sh d) s Q.
Proof. intros HQ a s1 Hr%new_array_allocated. eauto. Qed.

(** *** Specifications of the numpy operations *)

Lemma wp_np_copy a d s Q :
  contents s a d ->
  (forall a' s1, allocated s s1 a' (nd_shape a) d -> Q a' s1) ->
  wp (np_copy a) s Q.
Proof.
  intros Hc HQ. apply wp_bind, (wp_elements _ d); [done|].
  by apply wp_new_array.
Qed.

Lemma wlp_np_copy a s Q :
  (forall d a' s1, contents s a d -> allocated s s1 a' (nd_shape a) d -> Q a' s1) ->
  wlp (np_copy a) s Q.
Proof.
  intros HQ. apply wlp_bind, wlp_elements. intros d Hc.
  apply wlp_new_array. eauto.
Qed.

Lemma wp_map_array f a d s Q :
  contents s a d ->
  (forall a' s1, allocated s s1 a' (nd_shape a) (f <$> d) -> Q a' s1) ->
  wp (map_array f a) s Q.
Proof.
  intros Hc HQ. apply wp_bind, (wp_elements _ d); [done|].
  by apply wp_new_array.
Qed.

Lemma wlp_map_array f a s Q :
  (forall d a' s1, contents s a d ->
     allocated s s1 a' (nd_shape a) (f <$> d) -> Q a' s1) ->
  wlp (map_array f a) s Q.
Proof.
  intros HQ. apply wlp_bind, wlp_elements. intros d Hc.
  apply wlp_new_array. eauto.
Qed.

Lemma wp_zip_array f a b da db s Q :
  nd_shape a = nd_shape b -> contents s a da -> contents s b db ->
  (forall a' s1, allocated s s1 a' (nd_shape a) (zip_with f da db) -> Q a' s1) ->
  wp (zip_array f a b) s Q.
Proof.
  intros Hsh Ha Hb HQ. unfold zip_array. rewrite decide_True by done.
  apply wp_bind, (wp_elements _ da); [done|].
  apply wp_bind, (wp_elements _ db); [done|].
  by apply wp_new_array.
Qed.

Lemma wp_np_reshape a sh s (Q : ndarray -> state -> Prop) :
  size_of sh = size_of (nd_shape a) ->
  Q {| nd_base := nd_base a; nd_offset := nd_offset a; nd_shape := sh |} s ->
  wp (np_reshape a sh) s Q.
Proof.
  intros Hsz HQ. unfold np_reshape. rewrite decide_True by done.
  by apply wp_ret.
Qed.

Lemma wlp_np_reshape a sh s (Q : ndarray -> state -> Prop) :
  (size_of sh = size_of (nd_shape a) ->
   Q {| nd_base := nd_base a; nd_offset := nd_offset a; nd_shape := sh |} s) ->
  wlp (np_reshape a sh) s Q.
Proof.
  intros HQ. unfold np_reshape. case_decide; [|done].
  apply wlp_ret. eauto.
Qed.

(** A list of [n * k] elements is the concatenation of its [n] consecutive
    pieces of [k] elements. *)
Lemma concat_chunks (k n : nat) :
  forall d : list num, length d = n * k ->
  concat ((fun i => take k (drop (i * k) d)) <$> seq 0 n) = d.
Proof.
  induction n as [|n IH]; intros d Hlen.
  - destruct d; [done|simpl in Hlen; lia].
  - rewrite <- cons_seq, fmap_cons. simpl. rewrite drop_0.
    rewrite <- fmap_S_seq, <- list_fmap_compose.
    transitivity (take k d ++ drop k d); [|apply take_drop]. f_equal.
    etrans; [|apply (IH (drop k d)); rewrite length_drop; lia].
    f_equal. apply list_fmap_ext. intros _ i _. simpl.
    rewrite drop_drop. do 2 f_equal; lia.
Qed.

(** Broadcasting an operand to its own shape leaves it as it is. *)
Lemma broadcast_to_same (sh : list nat) :
  forall d : list num, length d = size_of sh -> broadcast_to sh sh d = Some d.
Proof.
  induction sh as [|n sh IH]; intros d Hlen; [done|].
  simpl. rewrite decide_True by done.
  assert (Hm : mapM (fun i => broadcast_to sh sh
                                (take (size_of sh) (drop (i * size_of sh) d)))
                 (seq 0 n)
               = Some ((fun i => take (size_of sh) (drop (i * size_of sh) d))
                         <$> seq 0 n)).
  { apply mapM_Some. apply Forall2_fmap_r, Forall_Forall2_diag, Forall_forall.
    intros i Hi%elem_of_seq. apply IH.
    simpl in Hlen. rewrite length_take, length_drop. nia. }
  rewrite Hm. simpl. f_equal. apply concat_chunks. by simpl in Hlen.
Qed.

Lemma broadcast_same (sh : list nat) (d : list num) :
  length d = size_of sh -> broadcast sh sh d = Some d.
Proof.
  intros Hlen. unfold broadcast. rewrite decide_True by done.
  rewrite Nat.sub_diag. simpl. by apply broadcast_to_same.
Qed.

(** An in-place operation overwrites the buffer of its left operand and
    nothing else. *)
Lemma wlp_inplace f a b s (Q : unit -> state -> Prop) :
  (forall buf s1, heap s1 = <[nd_base a := Buffer buf]> (heap s) -> Q tt s1) ->
  wlp (inplace f a b) s Q.
Proof.
  intros HQ. unfold inplace.
  apply wlp_bind, wlp_elements. intros da _.
  apply wlp_bind, wlp_elements. intros db _.
  apply wlp_bind, wlp_lift. intros db' _.
  intros [] s1 (buf & s' & [_ ->]%load_buffer_Some & [= <-])%bind_Some.
  eapply HQ. done.
Qed.

(** On an array that owns its buffer the new contents are exactly the
    elementwise results. *)
Lemma wp_inplace f a b da db s (Q : unit -> state -> Prop) :
  heap s !! nd_base a = Some (Buffer da) -> nd_offset a = 0 ->
  length da = size_of (nd_shape a) ->
  nd_shape a = nd_shape b -> contents s b db ->
  (forall s1, heap s1 = <[nd_base a := Buffer (zip_with f da db)]> (heap s) ->
     Q tt s1) ->
  wp (inplace f a b) s Q.
Proof.
  intros Hbuf Hoff Hlen Hsh Hb HQ. unfold inplace.
  assert (Ha : contents s a da).
  { destruct a as [l o sh]; simpl in *; subst. by apply contents_whole. }
  apply wp_bind, (wp_elements _ da); [done|].
  apply wp_bind, (wp_elements _ db); [done|].
  apply wp_bind, (wp_lift _ db).
  { rewrite Hsh. apply broadcast_same. by apply contents_length in Hb. }
  unfold write_elements. apply wp_bind. exists da, s.
  split; [by apply load_buffer_Some|].
  eexists tt, _. split; [reflexivity|]. apply HQ. simpl.
  rewrite Hoff. simpl. f_equal. f_equal.
  rewrite drop_ge, app_nil_r; [done|].
  rewrite length_zip_with.
  apply contents_length in Hb. rewrite <- Hsh in Hb. lia.
Qed.

Lemma wp_np_dot W v r c dw dv s Q :
  nd_shape W = [r; c] -> nd_shape v = [c] ->
  contents s W dw -> contents s v dv ->
  (forall a' s1, allocated s s1 a' [r] (matvec r c dw dv) -> Q a' s1) ->
  wp (np_dot W v) s Q.
Proof.
  intros HW Hv Hdw Hdv HQ. unfold np_dot. rewrite HW, Hv.
  rewrite decide_True by done.
  apply wp_bind, (wp_elements _ dw); [done|].
  apply wp_bind, (wp_elements _ dv); [done|].
  by apply wp_new_array.
Qed.

Lemma wlp_np_dot W v s Q :
  (forall r c dw dv a' s1, nd_shape W = [r; c] -> nd_shape v = [c] ->
     contents s W dw -> contents s v dv ->
     allocated s s1 a' [r] (matvec r c dw dv) -> Q a' s1) ->
  wlp (np_dot W v) s Q.
Proof.
  intros HQ. unfold np_dot.
  destruct (nd_shape W) as [|r [|c [|]]] eqn:HW; try done.
  destruct (nd_shape v) as [|c' [|]] eqn:Hv; try done.
  case_decide; [subst c'|done].
  apply wlp_bind, wlp_elements. intros dw Hdw.
  apply wlp_bind, wlp_elements. intros dv Hdv.
  apply wlp_new_array. eauto.
Qed.

(** *** Observation normalization *)

Lemma size_of_1 (k : nat) : size_of [k] = k.
Proof. simpl. lia. Qed.

Lemma wp_normalize sp rg n_obs obs o lo r s Q :
  contents s obs o -> contents s (low sp) lo -> contents s rg r ->
  nd_shape obs = nd_shape (low sp) -> nd_shape obs = nd_shape rg ->
  size_of (nd_shape obs) = n_obs ->
  (forall v s1, heap s ⊆ heap s1 -> heap s !! nd_base v = None ->
     nd_shape v = [n_obs] ->
     contents s1 v (zip_with div (zip_with sub o lo) r) -> Q v s1) ->
  wp (normalize sp rg n_obs obs) s Q.
Proof.
  intros Ho Hlo Hr Hshl Hshr Hsz HQ. unfold normalize.
  pose proof (contents_length _ _ _ Ho) as Hlo_len.
  pose proof (contents_length _ _ _ Hlo) as Hllo.
  pose proof (contents_length _ _ _ Hr) as Hlr.
  apply wp_bind, (wp_np_copy _ o); [done|].
  intros a' s1 (Hnone & Hoff & Hsh & Hh1 & _).
  apply wp_bind, (wp_inplace sub a' (low sp) o lo); try done.
  { rewrite Hh1. apply lookup_insert_eq. }
  { by rewrite Hsh. }
  { by rewrite Hsh. }
  { eapply contents_weaken; [|done]. rewrite Hh1. by apply insert_subseteq. }
  intros s2 Hh2. rewrite Hh1, insert_insert_eq in Hh2.
  apply wp_bind, (wp_inplace div a' rg (zip_with sub o lo) r); try done.
  { rewrite Hh2. apply lookup_insert_eq. }
  { rewrite length_zip_with, Hsh. rewrite <- Hshl in Hllo. lia. }
  { by rewrite Hsh. }
  { eapply contents_weaken; [|done]. rewrite Hh2. by apply insert_subseteq. }
  intros s3 Hh3. rewrite Hh2, insert_insert_eq in Hh3.
  apply wp_np_reshape.
  { rewrite size_of_1, Hsh. done. }
  apply HQ; simpl; try done.
  - rewrite Hh3. by apply insert_subseteq.
  - rewrite Hoff. apply contents_whole.
    + rewrite Hh3. apply lookup_insert_eq.
    + rewrite size_of_1, !length_zip_with.
      rewrite <- Hshl in Hllo. rewrite <- Hshr in Hlr. lia.
Qed.

(** Whatever its arguments, [normalize] only allocates the copy it works
    on: every object of the initial heap is left as it was. *)
Lemma wlp_normalize sp rg n_obs obs s Q :
  (forall v s1, heap s ⊆ heap s1 -> Q v s1) ->
  wlp (normalize sp rg n_obs obs) s Q.
Proof.
  intros HQ. unfold normalize.
  apply wlp_bind, wlp_np_copy. intros d a' s1 _ (Hnone & _ & _ & Hh1 & _).
  apply wlp_bind, wlp_inplace. intros b2 s2 Hh2.
  rewrite Hh1, insert_insert_eq in Hh2.
  apply wlp_bind, wlp_inplace. intros b3 s3 Hh3.
  rewrite Hh2, insert_insert_eq in Hh3.
  apply wlp_np_reshape. intros _. apply HQ.
  rewrite Hh3. by apply insert_subseteq.
Qed.

(** *** The scan always returns an index *)

Lemma argmax_scan_total (v : list num) :
  exists i, argmax_scan v = Some i /\ (i = 0 \/ i < length v).
Proof.
  unfold argmax_scan.
  cut (forall k, k <= length v ->
         exists i, fold_left (argmax_step v) (take k (imap pair v)) (Some 0)
                   = Some i /\ (i = 0 \/ i < k)).
  { intros Hk. destruct (Hk (length v)) as (i & Hi & ?); [lia|].
    rewrite take_ge in Hi by (rewrite length_imap; lia). eauto. }
  induction k as [|k IH]; intros Hk.
  - exists 0. split; [done|by left].
  - destruct IH as (i & Hfold & Hi); [lia|].
    destruct (lookup_lt_is_Some_2 v k) as [xk Hxk]; [lia|].
    assert (Hik : i < length v) by lia.
    destruct (lookup_lt_is_Some_2 v i Hik) as [xi Hxi].
    erewrite take_S_r; last by (rewrite list_lookup_imap, Hxk).
    rewrite fold_left_app, Hfold. simpl. unfold argmax_step. simpl.
    rewrite Hxi. simpl.
    destruct (gtb xk xi); eexists; (split; [reflexivity|]); lia.
Qed.

Lemma wp_argmax outputs k xs s Q :
  nd_shape outputs = [k] -> contents s outputs xs ->
  (forall i, argmax_scan xs = Some i -> Q i s) ->
  wp (argmax outputs) s Q.
Proof.
  intros Hsh Hc HQ. unfold argmax. rewrite Hsh.
  apply wp_bind, (wp_elements _ xs); [done|].
  destruct (argmax_scan_total xs) as (i & Hi & _).
  eapply wp_lift; eauto.
Qed.

Lemma wlp_argmax outputs s Q :
  (forall xs i, contents s outputs xs -> argmax_scan xs = Some i -> Q i s) ->
  wlp (argmax outputs) s Q.
Proof.
  intros HQ. unfold argmax. destruct (nd_shape outputs) as [|k [|]]; try done.
  apply wlp_bind, wlp_elements. intros xs Hxs.
  apply wlp_lift. eauto.
Qed.

(** *** Loops *)

Lemma wlp_foldM {A B} (f : A -> B -> M A) (I : A -> state -> Prop)
    (l : list B) (x0 : A) s :
  I x0 s ->
  (forall y x s1, I x s1 -> wlp (f x y) s1 I) ->
  wlp (foldM f x0 l) s I.
Proof.
  intros H0 Hstep. revert x0 s H0.
  induction l as [|y l IH]; intros x0 s H0; simpl.
  - by apply wlp_ret.
  - apply wlp_bind. eapply wlp_mono; [by apply Hstep|]. simpl. eauto.
Qed.

(** ** Invariants of the actors *)

Lemma space_ok_weaken s s1 sp lo hi :
  heap s ⊆ heap s1 -> space_ok s sp lo hi -> space_ok s1 sp lo hi.
Proof.
  intros Hsub [? ? ? ?]. split; eauto using contents_weaken.
Qed.

Lemma perceptron_ok_weaken s s1 self p lo hi w :
  heap s ⊆ heap s1 -> perceptron_ok s self p lo hi w ->
  perceptron_ok s1 self p lo hi w.
Proof.
  intros Hsub [? ? ? ? ? ? ? ?].
  split; eauto using contents_weaken, space_ok_weaken, lookup_weaken.
Qed.

(** *** [PerceptronActor.react_to] *)

Lemma wp_perceptron_outputs self p lo hi w obs o s Q :
  perceptron_ok s self p lo hi w ->
  contents s obs o -> nd_shape obs = shape (p_observation_space p) ->
  (forall outputs s1, heap s ⊆ heap s1 -> nd_shape outputs = [p_n_act p] ->
     contents s1 outputs
       (matvec (p_n_act p) (p_n_obs p) w (normalized o lo hi)) ->
     Q outputs s1) ->
  wp (PerceptronActor_outputs self obs) s Q.
Proof.
  intros [Hself [Hls Hhs Hlo Hhi] Hprod Hact Hrs Hrg Hms Hw] Ho Hosh HQ.
  unfold PerceptronActor_outputs.
  apply wp_bind, (wp_load_perceptron _ p); [done|].
  apply wp_bind, (wp_normalize _ _ _ _ o lo (zip_with sub hi lo)); try done.
  { congruence. }
  { congruence. }
  { rewrite Hosh. symmetry. by apply product_Some. }
  intros v s1 Hsub1 Hfresh Hvsh Hv. fold (normalized o lo hi) in Hv.
  apply wp_bind, (wp_np_copy _ (normalized o lo hi)); [done|].
  intros obs' s2 Hal2.
  pose proof (allocated_sub _ _ _ _ _ Hal2) as Hsub2.
  assert (Hobs' : contents s2 obs' (normalized o lo hi)).
  { eapply allocated_contents; [done|]. by apply contents_length in Hv. }
  destruct Hal2 as (_ & _ & Hsh2 & _).
  apply (wp_np_dot _ _ (p_n_act p) (p_n_obs p) w (normalized o lo hi));
    try done.
  { congruence. }
  { eapply contents_weaken; [|done]. by etrans. }
  intros outputs s3 Hal3. apply HQ.
  - etrans; [done|]. etrans; [done|]. by eapply allocated_sub.
  - by destruct Hal3 as (_ & _ & ? & _).
  - eapply allocated_contents; [done|].
    unfold matvec. by rewrite length_fmap, length_seq, size_of_1.
Qed.

Lemma wp_perceptron_react_to self p lo hi w obs o s Q :
  perceptron_ok s self p lo hi w ->
  contents s obs o -> nd_shape obs = shape (p_observation_space p) ->
  (forall i s1, heap s ⊆ heap s1 ->
     perceptron_policy (p_n_act p) (p_n_obs p) w (normalized o lo hi) = Some i ->
     Q i s1) ->
  wp (PerceptronActor_react_to self obs) s Q.
Proof.
  intros Hok Ho Hosh HQ. unfold PerceptronActor_react_to.
  apply wp_bind, (wp_perceptron_outputs _ p lo hi w _ o); [done..|].
  intros outputs s1 Hsub Hsh Hout.
  eapply wp_argmax; [done..|]. intros i Hi. by apply HQ.
Qed.

(** Frame: [react_to] leaves every object of the initial heap as it was,
    whatever the arguments. *)
Lemma wlp_perceptron_outputs self obs s :
  wlp (PerceptronActor_outputs self obs) s (fun _ s1 => heap s ⊆ heap s1).
Proof.
  unfold PerceptronActor_outputs.
  apply wlp_bind, wlp_load_perceptron. intros p _.
  apply wlp_bind, wlp_normalize. intros v s1 Hsub1.
  apply wlp_bind, wlp_np_copy. intros d obs' s2 _ Hal2%allocated_sub.
  apply wlp_np_dot.
  intros r c dw dv outputs s3 _ _ _ _ Hal3%allocated_sub.
  etrans; [done|]. by etrans.
Qed.

Lemma wlp_perceptron_react_to self obs s :
  wlp (PerceptronActor_react_to self obs) s (fun _ s1 => heap s ⊆ heap s1).
Proof.
  unfold PerceptronActor_react_to.
  apply wlp_bind. eapply wlp_mono; [apply wlp_perceptron_outputs|].
  intros outputs s1 Hsub. simpl. apply wlp_argmax. by intros.
Qed.

(** *** Constructors *)

Lemma size_of_2 (r c : nat) : size_of [r; c] = r * c.
Proof. simpl. lia. Qed.

Lemma wp_np_random_random sh s Q :
  (forall a s1, heap s !! nd_base a = None -> nd_offset a = 0 ->
     nd_shape a = sh ->
     heap s1 = <[nd_base a := Buffer (rng s <$> seq 0 (size_of sh))]> (heap s) ->
     rng s1 = (fun i => rng s (size_of sh + i)) -> Q a s1) ->
  wp (np_random_random sh) s Q.
Proof.
  intros HQ. unfold np_random_random.
  destruct (new_array_run sh (rng s <$> seq 0 (size_of sh))
              {| heap := heap s; rng := fun i => rng s (size_of sh + i) |})
    as (a & s1 & Hrun & Hn & Ho & Hsh & Hh & Hr).
  exists a, s1. split; [done|]. by apply HQ.
Qed.

Lemma wp_random_matrix r c s Q :
  (forall m s1, heap s ⊆ heap s1 -> heap s !! nd_base m = None ->
     nd_shape m = [r; c] ->
     contents s1 m (fresh_weight <$> (rng s <$> seq 0 (r * c))) ->
     rng s1 = (fun i => rng s (r * c + i)) -> Q m s1) ->
  wp (random_matrix r c) s Q.
Proof.
  intros HQ. unfold random_matrix.
  apply wp_bind, wp_np_random_random.
  intros a s1 Hn1 Ho1 Hsh1 Hh1 Hr1. rewrite size_of_2 in Hh1, Hr1.
  set (d := rng s <$> seq 0 (r * c)) in *.
  assert (Hd : length d = r * c) by (unfold d; by rewrite length_fmap, length_seq).
  assert (Ha : contents s1 a d).
  { destruct a as [l o sh']; simpl in *; subst o sh'.
    apply contents_whole; [rewrite Hh1; apply lookup_insert_eq|].
    by rewrite size_of_2. }
  apply wp_bind, (wp_map_array _ _ d); [done|].
  intros a2 s2 Hal2. rewrite Hsh1 in Hal2.
  pose proof (allocated_sub _ _ _ _ _ Hal2) as Hsub2.
  assert (Ha2 : contents s2 a2 ((fun x => mul x two) <$> d)).
  { eapply allocated_contents; [done|]. by rewrite length_fmap, size_of_2. }
  destruct Hal2 as (_ & _ & Hsh2 & _ & Hr2).
  apply (wp_map_array _ _ ((fun x => mul x two) <$> d)); [done|].
  intros m s3 Hal3. rewrite Hsh2 in Hal3.
  assert (Hsub : heap s ⊆ heap s3).
  { etrans; [|by eapply allocated_sub]. etrans; [|done].
    rewrite Hh1. by apply insert_subseteq. }
  apply HQ; try done.
  - destruct Hal3 as (Hn3 & _). destruct (heap s !! nd_base m) eqn:E; [|done].
    assert (Hs2 : heap s ⊆ heap s2).
    { etrans; [|done]. rewrite Hh1. by apply insert_subseteq. }
    by rewrite (lookup_weaken _ _ _ _ E Hs2) in Hn3.
  - by destruct Hal3 as (_ & _ & ? & _).
  - replace (fresh_weight <$> d)
      with ((fun x => sub x one) <$> ((fun x => mul x two) <$> d))
      by (by rewrite <- list_fmap_compose).
    eapply allocated_contents; [done|].
    by rewrite !length_fmap, size_of_2.
  - destruct Hal3 as (_ & _ & _ & _ & ->). by rewrite Hr2.
Qed.

Lemma wp_actor_dims sp lo hi n_obs s Q :
  space_ok s sp lo hi -> product (shape sp) = Some n_obs ->
  (forall rg s1, heap s ⊆ heap s1 -> rng s1 = rng s ->
     nd_shape rg = shape sp -> contents s1 rg (zip_with sub hi lo) ->
     Q (n_obs, rg) s1) ->
  wp (actor_dims sp) s Q.
Proof.
  intros [Hls Hhs Hlo Hhi] Hprod HQ. unfold actor_dims.
  apply wp_bind, (wp_lift _ n_obs); [done|].
  apply wp_bind, (wp_np_copy _ hi); [done|]. intros h' s1 Hal1.
  pose proof (allocated_sub _ _ _ _ _ Hal1) as Hsub1.
  assert (Hh' : contents s1 h' hi).
  { eapply allocated_contents; [done|]. by apply contents_length in Hhi. }
  apply wp_bind, (wp_np_copy _ lo); [by eapply contents_weaken|].
  intros l' s2 Hal2.
  pose proof (allocated_sub _ _ _ _ _ Hal2) as Hsub2.
  assert (Hl' : contents s2 l' lo).
  { eapply allocated_contents; [done|]. by apply contents_length in Hlo. }
  destruct Hal1 as (_ & _ & Hsh1 & _ & Hr1).
  destruct Hal2 as (_ & _ & Hsh2 & _ & Hr2).
  apply wp_bind, (wp_zip_array _ _ _ hi lo); try done.
  { congruence. }
  { by eapply contents_weaken. }
  intros rg s3 Hal3. apply wp_ret.
  pose proof (contents_length _ _ _ Hh') as Hlh.
  pose proof (contents_length _ _ _ Hl') as Hll.
  apply HQ.
  - etrans; [done|]. etrans; [done|]. by eapply allocated_sub.
  - destruct Hal3 as (_ & _ & _ & _ & ->). congruence.
  - destruct Hal3 as (_ & _ & -> & _). congruence.
  - eapply allocated_contents; [done|].
    rewrite length_zip_with. rewrite Hsh2 in Hll. rewrite Hsh1 in *.
    rewrite Hhs, Hls in *. lia.
Qed.

Lemma wp_PerceptronActor_init sp act lo hi n_obs s Q :
  space_ok s sp lo hi -> product (shape sp) = Some n_obs ->
  (forall self p s1, heap s ⊆ heap s1 -> heap s !! self = None ->
     perceptron_ok s1 self p lo hi
       (fresh_weight <$> (rng s <$> seq 0 (n act * n_obs))) ->
     p_observation_space p = sp -> p_action_space p = act ->
     Q self s1) ->
  wp (PerceptronActor_init sp act) s Q.
Proof.
  intros Hsp Hprod HQ. unfold PerceptronActor_init.
  apply wp_bind, (wp_actor_dims _ lo hi n_obs); [done..|].
  intros rg s1 Hsub1 Hr1 Hrsh Hrg. simpl.
  apply wp_bind, wp_random_matrix. intros m s2 Hsub2 _ Hmsh Hm Hr2.
  rewrite Hr1 in Hm.
  eexists _, _. split; [reflexivity|].
  set (p := {| p_observation_space := sp; p_action_space := act;
               p_n_obs := n_obs; p_obs_range := rg; p_n_act := n act;
               p_perceptron_matrix := m |}).
  assert (Hn2 : heap s2 !! fresh (dom (heap s2)) = None) by apply fresh_None.
  assert (Hsub3 : heap s2 ⊆ <[fresh (dom (heap s2)) := Perceptron p]> (heap s2))
    by (by apply insert_subseteq).
  apply (HQ _ p); simpl; try done.
  - etrans; [done|]. by etrans.
  - destruct (heap s !! fresh (dom (heap s2))) eqn:E; [|done].
    assert (Hs2 : heap s ⊆ heap s2) by (by etrans).
    by rewrite (lookup_weaken _ _ _ _ E Hs2) in Hn2.
  - split; simpl; try done.
    + apply lookup_insert_eq.
    + eapply space_ok_weaken; [|done]. etrans; [done|]. by etrans.
    + eapply contents_weaken; [|done]. by etrans.
    + by eapply contents_weaken.
Qed.

(** *** [NeuralNetActor.react_to] *)

Lemma Forall2_contents_weaken s s1 (layers : list ndarray) (ws : list (list num)) :
  heap s ⊆ heap s1 -> Forall2 (contents s) layers ws ->
  Forall2 (contents s1) layers ws.
Proof.
  intros Hsub Hall. eapply Forall2_impl; [done|].
  eauto using contents_weaken.
Qed.

Lemma nn_ok_weaken s s1 self p lo hi layers ws :
  heap s ⊆ heap s1 -> nn_ok s self p lo hi layers ws ->
  nn_ok s1 self p lo hi layers ws.
Proof.
  intros Hsub [? ? ? ? ? ? ? ? ?].
  split; eauto using contents_weaken, space_ok_weaken, lookup_weaken,
    Forall2_contents_weaken.
Qed.

Context `{Exp num}.

Lemma allocated_facts s s1 a sh d :
  allocated s s1 a sh d -> length d = size_of sh ->
  heap s ⊆ heap s1 /\ nd_shape a = sh /\ contents s1 a d.
Proof.
  intros Hal Hlen. split; [by eapply allocated_sub|].
  split; [by destruct Hal as (_ & _ & ? & _)|by eapply allocated_contents].
Qed.

Lemma wp_sigmoid_array v d s Q :
  contents s v d ->
  (forall out s1, heap s ⊆ heap s1 -> nd_shape out = nd_shape v ->
     contents s1 out (sigmoid <$> d) -> Q out s1) ->
  wp (sigmoid_array v) s Q.
Proof.
  intros Hv HQ. unfold sigmoid_array.
  pose proof (contents_length _ _ _ Hv) as Hlen.
  apply wp_bind, (wp_map_array _ _ d); [done|].
  intros a1 s1 (Hsub1 & Hsh1 & Hc1)%allocated_facts;
    [|by rewrite length_fmap].
  apply wp_bind, (wp_map_array _ _ (opp <$> d)); [done|].
  intros a2 s2 (Hsub2 & Hsh2 & Hc2)%allocated_facts;
    [|by rewrite !length_fmap, Hsh1].
  apply wp_bind, (wp_map_array _ _ (np_exp <$> (opp <$> d))); [done|].
  intros a3 s3 (Hsub3 & Hsh3 & Hc3)%allocated_facts;
    [|by rewrite !length_fmap, Hsh2, Hsh1].
  apply (wp_map_array _ _ (add one <$> (np_exp <$> (opp <$> d)))); [done|].
  intros a4 s4 (Hsub4 & Hsh4 & Hc4)%allocated_facts;
    [|by rewrite !length_fmap, Hsh3, Hsh2, Hsh1].
  apply HQ.
  - etrans; [done|]. etrans; [done|]. by etrans.
  - congruence.
  - by rewrite <- !list_fmap_compose in Hc4.
Qed.

Lemma wlp_sigmoid_array v s Q :
  (forall out s1, heap s ⊆ heap s1 -> Q out s1) -> wlp (sigmoid_array v) s Q.
Proof.
  intros HQ. unfold sigmoid_array.
  apply wlp_bind, wlp_map_array. intros d1 a1 s1 _ Hs1%allocated_sub.
  apply wlp_bind, wlp_map_array. intros d2 a2 s2 _ Hs2%allocated_sub.
  apply wlp_bind, wlp_map_array. intros d3 a3 s3 _ Hs3%allocated_sub.
  apply wlp_map_array. intros d4 a4 s4 _ Hs4%allocated_sub.
  apply HQ. etrans; [done|]. etrans; [done|]. by etrans.
Qed.

Lemma wp_forward (layers : list ndarray) :
  forall (ws : list (list num)) c cur x s (Q : ndarray -> state -> Prop),
  chained c (nd_shape <$> layers) -> Forall2 (contents s) layers ws ->
  nd_shape cur = [c] -> contents s cur x ->
  (forall out k s1, heap s ⊆ heap s1 -> nd_shape out = [k] ->
     contents s1 out (feed_forward (nd_shape <$> layers) ws x) -> Q out s1) ->
  wp (foldM (fun cur layer => d ← np_dot layer cur; sigmoid_array d)
        cur layers) s Q.
Proof.
  induction layers as [|layer layers IH];
    intros ws c cur x s Q Hch Hws Hsh Hx HQ.
  - apply Forall2_nil_inv_l in Hws as ->. simpl. apply wp_ret.
    by eapply HQ.
  - apply Forall2_cons_inv_l in Hws as (w & ws' & Hw & Hws & ->).
    destruct Hch as (r & Hlsh & Hch). simpl.
    apply wp_bind, wp_bind, (wp_np_dot _ _ r c w x); try done.
    intros d s1 (Hsub1 & Hsh1 & Hd)%allocated_facts;
      [|unfold matvec; by rewrite length_fmap, length_seq, size_of_1].
    apply (wp_sigmoid_array _ (matvec r c w x)); [done|].
    intros out s2 Hsub2 Hsh2 Hout.
    assert (Hsub : heap s ⊆ heap s2) by (by etrans).
    eapply (IH ws' r out); try done.
    + by eapply Forall2_contents_weaken.
    + congruence.
    + intros out' k s3 Hsub3 Hsh3 Hout'. eapply HQ; [by etrans|done|].
      unfold feed_forward. simpl. rewrite Hlsh. done.
Qed.

Lemma wp_nn_outputs self p lo hi layers ws obs o s Q :
  nn_ok s self p lo hi layers ws ->
  contents s obs o -> nd_shape obs = shape (l_observation_space p) ->
  (forall out k s1, heap s ⊆ heap s1 -> nd_shape out = [k] ->
     contents s1 out
       (feed_forward (nd_shape <$> layers) ws (normalized o lo hi)) ->
     Q out s1) ->
  wp (NeuralNetActor_outputs self obs) s Q.
Proof.
  intros [Hself [Hls Hhs Hlo Hhi] Hprod Hact Hrs Hrg Hlist Hch Hws] Ho Hosh HQ.
  unfold NeuralNetActor_outputs.
  apply wp_bind, (wp_load_nn _ p); [done|].
  apply wp_bind, (wp_normalize _ _ _ _ o lo (zip_with sub hi lo)); try done.
  { congruence. }
  { congruence. }
  { rewrite Hosh. symmetry. by apply product_Some. }
  intros v s1 Hsub1 Hfresh Hvsh Hv. fold (normalized o lo hi) in Hv.
  apply wp_bind, (wp_load_list _ layers); [by eapply lookup_weaken|].
  apply (wp_forward layers ws (l_n_obs p) v (normalized o lo hi)); try done.
  { by eapply Forall2_contents_weaken. }
  intros out k s2 Hsub2 Hsh2 Hout.
  eapply HQ; [by etrans|done..].
Qed.

Lemma wp_nn_react_to self p lo hi layers ws obs o s Q :
  nn_ok s self p lo hi layers ws ->
  contents s obs o -> nd_shape obs = shape (l_observation_space p) ->
  (forall i s1, heap s ⊆ heap s1 ->
     network_policy (nd_shape <$> layers) ws (normalized o lo hi) = Some i ->
     Q i s1) ->
  wp (NeuralNetActor_react_to self obs) s Q.
Proof.
  intros Hok Ho Hosh HQ. unfold NeuralNetActor_react_to.
  apply wp_bind, (wp_nn_outputs _ p lo hi layers ws _ o); [done..|].
  intros out k s1 Hsub Hsh Hout.
  eapply wp_argmax; [done..|]. intros i Hi. by apply HQ.
Qed.

Lemma wlp_nn_outputs self obs s :
  wlp (NeuralNetActor_outputs self obs) s (fun _ s1 => heap s ⊆ heap s1).
Proof.
  unfold NeuralNetActor_outputs.
  apply wlp_bind, wlp_load_nn. intros p _.
  apply wlp_bind, wlp_normalize. intros v s1 Hsub1.
  apply wlp_bind, wlp_load_list. intros layers _.
  apply (wlp_foldM _ (fun _ s2 => heap s ⊆ heap s2)); [done|].
  intros layer cur s2 Hsub2.
  apply wlp_bind, wlp_np_dot.
  intros r c dw dv d s3 _ _ _ _ Hs3%allocated_sub.
  apply wlp_sigmoid_array. intros out s4 Hs4.
  etrans; [done|]. by etrans.
Qed.

Lemma wlp_nn_react_to self obs s :
  wlp (NeuralNetActor_react_to self obs) s (fun _ s1 => heap s ⊆ heap s1).
Proof.
  unfold NeuralNetActor_react_to.
  apply wlp_bind. eapply wlp_mono; [apply wlp_nn_outputs|].
  intros outputs s1 Hsub. simpl. apply wlp_argmax. by intros.
Qed.

End Reasoning.

(** ** Comparison of binary64 floats *)

Section Float64.

Local Open Scope Z_scope.

Lemma SFltb_rank (x y : spec_float) :
  x <> S754_nan -> y <> S754_nan ->
  (SFltb x y = true <-> lex_lt (rank x) (rank y)).
Proof.
  intros Hx Hy. unfold SFltb, lex_lt.
  destruct x as [sx|sx| |sx mx ex], y as [sy|sy| |sy my ey]; try done;
    try destruct sx; try destruct sy; simpl;
    try (split; [done|lia]); try (split; [lia|done]).
  - change (Pos.compare_cont Eq mx my) with (Pos.compare mx my).
    destruct (Z.compare_spec ex ey), (Pos.compare_spec mx my); simpl;
      split; try done; lia.
  - change (Pos.compare_cont Eq mx my) with (Pos.compare mx my).
    destruct (Z.compare_spec ex ey), (Pos.compare_spec mx my); simpl;
      split; try done; lia.
Qed.

Lemma lex_lt_irrefl p : ~ lex_lt p p.
Proof. unfold lex_lt. lia. Qed.

Lemma lex_lt_trans p q r : lex_lt p q -> lex_lt q r -> lex_lt p r.
Proof. unfold lex_lt. lia. Qed.

Lemma lex_lt_negtrans p q r : lex_lt p q -> lex_lt p r \/ lex_lt r q.
Proof. unfold lex_lt. lia. Qed.

Lemma not_nan_spec (x : float) : is_nan x = false -> Prim2SF x <> S754_nan.
Proof.
  unfold is_nan. rewrite FloatAxioms.eqb_spec. intros Hx Hn. rewrite Hn in Hx. done.
Qed.

Lemma gtb_float_rank (x y : float) :
  is_nan x = false -> is_nan y = false ->
  (gtb x y = true <-> lex_lt (rank (Prim2SF y)) (rank (Prim2SF x))).
Proof.
  intros Hx Hy. simpl. rewrite FloatAxioms.ltb_spec.
  apply SFltb_rank; by apply not_nan_spec.
Qed.

(** Without NaN, [>] on floats is a strict weak order. *)
Lemma float_ordered_on (v : list float) :
  (forall x, x ∈ v -> is_nan x = false) -> ordered_on v.
Proof.
  intros Hv. split.
  - intros x Hx. destruct (gtb x x) eqn:E; [|done].
    apply gtb_float_rank in E; auto. by apply lex_lt_irrefl in E.
  - intros x y z Hx Hy Hz Hxy Hyz.
    apply gtb_float_rank in Hxy, Hyz; auto.
    apply gtb_float_rank; auto. by eapply lex_lt_trans.
  - intros x y z Hx Hy Hz Hxy.
    apply gtb_float_rank in Hxy; auto.
    destruct (lex_lt_negtrans _ _ (rank (Prim2SF z)) Hxy) as [Hl|Hr].
    + right. apply gtb_float_rank; auto.
    + left. apply gtb_float_rank; auto.
Qed.

End Float64.

(** ** The genome codec *)

Section Codec.
Context {num : Type} `{Num num}.
Implicit Types (s : @state num) (a b : ndarray) (d : list num).

Lemma contents_store s s1 a d l o :
  contents s a d -> heap s1 = <[l := o]> (heap s) -> nd_base a <> l ->
  contents s1 a d.
Proof.
  intros (buf & Hb & ?) Hh Hne. exists buf. split; [|done].
  rewrite Hh. by rewrite lookup_insert_ne.
Qed.

Lemma contents_not_list s a d l xs :
  contents s a d -> heap s !! l = Some (PyList xs) -> nd_base a <> l.
Proof. intros (buf & Hb & _) Hl Heq. rewrite Heq in Hb. congruence. Qed.

Lemma contents_not_perceptron s a d l p :
  contents s a d -> heap s !! l = Some (Perceptron p) -> nd_base a <> l.
Proof. intros (buf & Hb & _) Hl Heq. rewrite Heq in Hb. congruence. Qed.

Lemma contents_not_nn s a d l p :
  contents s a d -> heap s !! l = Some (NeuralNet p) -> nd_base a <> l.
Proof. intros (buf & Hb & _) Hl Heq. rewrite Heq in Hb. congruence. Qed.

Lemma lookup_None_weaken s s1 (l : nat) :
  heap s ⊆ heap s1 -> heap s1 !! l = None -> heap s !! l = None.
Proof.
  intros Hsub Hn. destruct (heap s !! l) eqn:E; [|done].
  by rewrite (lookup_weaken _ _ _ _ E Hsub) in Hn.
Qed.

Lemma wp_list_append l xs x s (Q : unit -> state -> Prop) :
  heap s !! l = Some (PyList xs) ->
  (forall s1, heap s1 = <[l := PyList (xs ++ [x])]> (heap s) ->
     rng s1 = rng s -> Q tt s1) ->
  wp (list_append l x) s Q.
Proof.
  intros Hl HQ. unfold list_append.
  apply wp_bind, (wp_load_list _ xs); [done|].
  eexists tt, _. split; [reflexivity|]. by apply HQ.
Qed.

Lemma wp_store l o s (Q : unit -> state -> Prop) :
  (forall s1, heap s1 = <[l := o]> (heap s) -> rng s1 = rng s -> Q tt s1) ->
  wp (store l o) s Q.
Proof. intros HQ. eexists tt, _. split; [reflexivity|]. by apply HQ. Qed.

Lemma wp_alloc o s (Q : nat -> state -> Prop) :
  (forall l s1, heap s !! l = None -> heap s1 = <[l := o]> (heap s) ->
     rng s1 = rng s -> Q l s1) ->
  wp (alloc o) s Q.
Proof.
  intros HQ. eexists _, _. split; [reflexivity|].
  apply HQ; [apply fresh_None|done..].
Qed.

(** *** The perceptron codec *)

Lemma wp_perceptron_get_genome self p lo hi w s Q :
  perceptron_ok s self p lo hi w ->
  (forall g s1, heap s ⊆ heap s1 -> nd_shape g = [p_n_obs p * p_n_act p] ->
     contents s1 g (encode <$> w) -> Q g s1) ->
  wp (GeneticPerceptronActor_get_genome self) s Q.
Proof.
  intros [Hself _ _ _ _ _ Hms Hw] HQ.
  unfold GeneticPerceptronActor_get_genome.
  pose proof (contents_length _ _ _ Hw) as Hlen.
  rewrite Hms, size_of_2 in Hlen.
  apply wp_bind, (wp_load_perceptron _ p); [done|].
  apply wp_bind, (wp_np_copy _ w); [done|].
  intros c s1 (Hsub1 & Hsh1 & Hc)%allocated_facts;
    [|by rewrite Hms, size_of_2].
  apply wp_bind, wp_np_reshape.
  { rewrite Hsh1, Hms, size_of_1, size_of_2. lia. }
  set (v := {| nd_base := nd_base c; nd_offset := nd_offset c;
               nd_shape := [p_n_obs p * p_n_act p] |}).
  assert (Hv : contents s1 v w).
  { apply contents_reshape; [done|].
    rewrite Hsh1, Hms, size_of_1, size_of_2. lia. }
  apply wp_bind, (wp_map_array _ _ w); [done|].
  intros a1 s2 (Hsub2 & Hsh2 & Ha1)%allocated_facts;
    [|rewrite length_fmap; simpl; lia].
  apply (wp_map_array _ _ ((fun x => add x one) <$> w)); [done|].
  intros g s3 (Hsub3 & Hsh3 & Hg)%allocated_facts;
    [|rewrite !length_fmap, Hsh2; simpl; lia].
  apply HQ.
  - etrans; [done|]. by etrans.
  - by rewrite Hsh3, Hsh2.
  - by rewrite <- list_fmap_compose in Hg.
Qed.

Lemma wp_perceptron_from_genome self p lo hi w genome gd s Q :
  perceptron_ok s self p lo hi w ->
  contents s genome gd ->
  size_of (nd_shape genome) = p_n_act p * p_n_obs p ->
  (forall pa p' s1, heap s ⊆ heap s1 -> heap s !! pa = None ->
     perceptron_ok s1 pa p' lo hi (decode_perceptron <$> gd) ->
     p_observation_space p' = p_observation_space p ->
     p_action_space p' = p_action_space p ->
     p_n_obs p' = p_n_obs p -> p_n_act p' = p_n_act p ->
     Q pa s1) ->
  wp (GeneticPerceptronActor_from_genome self genome) s Q.
Proof.
  intros Hok Hg Hsz HQ. pose proof Hok as [Hself Hsp Hprod Hact _ _ Hms _].
  unfold GeneticPerceptronActor_from_genome.
  pose proof (contents_length _ _ _ Hg) as Hlen.
  apply wp_bind, (wp_load_perceptron _ p); [done|].
  apply wp_bind, (wp_PerceptronActor_init _ _ lo hi (p_n_obs p)); [done..|].
  intros pa p0 s1 Hsub1 Hpa [Hpa1 Hsp1 Hprod1 Hact1 Hrs1 Hrg1 _ _] Hsp0 Hact0.
  assert (Hn0 : p_n_obs p0 = p_n_obs p) by (rewrite Hsp0 in Hprod1; congruence).
  assert (Ha0 : p_n_act p0 = p_n_act p) by congruence.
  apply wp_bind, (wp_np_copy _ gd); [by eapply contents_weaken|].
  intros g s2 (Hsub2 & Hsh2 & Hgc)%allocated_facts; [|done].
  apply wp_bind, (wp_load_perceptron _ p).
  { eapply lookup_weaken; [done|]. etrans; [exact Hsub1|exact Hsub2]. }
  apply wp_bind, wp_np_reshape.
  { rewrite Hsh2, Hms, size_of_2. lia. }
  set (m := {| nd_base := nd_base g; nd_offset := nd_offset g;
               nd_shape := nd_shape (p_perceptron_matrix p) |}).
  assert (Hm : contents s2 m gd).
  { apply contents_reshape; [done|]. rewrite Hsh2, Hms, size_of_2. lia. }
  apply wp_bind, (wp_map_array _ _ gd); [done|].
  intros a1 s3 (Hsub3 & Hsh3 & Ha1)%allocated_facts;
    [|rewrite length_fmap; simpl; rewrite Hms, size_of_2; lia].
  apply wp_bind, (wp_map_array _ _ (mul two <$> gd)); [done|].
  intros wn s4 (Hsub4 & Hsh4 & Hwn)%allocated_facts;
    [|rewrite !length_fmap, Hsh3; simpl; rewrite Hms, size_of_2; lia].
  rewrite <- list_fmap_compose in Hwn.
  assert (Hsub14 : heap s1 ⊆ heap s4).
  { etrans; [done|]. by etrans. }
  apply wp_bind, (wp_load_perceptron _ p0); [by eapply lookup_weaken|].
  apply wp_bind, wp_store. intros s5 Hh5 _. apply wp_ret.
  assert (Hsub5 : heap s ⊆ heap s5).
  { rewrite Hh5. apply insert_subseteq_r; [done|]. by etrans. }
  assert (Hpa4 : heap s4 !! pa = Some (Perceptron p0))
    by (by eapply lookup_weaken).
  apply (HQ pa {| p_observation_space := p_observation_space p0;
                  p_action_space := p_action_space p0;
                  p_n_obs := p_n_obs p0;
                  p_obs_range := p_obs_range p0;
                  p_n_act := p_n_act p0;
                  p_perceptron_matrix := wn |});
    [done|done| |done..].
  split; simpl; try done.
  - rewrite Hh5. apply lookup_insert_eq.
  - rewrite Hsp0. by eapply space_ok_weaken.
  - eapply contents_store; [|done|].
    + by eapply contents_weaken.
    + eapply contents_not_perceptron; [|done]. by eapply contents_weaken.
  - rewrite Hsh4, Hsh3. simpl. by rewrite Hms, Ha0, Hn0.
  - eapply contents_store; [done..|].
    by eapply contents_not_perceptron.
Qed.

(** *** Building the layers of a network *)

Lemma chained_layer_shapes (hidden_layers : list nat) (n_obs n_act : nat) :
  chained n_obs (layer_shapes n_obs hidden_layers n_act).
Proof.
  revert n_obs. induction hidden_layers as [|h hs IH]; intros n_obs.
  - simpl. eauto.
  - exists h. split; [done|]. apply IH.
Qed.

Lemma chained_2d (shapes : list (list nat)) (c : nat) :
  chained c shapes -> Forall (fun sh => exists r c', sh = [r; c']) shapes.
Proof.
  revert c. induction shapes as [|sh shapes IH]; intros c Hc; [done|].
  destruct Hc as (r & -> & Hc). constructor; eauto.
Qed.

Lemma preserved_refl lst s : preserved_except lst s s.
Proof. by intros l o _ ?. Qed.

Lemma preserved_trans lst s s1 s2 :
  preserved_except lst s s1 -> preserved_except lst s1 s2 ->
  preserved_except lst s s2.
Proof. intros H1 H2 l o Hne Hl. eauto. Qed.

Lemma preserved_sub lst s s1 :
  heap s ⊆ heap s1 -> preserved_except lst s s1.
Proof. intros Hsub l o _ Hl. by eapply lookup_weaken. Qed.

Lemma preserved_store lst o s s1 :
  heap s1 = <[lst := o]> (heap s) -> preserved_except lst s s1.
Proof. intros Hh l o' Hne Hl. by rewrite Hh, lookup_insert_ne. Qed.

Lemma preserved_contents lst s s1 a d xs :
  preserved_except lst s s1 -> heap s !! lst = Some (PyList xs) ->
  contents s a d -> contents s1 a d.
Proof.
  intros Hp Hl Hc. pose proof (contents_not_list _ _ _ _ _ Hc Hl) as Hne.
  destruct Hc as (buf & Hb & ?). exists buf. split; [|done]. by apply Hp.
Qed.

Lemma preserved_extends lst s0 s s1 :
  heap s0 ⊆ heap s -> heap s0 !! lst = None -> preserved_except lst s s1 ->
  heap s0 ⊆ heap s1.
Proof.
  intros Hsub Hn Hp. apply map_subseteq_spec. intros l o Hl.
  apply Hp; [|by eapply lookup_weaken]. intros ->. congruence.
Qed.

Lemma fresh_from_draws (P : num -> Prop) (f : nat -> num) (k : nat) :
  (forall i, P (f i)) -> Forall (fresh_from P) (fresh_weight <$> (f <$> seq 0 k)).
Proof.
  intros HP. apply Forall_fmap, Forall_fmap, Forall_forall.
  intros i _. simpl. by exists (f i).
Qed.

Lemma wp_init_layers (P : num -> Prop) (lst : nat) (dims : list (nat * nat)) :
  forall s (layers : list ndarray) (ws : list (list num))
         (Q : unit -> state -> Prop),
  heap s !! lst = Some (PyList layers) ->
  Forall2 (contents s) layers ws ->
  (forall i, P (rng s i)) ->
  Forall (Forall (fresh_from P)) ws ->
  (forall s1 layers1 ws1, preserved_except lst s s1 ->
     heap s1 !! lst = Some (PyList layers1) ->
     Forall2 (contents s1) layers1 ws1 ->
     nd_shape <$> layers1
     = (nd_shape <$> layers) ++ ((fun sz => [sz.2; sz.1]) <$> dims) ->
     Forall (Forall (fresh_from P)) ws1 -> Q tt s1) ->
  wp (foldM (fun (_ : unit) sz =>
               m ← random_matrix sz.2 sz.1; list_append lst m) tt dims) s Q.
Proof.
  induction dims as [|[i o] dims IH]; intros s layers ws Q Hl Hws HP Hfr HQ.
  - simpl. apply wp_ret. eapply HQ; eauto using preserved_refl.
    by rewrite app_nil_r.
  - simpl. apply wp_bind, wp_bind, wp_random_matrix.
    intros m s1 Hsub1 _ Hmsh Hm Hr1.
    apply (wp_list_append _ layers); [by eapply lookup_weaken|].
    intros s2 Hh2 Hr2.
    assert (Hl1 : heap s1 !! lst = Some (PyList layers))
      by (by eapply lookup_weaken).
    assert (Hp2 : preserved_except lst s s2).
    { eapply preserved_trans; [by apply preserved_sub|].
      by eapply preserved_store. }
    eapply (IH s2 (layers ++ [m])
              (ws ++ [fresh_weight <$> (rng s <$> seq 0 (o * i))])).
    + rewrite Hh2. apply lookup_insert_eq.
    + apply Forall2_app.
      * eapply Forall2_impl; [done|]. intros a d Hc.
        by eapply preserved_contents.
      * constructor; [|done].
        eapply preserved_contents; [by eapply preserved_store|done..].
    + intros j. rewrite Hr2, Hr1. apply HP.
    + apply Forall_app. split; [done|]. constructor; [|done].
      by apply fresh_from_draws.
    + intros s3 layers1 ws1 Hp3 Hl3 Hws3 Hsh3 Hfr3.
      eapply HQ; eauto using preserved_trans.
      rewrite Hsh3, fmap_app. simpl. rewrite Hmsh. by rewrite <- app_assoc.
Qed.

Lemma wp_NeuralNetActor_init (P : num -> Prop) sp act hidden_layers lo hi
    n_obs s Q :
  space_ok s sp lo hi -> product (shape sp) = Some n_obs ->
  (forall i, P (rng s i)) ->
  (forall self p layers ws s1, heap s ⊆ heap s1 -> heap s !! self = None ->
     nn_ok s1 self p lo hi layers ws ->
     l_observation_space p = sp -> l_action_space p = act ->
     nd_shape <$> layers = layer_shapes n_obs hidden_layers (n act) ->
     Forall (Forall (fresh_from P)) ws ->
     Q self s1) ->
  wp (NeuralNetActor_init sp act hidden_layers) s Q.
Proof.
  intros Hsp Hprod HP HQ. unfold NeuralNetActor_init.
  apply wp_bind, (wp_actor_dims _ lo hi n_obs); [done..|].
  intros rg s1 Hsub1 Hr1 Hrsh Hrg. simpl.
  apply wp_bind, wp_alloc. intros lst s2 Hlst Hh2 Hr2.
  assert (Hsub2 : heap s1 ⊆ heap s2) by (rewrite Hh2; by apply insert_subseteq).
  apply wp_bind.
  eapply (wp_init_layers P lst _ s2 [] []); try done.
  { rewrite Hh2. apply lookup_insert_eq. }
  { intros i. rewrite Hr2, Hr1. apply HP. }
  intros s3 layers ws Hp3 Hl3 Hws3 Hsh3 Hfr3.
  assert (Hsh : nd_shape <$> layers
                = layer_shapes n_obs hidden_layers (n act)) by exact Hsh3.
  assert (Hsub3 : heap s1 ⊆ heap s3) by (by eapply preserved_extends).
  apply wp_alloc. intros self s4 Hself Hh4 Hr4.
  assert (Hsub4 : heap s3 ⊆ heap s4) by (rewrite Hh4; by apply insert_subseteq).
  assert (Hsub : heap s ⊆ heap s4).
  { etrans; [done|]. by etrans. }
  apply (HQ self {| l_observation_space := sp; l_action_space := act;
                    l_n_obs := n_obs; l_obs_range := rg; l_n_act := n act;
                    l_layers := lst |} layers ws); try done.
  - eapply lookup_None_weaken; [|done]. etrans; [exact Hsub1|exact Hsub3].
  - split; simpl; try done.
    + rewrite Hh4. apply lookup_insert_eq.
    + by eapply space_ok_weaken.
    + eapply contents_weaken; [|done]. etrans; [exact Hsub3|exact Hsub4].
    + by eapply lookup_weaken.
    + rewrite Hsh. apply chained_layer_shapes.
    + eapply Forall2_contents_weaken; [exact Hsub4|done].
Qed.

(** *** The network codec *)

Lemma wp_np_concatenate a b ka kb ea eb s Q :
  nd_shape a = [ka] -> nd_shape b = [kb] ->
  contents s a ea -> contents s b eb ->
  (forall g s1, allocated s s1 g [ka + kb] (ea ++ eb) -> Q g s1) ->
  wp (np_concatenate a b) s Q.
Proof.
  intros Ha Hb Hea Heb HQ. unfold np_concatenate. rewrite Ha, Hb.
  rewrite decide_True by done.
  apply wp_bind, (wp_elements _ ea); [done|].
  apply wp_bind, (wp_elements _ eb); [done|].
  by apply wp_new_array.
Qed.

Lemma wp_concat_layers (layers : list ndarray) :
  forall (ws : list (list num)) genome gd k s (Q : ndarray -> state -> Prop),
  Forall2 (contents s) layers ws ->
  Forall (fun sh => exists r c, sh = [r; c]) (nd_shape <$> layers) ->
  nd_shape genome = [k] -> contents s genome gd ->
  (forall g s1, heap s ⊆ heap s1 ->
     nd_shape g = [k + total_parameters (nd_shape <$> layers)] ->
     contents s1 g (gd ++ concat ws) -> Q g s1) ->
  wp (foldM (fun genome layer =>
               c ← np_copy layer;
               sz ← lift (product (nd_shape layer));
               v ← np_reshape c [sz];
               np_concatenate genome v) genome layers) s Q.
Proof.
  induction layers as [|layer layers IH];
    intros ws genome gd k s Q Hws H2d Hgsh Hg HQ.
  - apply Forall2_nil_inv_l in Hws as ->. simpl. apply wp_ret.
    apply HQ; [done| |by rewrite app_nil_r].
    rewrite Hgsh. unfold total_parameters. simpl. f_equal. lia.
  - apply Forall2_cons_inv_l in Hws as (w & ws' & Hw & Hws & ->).
    rewrite fmap_cons in H2d. apply Forall_cons in H2d as [(r & c & Hsh) H2d].
    pose proof (contents_length _ _ _ Hw) as Hlen.
    rewrite Hsh, size_of_2 in Hlen. simpl.
    apply wp_bind, wp_bind, (wp_np_copy _ w); [done|].
    intros cp s1 (Hsub1 & Hsh1 & Hcp)%allocated_facts;
      [|by rewrite Hsh, size_of_2].
    apply wp_bind, (wp_lift _ (r * c)); [by rewrite Hsh, product_pair|].
    apply wp_bind, wp_np_reshape.
    { by rewrite Hsh1, Hsh, size_of_1, size_of_2. }
    set (v := {| nd_base := nd_base cp; nd_offset := nd_offset cp;
                 nd_shape := [r * c] |}).
    assert (Hv : contents s1 v w).
    { apply contents_reshape; [done|].
      by rewrite Hsh1, Hsh, size_of_1, size_of_2. }
    apply (wp_np_concatenate _ _ k (r * c) gd w); try done.
    { by eapply contents_weaken. }
    intros g s2 (Hsub2 & Hsh2 & Hgc)%allocated_facts.
    2:{ rewrite length_app, size_of_1, Hlen.
        apply contents_length in Hg. rewrite Hgsh, size_of_1 in Hg. lia. }
    assert (Hsub : heap s ⊆ heap s2) by (etrans; [exact Hsub1|exact Hsub2]).
    eapply (IH ws' g (gd ++ w) (k + r * c) s2); try done.
    + eapply Forall2_contents_weaken; [exact Hsub|done].
    + intros g' s3 Hsub3 Hsh3 Hg'. apply HQ.
      * etrans; [exact Hsub|exact Hsub3].
      * rewrite Hsh3. unfold total_parameters. rewrite !fmap_cons.
        change (sum_list (?x :: ?l)) with (x + sum_list l).
        rewrite Hsh, size_of_2. f_equal. lia.
      * simpl. by rewrite app_assoc.
Qed.

Lemma wp_nn_get_genome self p lo hi layers ws s Q :
  nn_ok s self p lo hi layers ws ->
  (forall g s1, heap s ⊆ heap s1 ->
     nd_shape g = [total_parameters (nd_shape <$> layers)] ->
     contents s1 g (encode <$> concat ws) -> Q g s1) ->
  wp (GeneticNNActor_get_genome self) s Q.
Proof.
  intros [Hself _ _ _ _ _ Hlist Hch Hws] HQ.
  unfold GeneticNNActor_get_genome.
  apply wp_bind, (wp_load_nn _ p); [done|].
  apply wp_bind, wp_new_array.
  intros g0 s1 (Hsub1 & Hsh1 & Hg0)%allocated_facts; [|done].
  apply wp_bind, (wp_load_list _ layers); [by eapply lookup_weaken|].
  apply wp_bind, (wp_concat_layers layers ws g0 [] 0); try done.
  { by eapply Forall2_contents_weaken. }
  { by eapply chained_2d. }
  intros g1 s2 Hsub2 Hsh2 Hg1. simpl in Hsh2, Hg1.
  pose proof (contents_length _ _ _ Hg1) as Hlen.
  apply wp_bind, (wp_map_array _ _ (concat ws)); [done|].
  intros a1 s3 (Hsub3 & Hsh3 & Ha1)%allocated_facts;
    [|by rewrite length_fmap].
  apply (wp_map_array _ _ ((fun x => add x one) <$> concat ws)); [done|].
  intros g s4 (Hsub4 & Hsh4 & Hg)%allocated_facts;
    [|by rewrite !length_fmap, Hsh3].
  apply HQ.
  - etrans; [exact Hsub1|]. etrans; [exact Hsub2|].
    etrans; [exact Hsub3|exact Hsub4].
  - by rewrite Hsh4, Hsh3, Hsh2.
  - by rewrite <- list_fmap_compose in Hg.
Qed.

Lemma contents_slice s a d k start len :
  contents s a d -> nd_shape a = [k] -> start + len <= k ->
  contents s {| nd_base := nd_base a; nd_offset := nd_offset a + start;
                nd_shape := [len] |} (take len (drop start d)).
Proof.
  intros (buf & Hb & Hle & ->) Hsh Hlen. rewrite Hsh, size_of_1 in *.
  exists buf. cbn [nd_base nd_offset nd_shape]. rewrite size_of_1.
  split; [done|]. split; [lia|].
  apply list_eq. intros i.
  rewrite !lookup_take, !lookup_drop, lookup_take, lookup_drop.
  repeat case_decide; try done; try lia. f_equal. lia.
Qed.

Lemma wp_np_slice a k start len s (Q : ndarray -> state -> Prop) :
  nd_shape a = [k] -> start + len <= k ->
  Q {| nd_base := nd_base a; nd_offset := nd_offset a + start;
       nd_shape := [len] |} s ->
  wp (np_slice a start (start + len)) s Q.
Proof.
  intros Hsh Hle HQ. unfold np_slice. rewrite Hsh. apply wp_ret.
  rewrite !Nat.min_l by lia. simpl.
  replace (start * 1) with start by lia.
  replace (start + len - start) with len by lia. done.
Qed.

Lemma wp_decode_layers genome gd total nna pn lst (layers : list ndarray) :
  forall start (done_layers : list ndarray) (done_ws : list (list num)) s
         (Q : nat -> state -> Prop),
  nd_shape genome = [total] -> contents s genome gd ->
  heap s !! nna = Some (NeuralNet pn) -> l_layers pn = lst ->
  heap s !! lst = Some (PyList done_layers) ->
  Forall2 (contents s) done_layers done_ws ->
  Forall (fun sh => exists r c, sh = [r; c]) (nd_shape <$> layers) ->
  start + total_parameters (nd_shape <$> layers) <= total ->
  (forall s1 new_layers, preserved_except lst s s1 ->
     heap s1 !! lst = Some (PyList (done_layers ++ new_layers)) ->
     Forall2 (contents s1) (done_layers ++ new_layers)
       (done_ws ++ split_sizes (size_of <$> (nd_shape <$> layers))
                     (drop start gd)) ->
     nd_shape <$> new_layers = nd_shape <$> layers ->
     Q (start + total_parameters (nd_shape <$> layers)) s1) ->
  wp (foldM (fun start layer =>
               layer_size ← lift (product (nd_shape layer));
               sl ← np_slice genome start (start + layer_size);
               c ← np_copy sl;
               new_layer ← np_reshape c (nd_shape layer);
               b ← load_nn nna;
               list_append (l_layers b) new_layer;;
               mret (start + layer_size)) start layers) s Q.
Proof.
  induction layers as [|layer layers IH];
    intros start done_layers done_ws s Q Hgsh Hg Hnna Hpn Hlst Hdone H2d Hle HQ.
  - simpl. apply wp_ret.
    replace (start + total_parameters (nd_shape <$> [])) with start in HQ
      by (unfold total_parameters; simpl; lia).
    apply (HQ s []); [apply preserved_refl|by rewrite app_nil_r| |done].
    simpl. by rewrite !app_nil_r.
  - rewrite fmap_cons in H2d. apply Forall_cons in H2d as [(r & c & Hsh) H2d].
    assert (Htot : total_parameters (nd_shape <$> layer :: layers)
                   = r * c + total_parameters (nd_shape <$> layers)).
    { unfold total_parameters. rewrite !fmap_cons.
      change (sum_list (?x :: ?l)) with (x + sum_list l).
      by rewrite Hsh, size_of_2. }
    rewrite Htot in Hle. simpl.
    apply wp_bind, wp_bind, (wp_lift _ (r * c));
      [by rewrite Hsh, product_pair|].
    apply wp_bind, (wp_np_slice _ total); [done|lia|].
    set (sl := {| nd_base := nd_base genome;
                  nd_offset := nd_offset genome + start;
                  nd_shape := [r * c] |}).
    assert (Hsl : contents s sl (take (r * c) (drop start gd))).
    { eapply contents_slice; [done..|lia]. }
    pose proof (contents_length _ _ _ Hsl) as Hlen. simpl in Hlen.
    apply wp_bind, (wp_np_copy _ (take (r * c) (drop start gd))); [done|].
    intros cp s1 (Hsub1 & Hsh1 & Hcp)%allocated_facts; [|done].
    simpl in Hsh1.
    apply wp_bind, wp_np_reshape.
    { by rewrite Hsh1, Hsh, size_of_1, size_of_2. }
    set (nl := {| nd_base := nd_base cp; nd_offset := nd_offset cp;
                  nd_shape := nd_shape layer |}).
    assert (Hnl : contents s1 nl (take (r * c) (drop start gd))).
    { apply contents_reshape; [done|].
      by rewrite Hsh1, Hsh, size_of_1, size_of_2. }
    apply wp_bind, (wp_load_nn _ pn); [by eapply lookup_weaken|].
    rewrite Hpn.
    assert (Hlst1 : heap s1 !! lst = Some (PyList done_layers))
      by (by eapply lookup_weaken).
    apply wp_bind, (wp_list_append _ done_layers); [done|].
    intros s2 Hh2 _. apply wp_ret.
    assert (Hp2 : preserved_except lst s s2).
    { eapply preserved_trans; [by apply preserved_sub|].
      by eapply preserved_store. }
    assert (Hne : nna <> lst) by (intros ->; congruence).
    eapply (IH (start + r * c) (done_layers ++ [nl])
               (done_ws ++ [take (r * c) (drop start gd)]) s2); try done.
    + by eapply preserved_contents.
    + by apply Hp2.
    + rewrite Hh2. apply lookup_insert_eq.
    + apply Forall2_app.
      * eapply Forall2_impl; [done|]. intros a d Hc.
        by eapply preserved_contents.
      * constructor; [|done].
        eapply preserved_contents; [by eapply preserved_store|done..].
    + lia.
    + intros s3 new_layers Hp3 Hl3 Hws3 Hsh3.
      rewrite <- Nat.add_assoc, <- Htot.
      apply (HQ s3 (nl :: new_layers)).
      * by eapply preserved_trans.
      * by rewrite <- app_assoc in Hl3.
      * rewrite <- !app_assoc in Hws3. simpl in Hws3.
        rewrite !fmap_cons, Hsh, size_of_2. simpl.
        by rewrite drop_drop.
      * by rewrite !fmap_cons, Hsh3.
Qed.

(** [GeneticNNActor.from_genome] on a one-dimensional genome with at least
    as many elements as the template has parameters. *)
Lemma wp_nn_from_genome_prefix self p lo hi layers ws genome gd k s Q :
  nn_ok s self p lo hi layers ws ->
  contents s genome gd ->
  nd_shape genome = [k] ->
  total_parameters (nd_shape <$> layers) <= k ->
  (forall nna p' layers' s1, heap s ⊆ heap s1 -> heap s !! nna = None ->
     nn_ok s1 nna p' lo hi layers'
       (split_sizes (size_of <$> (nd_shape <$> layers))
          (decode_network <$> gd)) ->
     nd_shape <$> layers' = nd_shape <$> layers ->
     l_observation_space p' = l_observation_space p ->
     l_action_space p' = l_action_space p ->
     Q nna s1) ->
  wp (GeneticNNActor_from_genome self genome) s Q.
Proof.
  intros Hok Hg Hgsh Hk HQ.
  pose proof Hok as [Hself Hsp Hprod Hact _ _ Hlist Hch _].
  unfold GeneticNNActor_from_genome.
  pose proof (contents_length _ _ _ Hg) as Hlen.
  apply wp_bind, (wp_np_copy _ gd); [done|].
  intros g1 s1 (Hsub1 & Hsh1 & Hg1)%allocated_facts; [|done].
  apply wp_bind, (wp_map_array _ _ gd); [done|].
  intros g2 s2 (Hsub2 & Hsh2 & Hg2)%allocated_facts;
    [|by rewrite length_fmap, Hsh1].
  apply wp_bind, (wp_map_array _ _ ((fun x => mul x two) <$> gd)); [done|].
  intros g3 s3 (Hsub3 & Hsh3 & Hg3)%allocated_facts;
    [|by rewrite !length_fmap, Hsh2, Hsh1].
  rewrite <- list_fmap_compose in Hg3.
  change ((fun x => sub x one) ∘ (fun x => mul x two)) with decode_network in Hg3.
  rewrite Hsh2, Hsh1, Hgsh in Hsh3.
  assert (Hsub03 : heap s ⊆ heap s3).
  { etrans; [exact Hsub1|]. etrans; [exact Hsub2|exact Hsub3]. }
  apply wp_bind, (wp_load_nn _ p); [by eapply lookup_weaken|].
  apply wp_bind,
    (wp_NeuralNetActor_init (fun _ => True) _ _ [] lo hi (l_n_obs p));
    [by eapply space_ok_weaken|done|done|].
  intros nna p0 layers0 ws0 s4 Hsub4 Hnna3
    [Hnna4 _ Hprod0 Hact0 Hrs0 Hrg0 _ _ _] Hsp0 Hac0 _ _.
  assert (Hn0 : l_n_obs p0 = l_n_obs p) by (rewrite Hsp0 in Hprod0; congruence).
  apply wp_bind, wp_alloc. intros fl s5 Hfl4 Hh5 _.
  assert (Hsub5 : heap s4 ⊆ heap s5) by (rewrite Hh5; by apply insert_subseteq).
  assert (Hnna5 : heap s5 !! nna = Some (NeuralNet p0))
    by (by eapply lookup_weaken).
  apply wp_bind, (wp_load_nn _ p0); [done|].
  apply wp_bind, wp_store. intros s6 Hh6 _.
  set (p1 := {| l_observation_space := l_observation_space p0;
                l_action_space := l_action_space p0;
                l_n_obs := l_n_obs p0;
                l_obs_range := l_obs_range p0;
                l_n_act := l_n_act p0;
                l_layers := fl |}) in *.
  assert (Hnna0 : heap s !! nna = None) by (by eapply lookup_None_weaken).
  assert (Hsub05 : heap s ⊆ heap s5).
  { etrans; [exact Hsub03|]. etrans; [exact Hsub4|exact Hsub5]. }
  assert (Hsub06 : heap s ⊆ heap s6).
  { rewrite Hh6. by apply insert_subseteq_r. }
  assert (Hfl0 : heap s !! fl = None).
  { eapply lookup_None_weaken; [|done]. etrans; [exact Hsub03|exact Hsub4]. }
  assert (Hne : fl <> nna) by (intros ->; congruence).
  assert (Hfl6 : heap s6 !! fl = Some (PyList [])).
  { rewrite Hh6, lookup_insert_ne by done. rewrite Hh5. apply lookup_insert_eq. }
  assert (Hnna6 : heap s6 !! nna = Some (NeuralNet p1)).
  { rewrite Hh6. apply lookup_insert_eq. }
  assert (Hg6 : contents s6 g3 (decode_network <$> gd)).
  { eapply contents_store; [|done|].
    - eapply contents_weaken; [|done]. etrans; [exact Hsub4|exact Hsub5].
    - intros Heq. destruct Hg3 as (buf & Hb & _). rewrite Heq in Hb. congruence. }
  assert (Hrg6 : contents s6 (l_obs_range p0) (zip_with sub hi lo)).
  { eapply contents_store; [|done|].
    - eapply contents_weaken; [exact Hsub5|done].
    - eapply contents_not_nn; [|exact Hnna5].
      eapply contents_weaken; [exact Hsub5|done]. }
  apply wp_bind, (wp_load_nn _ p);
    [eapply lookup_weaken; [done|exact Hsub06]|].
  apply wp_bind, (wp_load_list _ layers);
    [eapply lookup_weaken; [done|exact Hsub06]|].
  apply wp_bind.
  eapply (wp_decode_layers g3 (decode_network <$> gd) k nna p1 fl layers
            0 [] [] s6); try done.
  { by eapply chained_2d. }
  intros s7 layers' Hp7 Hl7 Hws7 Hsh7. simpl in Hl7, Hws7.
  rewrite drop_0 in Hws7. apply wp_ret.
  assert (Hsub07 : heap s ⊆ heap s7) by (by eapply preserved_extends).
  apply (HQ nna p1 layers'); try done.
  split; simpl; try done.
  - by apply Hp7.
  - rewrite Hsp0. by eapply space_ok_weaken.
  - by eapply preserved_contents.
  - rewrite Hsh7, Hn0. done.
Qed.

Lemma wp_nn_from_genome self p lo hi layers ws genome gd s Q :
  nn_ok s self p lo hi layers ws ->
  contents s genome gd ->
  nd_shape genome = [total_parameters (nd_shape <$> layers)] ->
  (forall nna p' layers' s1, heap s ⊆ heap s1 -> heap s !! nna = None ->
     nn_ok s1 nna p' lo hi layers'
       (split_sizes (size_of <$> (nd_shape <$> layers))
          (decode_network <$> gd)) ->
     nd_shape <$> layers' = nd_shape <$> layers ->
     l_observation_space p' = l_observation_space p ->
     l_action_space p' = l_action_space p ->
     Q nna s1) ->
  wp (GeneticNNActor_from_genome self genome) s Q.
Proof.
  intros Hok Hg Hgsh HQ.
  by eapply (wp_nn_from_genome_prefix _ p lo hi layers ws _ gd).
Qed.

End Codec.

(** ** Rounded real arithmetic *)

Section Rounding.

Local Open Scope R_scope.

(** Exact arithmetic is one such operator. *)
Lemma rounding_id : rounding id.
Proof.
  split; unfold id; [done|done|].
  intros x _. rewrite Rminus_diag, Rabs_R0. unfold unit_roundoff. lra.
Qed.

Lemma Rabs_le_between (x b : R) : Rabs x <= b -> - b <= x <= b.
Proof. unfold Rabs. destruct (Rcase_abs x); lra. Qed.

Section WithRounding.
Variable rnd : R -> R.
Hypothesis Hrnd : rounding rnd.

Lemma rnd_between (x : R) (a b : Z) :
  (-2 <= a <= 2)%Z -> (-2 <= b <= 2)%Z ->
  IZR a <= x <= IZR b -> IZR a <= rnd x <= IZR b.
Proof.
  intros Ha Hb [Hl Hu]. split.
  - rewrite <- (rnd_exact rnd Hrnd a Ha). by apply (rnd_mono rnd Hrnd).
  - rewrite <- (rnd_exact rnd Hrnd b Hb). by apply (rnd_mono rnd Hrnd).
Qed.

Lemma rnd_close (x : R) :
  -8 <= x <= 8 ->
  - (4 * unit_roundoff) <= rnd x - x <= 4 * unit_roundoff.
Proof.
  intros Hx. by apply Rabs_le_between, (rnd_error rnd Hrnd).
Qed.

(** The scalar operations of the codec in this arithmetic. *)
Lemma encode_rounded (w : R) :
  @encode R (rounded rnd) w = rnd (rnd (w + 1) / 2).
Proof. done. Qed.

Lemma decode_perceptron_rounded (g : R) :
  @decode_perceptron R (rounded rnd) g = rnd (rnd (2 * g) - 1).
Proof. done. Qed.

Lemma decode_network_rounded (g : R) :
  @decode_network R (rounded rnd) g = rnd (rnd (g * 2) - 1).
Proof. done. Qed.

Lemma fresh_weight_rounded (r : R) :
  @fresh_weight R (rounded rnd) r = rnd (rnd (r * 2) - 1).
Proof. done. Qed.

(** A weight in [-1, 1] is encoded in [0, 1]. *)
Lemma encode_range (w : R) :
  -1 <= w <= 1 -> 0 <= @encode R (rounded rnd) w <= 1.
Proof.
  intros Hw. rewrite encode_rounded.
  assert (Ha : 0 <= rnd (w + 1) <= 2).
  { apply (rnd_between _ 0 2); [lia..|lra]. }
  apply (rnd_between _ 0 1); [lia..|lra].
Qed.

(** A draw in [0, 1] gives a fresh weight in [-1, 1]. *)
Lemma fresh_weight_range (r : R) :
  0 <= r <= 1 -> -1 <= @fresh_weight R (rounded rnd) r <= 1.
Proof.
  intros Hr. rewrite fresh_weight_rounded.
  assert (Ha : 0 <= rnd (r * 2) <= 2).
  { apply (rnd_between _ 0 2); [lia..|lra]. }
  apply (rnd_between _ (-1) 1); [lia..|lra].
Qed.

(** Decoding the encoding of a weight in [-1, 1] gives it back up to
    twenty unit roundoffs, well within [1e-9]. *)
Lemma decode_encode_close (w : R) :
  -1 <= w <= 1 ->
  Rabs (rnd (rnd (2 * @encode R (rounded rnd) w) - 1) - w) <= / 1000000000.
Proof.
  intros Hw. rewrite encode_rounded.
  set (a := rnd (w + 1)). set (g := rnd (a / 2)).
  set (b := rnd (2 * g)). set (c := rnd (b - 1)).
  assert (Hu : unit_roundoff = / 9007199254740992) by done.
  pose proof (rnd_close (w + 1) ltac:(lra)) as Ha. fold a in Ha.
  pose proof (rnd_close (a / 2) ltac:(lra)) as Hg. fold g in Hg.
  pose proof (rnd_close (2 * g) ltac:(lra)) as Hb. fold b in Hb.
  pose proof (rnd_close (b - 1) ltac:(lra)) as Hc. fold c in Hc.
  apply Rabs_le. lra.
Qed.

Lemma decode_perceptron_encode (w : R) :
  -1 <= w <= 1 ->
  Rabs (@decode_perceptron R (rounded rnd) (@encode R (rounded rnd) w) - w)
  <= / 1000000000.
Proof. intros Hw. rewrite decode_perceptron_rounded. by apply decode_encode_close. Qed.

Lemma decode_network_encode (w : R) :
  -1 <= w <= 1 ->
  Rabs (@decode_network R (rounded rnd) (@encode R (rounded rnd) w) - w)
  <= / 1000000000.
Proof.
  intros Hw. rewrite decode_network_rounded, Rmult_comm.
  by apply decode_encode_close.
Qed.

End WithRounding.
End Rounding.

(** ** Further lemmas on the scan, the codec and the two policies *)

Lemma argmax_Some {num : Type} `{Num num} (outputs : ndarray) (i : nat)
    (s s1 : @state num) :
  argmax outputs s = Some (i, s1) ->
  s1 = s /\ exists xs, contents s outputs xs /\ argmax_scan xs = Some i.
Proof.
  unfold argmax. destruct (nd_shape outputs) as [|k [|]]; try done.
  intros (xs & s' & [Hxs ->]%elements_Some & [Hi ->]%lift_Some)%bind_Some.
  eauto.
Qed.

Lemma normalized_length {num : Type} `{Num num} (o lo hi : list num) (k : nat) :
  length o = k -> length lo = k -> length hi = k ->
  length (normalized o lo hi) = k.
Proof. intros. unfold normalized. rewrite !length_zip_with. lia. Qed.

Lemma total_parameters_chained (shapes : list (list nat)) (c : nat) :
  chained c shapes ->
  total_parameters shapes = sum_list (matrix_parameters <$> shapes).
Proof.
  revert c. induction shapes as [|sh shapes IH]; intros c Hc; [done|].
  destruct Hc as (r & -> & Hc). unfold total_parameters in *.
  rewrite !fmap_cons. change (sum_list (?x :: ?l)) with (x + sum_list l).
  rewrite size_of_2, (IH r Hc). done.
Qed.

Lemma fresh_weights_in_range (rnd : R -> R) (w : list R) :
  rounding rnd ->
  Forall (@fresh_from R (rounded rnd) (in_range 0 1)) w ->
  Forall (in_range (-1) 1) w.
Proof.
  intros Hrnd Hw. eapply Forall_impl; [done|].
  intros x (r & Hr & ->). by apply fresh_weight_range.
Qed.

(** The scan only looks at comparisons: a map that preserves [>] does
    not change its result. *)
Lemma argmax_step_fmap {num : Type} `{Num num} (f : num -> num)
    (v : list num) (i : option nat) (j : nat) (x : num) :
  (forall x y, gtb (f x) (f y) = gtb x y) ->
  argmax_step (f <$> v) i (j, f x) = argmax_step v i (j, x).
Proof.
  intros Hf. unfold argmax_step. destruct i as [i|]; [|done]. simpl.
  rewrite list_lookup_fmap. destruct (v !! i) as [xi|]; [|done]. simpl.
  by rewrite Hf.
Qed.

Lemma argmax_fold_fmap {num : Type} `{Num num} (f : num -> num)
    (v : list num) :
  (forall x y, gtb (f x) (f y) = gtb x y) ->
  forall (l : list num) (k : nat -> nat) (acc : option nat),
    fold_left (argmax_step (f <$> v)) (imap (fun n x => (k n, f x)) l) acc
    = fold_left (argmax_step v) (imap (fun n x => (k n, x)) l) acc.
Proof.
  intros Hf l. induction l as [|x l IH]; intros k acc; [done|]. simpl.
  rewrite argmax_step_fmap by done. apply (IH (k ∘ S)).
Qed.

Lemma argmax_scan_fmap {num : Type} `{Num num} (f : num -> num)
    (v : list num) :
  (forall x y, gtb (f x) (f y) = gtb x y) ->
  argmax_scan (f <$> v) = argmax_scan v.
Proof.
  intros Hf. unfold argmax_scan. rewrite imap_fmap.
  exact (argmax_fold_fmap f v Hf v (fun n => n) (Some 0)).
Qed.

(** In exact real arithmetic the sigmoid is strictly increasing. *)
Lemma sigmoid_increasing (x y : R) :
  (x < y)%R ->
  (@sigmoid R (rounded id) (rounded_exp id) x
   < @sigmoid R (rounded id) (rounded_exp id) y)%R.
Proof.
  intros Hxy. unfold sigmoid, rounded_exp, np_exp, id. simpl.
  assert (Hexp : (Rtrigo_def.exp (- y) < Rtrigo_def.exp (- x))%R)
    by (apply exp_increasing; lra).
  pose proof (exp_pos (- x)) as Hx. pose proof (exp_pos (- y)) as Hy.
  unfold Rdiv. rewrite !Rmult_1_l.
  apply Rinv_lt_contravar; [|lra].
  apply Rmult_lt_0_compat; lra.
Qed.

Lemma sigmoid_preserves_gtb (x y : R) :
  Rgtb (@sigmoid R (rounded id) (rounded_exp id) x)
       (@sigmoid R (rounded id) (rounded_exp id) y)
  = Rgtb x y.
Proof.
  unfold Rgtb.
  destruct (Rlt_dec y x) as [Hlt|Hge].
  - destruct (Rlt_dec _ _) as [|Hn]; [done|].
    exfalso. by apply Hn, sigmoid_increasing.
  - destruct (Rlt_dec _ _) as [Hlt|]; [|done]. exfalso.
    destruct (Rtotal_order x y) as [Hxy|[->|Hxy]].
    + apply sigmoid_increasing in Hxy. lra.
    + lra.
    + done.
Qed.

(** The policies of a perceptron and of a single-layer network that hold
    the same matrix. *)
Lemma single_layer_policies (num : Type) (N : Num num) (E : Exp num)
    (s : @state num) (perceptron network : nat) (p : PerceptronActor)
    (q : NeuralNetActor) (W : ndarray) (w lo hi o : list num)
    (obs : ndarray) :
  perceptron_ok s perceptron p lo hi w ->
  nn_ok s network q lo hi [W] [w] ->
  nd_shape W = nd_shape (p_perceptron_matrix p) ->
  l_observation_space q = p_observation_space p ->
  contents s obs o -> nd_shape obs = shape (p_observation_space p) ->
  exists i j t t',
    NeuralNetActor_react_to network obs s = Some (i, t) /\
    argmax_scan (sigmoid <$> matvec (p_n_act p) (p_n_obs p) w
                               (normalized o lo hi)) = Some i /\
    PerceptronActor_react_to perceptron obs s = Some (j, t') /\
    argmax_scan (matvec (p_n_act p) (p_n_obs p) w (normalized o lo hi))
    = Some j.
Proof.
  intros Hp Hq HW Hsp Ho Hosh.
  destruct (wp_nn_react_to network q lo hi [W] [w] obs o s
              (fun i _ => network_policy (nd_shape <$> [W]) [w]
                            (normalized o lo hi) = Some i))
    as (i & t & Hrun1 & Hi); [done|done|congruence|by intros|].
  destruct (wp_perceptron_react_to perceptron p lo hi w obs o s
              (fun j _ => perceptron_policy (p_n_act p) (p_n_obs p) w
                            (normalized o lo hi) = Some j))
    as (j & t' & Hrun2 & Hj); [done..|by intros|].
  destruct Hp as [_ _ _ _ _ _ Hms _].
  unfold network_policy, feed_forward in Hi. simpl in Hi.
  rewrite HW, Hms in Hi.
  exists i, j, t, t'. repeat (split; [done|]). done.
Qed.

(** In exact real arithmetic the sigmoid never changes the argmax. *)
Lemma argmax_sigmoid_exact (v : list R) :
  @argmax_scan R (rounded id)
    (@sigmoid R (rounded id) (rounded_exp id) <$> v)
  = @argmax_scan R (rounded id) v.
Proof. apply argmax_scan_fmap. apply sigmoid_preserves_gtb. Qed.

(** ** The concrete states *)

Lemma demo_space_ok : space_ok demo_state demo_space [0; 0]%float [2; 4]%float.
Proof.
  split; [done|done| |]; eexists; (split; [reflexivity|]);
    (split; [simpl; lia|reflexivity]).
Qed.

Lemma demo_perceptron_ok :
  perceptron_ok demo_state 5 demo_perceptron [0; 0]%float [2; 4]%float
    [0.5; -0.5; 0.25; 0.75; -1; 1]%float.
Proof.
  split; try done; try apply demo_space_ok;
    eexists; (split; [reflexivity|]); (split; [simpl; lia|reflexivity]).
Qed.

Lemma demo_observation : contents demo_state (vec 2 2) [1; 2]%float.
Proof. eexists. split; [reflexivity|]. split; [simpl; lia|reflexivity]. Qed.

Lemma wide_space_ok :
  space_ok wide_state wide_space [0; 0; 0; 0; 0]%float [1; 1; 1; 1; 1]%float.
Proof.
  split; [done|done| |]; eexists; (split; [reflexivity|]);
    (split; [simpl; lia|reflexivity]).
Qed.

Lemma genome_perceptron_ok :
  perceptron_ok genome_state 5 demo_perceptron [0; 0]%float [2; 4]%float
    [0.5; -0.5; 0.25; 0.75; -1; 1]%float.
Proof.
  eapply perceptron_ok_weaken; [|apply demo_perceptron_ok].
  by apply insert_subseteq.
Qed.

Lemma real_space_ok : space_ok real_state demo_space [0; 0]%R [2; 4]%R.
Proof.
  split; [done|done| |]; eexists; (split; [reflexivity|]);
    (split; [simpl; lia|reflexivity]).
Qed.

Lemma real_perceptron_ok :
  @perceptron_ok R (rounded id) real_actor_state 5 demo_perceptron
    [0; 0]%R [2; 4]%R [/ 2; - / 2; / 4; 3 / 4; -1; 1]%R.
Proof.
  split; try done.
  - split; [done|done| |]; eexists; (split; [reflexivity|]);
      (split; [simpl; lia|reflexivity]).
  - eexists. split; [reflexivity|]. split; [simpl; lia|reflexivity].
  - eexists. split; [reflexivity|]. split; [simpl; lia|reflexivity].
Qed.

Lemma real_pair_sub : heap real_actor_state ⊆ heap real_pair_state.
Proof.
  etrans; [|by apply insert_subseteq].
  by apply insert_subseteq.
Qed.

Lemma real_pair_perceptron_ok :
  @perceptron_ok R (rounded id) real_pair_state 5 demo_perceptron
    [0; 0]%R [2; 4]%R [/ 2; - / 2; / 4; 3 / 4; -1; 1]%R.
Proof.
  eapply perceptron_ok_weaken; [apply real_pair_sub|].
  apply real_perceptron_ok.
Qed.

Lemma real_pair_network_ok :
  @nn_ok R (rounded id) real_pair_state 7 demo_network [0; 0]%R [2; 4]%R
    [mat 4 3 2] [[/ 2; - / 2; / 4; 3 / 4; -1; 1]%R].
Proof.
  destruct real_pair_perceptron_ok as [_ Hsp _ _ _ Hrg _ Hw].
  split; try done.
  - simpl. eauto.
  - by constructor.
Qed.

Lemma real_pair_observation : contents real_pair_state (vec 2 2) [1; 2]%R.
Proof. eexists. split; [reflexivity|]. split; [simpl; lia|reflexivity]. Qed.

Lemma demo_outputs :
  @argmax_scan R (rounded id)
    (@matvec R (rounded id) 3 2 [/ 2; - / 2; / 4; 3 / 4; -1; 1]%R
       (@normalized R (rounded id) [1; 2]%R [0; 0]%R [2; 4]%R))
  = Some 1.
Proof.
  unfold argmax_scan, argmax_step, matvec, row, dot_row, normalized. simpl.
  unfold Rgtb, id.
  repeat (destruct (Rlt_dec _ _); simpl; try lra). done.
Qed.

(** * Properties of the specification *)

#[local] Set Warnings "-inexact-float".

Section RealClaims.

Local Open Scope R_scope.

Context (rnd : R -> R) (Hrnd : rounding rnd).

Let arith : Num R := rounded rnd.
#[local] Existing Instance arith.

(** C1. For a freshly constructed perceptron or network actor [A] (the
    generator's draws lying in [0, 1]), [A.from_genome(A.get_genome())]
    returns an actor whose weight matrices have the shapes of [A]'s and
    agree with them elementwise within [1e-9]. *)
Theorem genome_round_trip (s : @state R) (sp : Box) (act : Discrete)
    (lo hi : list R) (n_obs : nat) :
  space_ok s sp lo hi -> product (shape sp) = Some n_obs ->
  (forall i, in_range 0 1 (rng s i)) ->
  (exists A s1 g s2 A' s3 p p' w w',
     PerceptronActor_init sp act s = Some (A, s1) /\
     GeneticPerceptronActor_get_genome A s1 = Some (g, s2) /\
     GeneticPerceptronActor_from_genome A g s2 = Some (A', s3) /\
     perceptron_ok s3 A p lo hi w /\ perceptron_ok s3 A' p' lo hi w' /\
     nd_shape (p_perceptron_matrix p') = nd_shape (p_perceptron_matrix p) /\
     Forall2 close w' w) /\
  (forall hidden_layers,
   exists A s1 g s2 A' s3 p p' layers layers' ws ws',
     NeuralNetActor_init sp act hidden_layers s = Some (A, s1) /\
     GeneticNNActor_get_genome A s1 = Some (g, s2) /\
     GeneticNNActor_from_genome A g s2 = Some (A', s3) /\
     nn_ok s3 A p lo hi layers ws /\ nn_ok s3 A' p' lo hi layers' ws' /\
     nd_shape <$> layers' = nd_shape <$> layers /\
     Forall2 (Forall2 close) ws' ws).
Proof.
  intros Hsp Hprod Hrng. split.
  - cut (wp (PerceptronActor_init sp act) s (fun A s1 =>
           wp (GeneticPerceptronActor_get_genome A) s1 (fun g s2 =>
             wp (GeneticPerceptronActor_from_genome A g) s2 (fun A' s3 =>
               exists p p' w w',
                 perceptron_ok s3 A p lo hi w /\
                 perceptron_ok s3 A' p' lo hi w' /\
                 nd_shape (p_perceptron_matrix p')
                 = nd_shape (p_perceptron_matrix p) /\
                 Forall2 close w' w)))).
    { intros (A & s1 & H1 & g & s2 & H2 & A' & s3 & H3 & p & p' & w & w' & HQ).
      exists A, s1, g, s2, A', s3, p, p', w, w'.
      destruct HQ as (? & ? & ? & ?). repeat (split; [done|]). done. }
    eapply (wp_PerceptronActor_init _ _ lo hi n_obs); [done..|].
    intros A p s1 Hsub1 _ Hok1 _ _.
    set (w := fresh_weight <$> (rng s <$> seq 0 (n act * n_obs))) in *.
    assert (Hw : Forall (in_range (-1) 1) w).
    { apply (fresh_weights_in_range rnd); [done|]. by apply fresh_from_draws. }
    eapply (wp_perceptron_get_genome _ p lo hi w); [done|].
    intros g s2 Hsub2 Hgsh Hg.
    eapply (wp_perceptron_from_genome _ p lo hi w _ (encode <$> w)).
    { by eapply perceptron_ok_weaken. }
    { done. }
    { rewrite Hgsh, size_of_1. lia. }
    intros A' p' s3 Hsub3 _ Hok3 _ _ Hn Ha.
    exists p, p', w, (decode_perceptron <$> (encode <$> w)).
    split; [eapply perceptron_ok_weaken; [|done]; by etrans|].
    split; [done|]. split.
    { destruct Hok1 as [_ _ _ _ _ _ -> _], Hok3 as [_ _ _ _ _ _ -> _].
      congruence. }
    rewrite <- list_fmap_compose. apply Forall2_fmap_l, Forall_Forall2_diag.
    eapply Forall_impl; [done|]. intros x Hx.
    by apply decode_perceptron_encode.
  - intros hidden_layers.
    cut (wp (NeuralNetActor_init sp act hidden_layers) s (fun A s1 =>
           wp (GeneticNNActor_get_genome A) s1 (fun g s2 =>
             wp (GeneticNNActor_from_genome A g) s2 (fun A' s3 =>
               exists p p' layers layers' ws ws',
                 nn_ok s3 A p lo hi layers ws /\
                 nn_ok s3 A' p' lo hi layers' ws' /\
                 nd_shape <$> layers' = nd_shape <$> layers /\
                 Forall2 (Forall2 close) ws' ws)))).
    { intros (A & s1 & H1 & g & s2 & H2 & A' & s3 & H3 &
              p & p' & layers & layers' & ws & ws' & HQ).
      exists A, s1, g, s2, A', s3, p, p', layers, layers', ws, ws'.
      destruct HQ as (? & ? & ? & ?). repeat (split; [done|]). done. }
    eapply (wp_NeuralNetActor_init (in_range 0 1) _ _ _ lo hi n_obs);
      [done..|].
    intros A p layers ws s1 Hsub1 _ Hok1 _ _ _ Hfresh.
    assert (Hws : Forall (Forall (in_range (-1) 1)) ws).
    { eapply Forall_impl; [done|]. intros w. by apply fresh_weights_in_range. }
    eapply (wp_nn_get_genome _ p lo hi layers ws); [done|].
    intros g s2 Hsub2 Hgsh Hg.
    eapply (wp_nn_from_genome _ p lo hi layers ws _ (encode <$> concat ws)).
    { by eapply nn_ok_weaken. }
    { done. }
    { done. }
    intros A' p' layers' s3 Hsub3 _ Hok3 Hsh3 _ _.
    eexists p, p', layers, layers', ws, _.
    split; [eapply nn_ok_weaken; [|done]; by etrans|].
    split; [done|]. split; [done|].
    destruct Hok1 as [_ _ _ _ _ _ _ _ Hc1]. clear -Hc1 Hws Hrnd.
    revert ws Hc1 Hws. induction layers as [|a layers IH]; intros ws Hc Hws.
    + apply Forall2_nil_inv_l in Hc as ->. constructor.
    + apply Forall2_cons_inv_l in Hc as (w & ws' & Hw & Hc & ->).
      apply Forall_cons in Hws as [Hw1 Hws].
      apply contents_length in Hw. simpl.
      rewrite !fmap_app, take_app_length', drop_app_length'
        by (by rewrite !length_fmap).
      constructor; [|by apply IH].
      apply Forall2_fmap_l, Forall2_fmap_l, Forall_Forall2_diag.
      eapply Forall_impl; [done|]. intros x Hx.
      by apply decode_network_encode.
Qed.

(** C3. When the entries of the weight matrices lie in [-1, 1], every
    element of the vector returned by [get_genome] is [(w + 1) / 2] for
    a weight [w] and lies in [0, 1]. *)
Theorem genome_in_unit_interval (s : @state R) (self : nat) (lo hi : list R) :
  (forall p w,
     perceptron_ok s self p lo hi w -> Forall (in_range (-1) 1) w ->
     exists g gd s1,
       GeneticPerceptronActor_get_genome self s = Some (g, s1) /\
       contents s1 g gd /\
       gd = (fun x => rnd (rnd (x + 1) / 2)) <$> w /\
       Forall (in_range 0 1) gd) /\
  (forall p layers ws,
     nn_ok s self p lo hi layers ws -> Forall (Forall (in_range (-1) 1)) ws ->
     exists g gd s1,
       GeneticNNActor_get_genome self s = Some (g, s1) /\
       contents s1 g gd /\
       gd = (fun x => rnd (rnd (x + 1) / 2)) <$> concat ws /\
       Forall (in_range 0 1) gd).
Proof.
  split.
  - intros p w Hok Hw.
    destruct (wp_perceptron_get_genome self p lo hi w s
                (fun g s1 => contents s1 g (encode <$> w)) Hok)
      as (g & s1 & Hrun & Hg); [by intros|].
    exists g, (encode <$> w), s1. repeat split; try done.
    apply Forall_fmap. eapply Forall_impl; [done|].
    intros x Hx. by apply encode_range.
  - intros p layers ws Hok Hws.
    destruct (wp_nn_get_genome self p lo hi layers ws s
                (fun g s1 => contents s1 g (encode <$> concat ws)) Hok)
      as (g & s1 & Hrun & Hg); [by intros|].
    exists g, (encode <$> concat ws), s1. repeat split; try done.
    apply Forall_fmap. eapply Forall_impl; [by apply Forall_concat|].
    intros x Hx. by apply encode_range.
Qed.

End RealClaims.

(** An instance of C1 in exact arithmetic: a perceptron with three
    actions over [demo_space]. *)
Lemma genome_round_trip_witness :
  exists A s1 g s2 A' s3 p p' w w',
    @PerceptronActor_init R (rounded id) demo_space {| n := 3 |} real_state
    = Some (A, s1) /\
    @GeneticPerceptronActor_get_genome R (rounded id) A s1 = Some (g, s2) /\
    @GeneticPerceptronActor_from_genome R (rounded id) A g s2
    = Some (A', s3) /\
    @perceptron_ok R (rounded id) s3 A p [0; 0]%R [2; 4]%R w /\
    @perceptron_ok R (rounded id) s3 A' p' [0; 0]%R [2; 4]%R w' /\
    nd_shape (p_perceptron_matrix p') = nd_shape (p_perceptron_matrix p) /\
    Forall2 close w' w.
Proof.
  assert (Hdraws : forall i : nat, in_range 0 1 (rng real_state i))
    by (intros i; unfold in_range; simpl; lra).
  apply (proj1 (genome_round_trip id rounding_id real_state demo_space
                  {| n := 3 |} [0; 0]%R [2; 4]%R 2 real_space_ok eq_refl
                  Hdraws)).
Defined.

(** C2. The vector returned by [get_genome] has as many elements as the
    weight matrices of the actor have entries: [out_size * in_size] for
    the perceptron's matrix, the sum of [out_size * in_size] over the
    layers for a network. *)
Theorem genome_length (num : Type) (N : Num num) (s : @state num)
    (self : nat) (lo hi : list num) :
  (forall p w,
     perceptron_ok s self p lo hi w ->
     exists g gd s1,
       GeneticPerceptronActor_get_genome self s = Some (g, s1) /\
       contents s1 g gd /\ nd_shape g = [length gd] /\
       length gd = matrix_parameters (nd_shape (p_perceptron_matrix p))) /\
  (forall p layers ws,
     nn_ok s self p lo hi layers ws ->
     exists g gd s1,
       GeneticNNActor_get_genome self s = Some (g, s1) /\
       contents s1 g gd /\ nd_shape g = [length gd] /\
       length gd = sum_list (matrix_parameters <$> (nd_shape <$> layers))).
Proof.
  split.
  - intros p w Hok.
    destruct (wp_perceptron_get_genome self p lo hi w s
                (fun g s1 => nd_shape g = [p_n_obs p * p_n_act p] /\
                             contents s1 g (encode <$> w)) Hok)
      as (g & s1 & Hrun & Hsh & Hg); [by intros|].
    exists g, (encode <$> w), s1.
    pose proof (contents_length _ _ _ Hg) as Hlen.
    rewrite Hsh, size_of_1 in Hlen.
    destruct Hok as [_ _ _ _ _ _ Hms _]. rewrite Hms. simpl.
    repeat split; try done; [congruence|lia].
  - intros p layers ws Hok.
    destruct (wp_nn_get_genome self p lo hi layers ws s
                (fun g s1 =>
                   nd_shape g = [total_parameters (nd_shape <$> layers)] /\
                   contents s1 g (encode <$> concat ws)) Hok)
      as (g & s1 & Hrun & Hsh & Hg); [by intros|].
    exists g, (encode <$> concat ws), s1.
    pose proof (contents_length _ _ _ Hg) as Hlen.
    rewrite Hsh, size_of_1 in Hlen.
    destruct Hok as [_ _ _ _ _ _ _ Hch _].
    rewrite <- (total_parameters_chained _ _ Hch).
    repeat split; try done. congruence.
Qed.

(** An instance of C2: the perceptron of [demo_state], a 3 x 2 matrix. *)
Lemma genome_length_witness :
  exists g gd s1,
    GeneticPerceptronActor_get_genome 5 demo_state = Some (g, s1) /\
    contents s1 g gd /\ nd_shape g = [length gd] /\
    length gd = matrix_parameters [3; 2].
Proof.
  apply (proj1 (genome_length float float64 demo_state 5
                  [0; 0]%float [2; 4]%float)
           demo_perceptron _ demo_perceptron_ok).
Defined.

(** An instance of C3 in exact arithmetic. *)
Lemma genome_in_unit_interval_witness :
  exists g gd s1,
    @GeneticPerceptronActor_get_genome R (rounded id) 5 real_actor_state
    = Some (g, s1) /\
    contents s1 g gd /\
    gd = (fun x => id (id (x + 1) / 2)%R)
           <$> [/ 2; - / 2; / 4; 3 / 4; -1; 1]%R /\
    Forall (in_range 0 1) gd.
Proof.
  apply (proj1 (genome_in_unit_interval id rounding_id real_actor_state 5
                  [0; 0]%R [2; 4]%R)
           demo_perceptron _ real_perceptron_ok).
  repeat constructor; unfold in_range; lra.
Defined.

(** C4 (as amended). A network with [hidden_layers = []] and a perceptron
    that hold the same weight matrix [W], on the same observation:
    the network answers [argmax(sigmoid(W . x))] and the perceptron
    [argmax(W . x)], where [x] is the normalized input.  Nothing is said of
    the two answers being different. *)
Theorem network_applies_sigmoid
    (num : Type) (N : Num num) (E : Exp num) (s : @state num)
    (perceptron network : nat) (p : PerceptronActor)
    (q : NeuralNetActor) (W : ndarray) (w lo hi o : list num)
    (obs : ndarray) :
  perceptron_ok s perceptron p lo hi w ->
  nn_ok s network q lo hi [W] [w] ->
  nd_shape W = nd_shape (p_perceptron_matrix p) ->
  l_observation_space q = p_observation_space p ->
  contents s obs o -> nd_shape obs = shape (p_observation_space p) ->
  exists i j t t',
    NeuralNetActor_react_to network obs s = Some (i, t) /\
    argmax_scan (sigmoid <$> matvec (p_n_act p) (p_n_obs p) w
                               (normalized o lo hi)) = Some i /\
    PerceptronActor_react_to perceptron obs s = Some (j, t') /\
    argmax_scan (matvec (p_n_act p) (p_n_obs p) w (normalized o lo hi))
    = Some j.
Proof. apply single_layer_policies. Qed.

(** An instance of the amended C4: the pair of [real_pair_state]. *)
Lemma network_applies_sigmoid_witness :
  exists i j t t',
    @NeuralNetActor_react_to R (rounded id) (rounded_exp id) 7 (vec 2 2)
      real_pair_state = Some (i, t) /\
    @argmax_scan R (rounded id)
      (@sigmoid R (rounded id) (rounded_exp id)
         <$> @matvec R (rounded id) 3 2 [/ 2; - / 2; / 4; 3 / 4; -1; 1]%R
               (@normalized R (rounded id) [1; 2]%R [0; 0]%R [2; 4]%R))
    = Some i /\
    @PerceptronActor_react_to R (rounded id) 5 (vec 2 2) real_pair_state
    = Some (j, t') /\
    @argmax_scan R (rounded id)
      (@matvec R (rounded id) 3 2 [/ 2; - / 2; / 4; 3 / 4; -1; 1]%R
         (@normalized R (rounded id) [1; 2]%R [0; 0]%R [2; 4]%R))
    = Some j.
Proof.
  apply (network_applies_sigmoid R (rounded id) (rounded_exp id)
           real_pair_state 5 7 demo_perceptron demo_network (mat 4 3 2)
           _ [0; 0]%R [2; 4]%R [1; 2]%R (vec 2 2)
           real_pair_perceptron_ok real_pair_network_ok eq_refl eq_refl
           real_pair_observation eq_refl).
Defined.

(** With the same matrix [[0.5, -0.5], [0.25, 0.75], [-1, 1]] and the
    observation [[1, 2]] (normalized to [[0.5, 0.5]]), the network and
    the perceptron both answer 1: the two results are not distinct. *)
Lemma network_perceptron_agree_counterexample :
  exists t t',
    @NeuralNetActor_react_to R (rounded id) (rounded_exp id) 7 (vec 2 2)
      real_pair_state = Some (1, t) /\
    @PerceptronActor_react_to R (rounded id) 5 (vec 2 2) real_pair_state
    = Some (1, t').
Proof.
  destruct (single_layer_policies R (rounded id) (rounded_exp id)
              real_pair_state 5 7 demo_perceptron demo_network (mat 4 3 2)
              _ [0; 0]%R [2; 4]%R [1; 2]%R (vec 2 2)
              real_pair_perceptron_ok real_pair_network_ok eq_refl eq_refl
              real_pair_observation eq_refl)
    as (i & j & t & t' & Hn & Hi & Hp & Hj).
  rewrite argmax_sigmoid_exact in Hi.
  simpl in Hi, Hj. rewrite demo_outputs in Hi, Hj.
  injection Hi as <-. injection Hj as <-. by exists t, t'.
Qed.

(** C5 (as amended). The index returned by [react_to], in both variants,
    is the result of the left-to-right scan of the output vector; for
    every non-empty output vector without NaN entries it is the smallest
    index [i] such that no index holds a value strictly greater than the
    one at [i].  On [[0.5, 0.9, 0.9, 0.2]] index 1 is selected. *)
Theorem react_to_selects_first_maximum :
  (forall (E : Exp float) (self : nat) (obs : ndarray) (s s1 : @state float)
          (i : nat),
     PerceptronActor_react_to self obs s = Some (i, s1) \/
     NeuralNetActor_react_to self obs s = Some (i, s1) ->
     exists outputs xs,
       (PerceptronActor_outputs self obs s = Some (outputs, s1) \/
        NeuralNetActor_outputs self obs s = Some (outputs, s1)) /\
       contents s1 outputs xs /\ argmax_scan xs = Some i /\
       (xs <> [] -> (forall x, x ∈ xs -> is_nan x = false) -> first_max xs i)) /\
  (forall xs : list float,
     xs <> [] -> (forall x, x ∈ xs -> is_nan x = false) ->
     exists i, argmax_scan xs = Some i /\ first_max xs i) /\
  argmax_scan [0.5; 0.9; 0.9; 0.2]%float = Some 1.
Proof.
  assert (Hscan : forall xs : list float,
     xs <> [] -> (forall x, x ∈ xs -> is_nan x = false) ->
     exists i, argmax_scan xs = Some i /\ first_max xs i).
  { intros xs Hne Hnan. apply argmax_scan_first_max; [done|].
    by apply float_ordered_on. }
  split; [|split; [done|by vm_compute]].
  intros E self obs s s1 i Hrun.
  assert (exists outputs,
     (PerceptronActor_outputs self obs s = Some (outputs, s1) \/
      NeuralNetActor_outputs self obs s = Some (outputs, s1)) /\
     argmax outputs s1 = Some (i, s1)) as (outputs & Hout & Harg).
  { destruct Hrun as [Hrun|Hrun];
      apply bind_Some in Hrun as (outputs & s' & Hout & Harg);
      destruct (argmax_Some _ _ _ _ Harg) as [-> _]; eauto. }
  apply argmax_Some in Harg as (_ & xs & Hxs & Hi).
  exists outputs, xs. split; [done|]. split; [done|]. split; [done|].
  intros Hne Hnan. destruct (Hscan xs Hne Hnan) as (i' & Hi' & Hfirst).
  congruence.
Qed.

(** An instance of the amended C5 on the vector of the specification. *)
Lemma react_to_selects_first_maximum_witness :
  exists i, argmax_scan [0.5; 0.9; 0.9; 0.2]%float = Some i /\
            first_max [0.5; 0.9; 0.9; 0.2]%float i.
Proof.
  apply (proj1 (proj2 react_to_selects_first_maximum)); [done|].
  intros x Hx.
  repeat (apply elem_of_cons in Hx as [->|Hx]; [by vm_compute|]).
  by apply elem_of_nil in Hx.
Defined.

(** C5, with a NaN among the outputs: on the output vector
    [[-inf; nan; inf]] the scan of [react_to] answers 2, although 1 is the
    smallest index at which no other value is strictly greater (nothing
    compares greater than NaN).  The perceptron of [nan_state] produces
    exactly this output vector on the observation [[2; 2]]. *)
Lemma react_to_nan_counterexample :
  argmax_scan [neg_infinity; nan; infinity] = Some 2 /\
  first_max [neg_infinity; nan; infinity] 1 /\
  exists outputs s1,
    PerceptronActor_outputs 5 (vec 2 2) nan_state = Some (outputs, s1) /\
    elements outputs s1 = Some ([neg_infinity; nan; infinity], s1) /\
    PerceptronActor_react_to 5 (vec 2 2) nan_state = Some (2, s1).
Proof.
  split; [by vm_compute|]. split.
  - split.
    + exists nan. split; [done|]. intros [|[|[|j]]] y [= <-]; by vm_compute.
    + intros i' Hi' (x & Hx & Hno). assert (i' = 0) as -> by lia.
      injection Hx as <-. by specialize (Hno 2 infinity eq_refl).
  - eexists _, _. split; [by vm_compute|]. split; by vm_compute.
Qed.

(** C6. With [hidden_layers = [4, 3]], five observations and two actions
    the constructor builds three matrices of shapes (4,5), (3,4), (2,3),
    in this order; [from_genome] applied to a genome of length 38 returns
    an actor with these three shapes whose layers hold the genome's
    elements 0..19, 20..31 and 32..37 (each mapped to [2g - 1]). *)
Theorem network_shapes_across_layers (num : Type) (N : Num num)
    (s : @state num) (sp : Box) (lo hi : list num) :
  space_ok s sp lo hi -> product (shape sp) = Some 5 ->
  exists A s1 p layers ws,
    NeuralNetActor_init sp {| n := 2 |} [4; 3] s = Some (A, s1) /\
    nn_ok s1 A p lo hi layers ws /\
    nd_shape <$> layers = [[4; 5]; [3; 4]; [2; 3]] /\
    forall s2 genome gd,
      heap s1 ⊆ heap s2 -> contents s2 genome gd -> nd_shape genome = [38] ->
      exists A' s3 p' layers',
        GeneticNNActor_from_genome A genome s2 = Some (A', s3) /\
        nn_ok s3 A' p' lo hi layers'
          [decode_network <$> take 20 gd;
           decode_network <$> take 12 (drop 20 gd);
           decode_network <$> take 6 (drop 32 gd)] /\
        nd_shape <$> layers' = [[4; 5]; [3; 4]; [2; 3]].
Proof.
  intros Hsp Hprod.
  destruct (wp_NeuralNetActor_init (fun _ => True) sp {| n := 2 |} [4; 3]
              lo hi 5 s
              (fun A s1 => exists p layers ws,
                 nn_ok s1 A p lo hi layers ws /\
                 nd_shape <$> layers = [[4; 5]; [3; 4]; [2; 3]]) Hsp Hprod)
    as (A & s1 & Hrun & p & layers & ws & Hok & Hsh); [done|by eauto 10|].
  exists A, s1, p, layers, ws. repeat (split; [done|]).
  intros s2 genome gd Hsub Hg Hgsh.
  destruct (wp_nn_from_genome A p lo hi layers ws genome gd s2
              (fun A' s3 => exists p' layers',
                 nn_ok s3 A' p' lo hi layers'
                   (split_sizes (size_of <$> (nd_shape <$> layers))
                      (decode_network <$> gd)) /\
                 nd_shape <$> layers' = nd_shape <$> layers))
    as (A' & s3 & Hrun' & p' & layers' & Hok' & Hsh').
  { by eapply nn_ok_weaken. }
  { done. }
  { by rewrite Hsh. }
  { intros. eauto 10. }
  exists A', s3, p', layers'. split; [done|]. rewrite Hsh in Hok', Hsh'.
  split; [|done]. simpl in Hok'.
  by rewrite drop_drop, <- !fmap_drop, <- !fmap_take in Hok'.
Qed.

(** An instance of C6 over [wide_space]. *)
Lemma network_shapes_across_layers_witness :
  exists A s1 p layers ws,
    NeuralNetActor_init wide_space {| n := 2 |} [4; 3] wide_state
    = Some (A, s1) /\
    nn_ok s1 A p [0; 0; 0; 0; 0]%float [1; 1; 1; 1; 1]%float layers ws /\
    nd_shape <$> layers = [[4; 5]; [3; 4]; [2; 3]] /\
    forall s2 genome gd,
      heap s1 ⊆ heap s2 -> contents s2 genome gd -> nd_shape genome = [38] ->
      exists A' s3 p' layers',
        GeneticNNActor_from_genome A genome s2 = Some (A', s3) /\
        nn_ok s3 A' p' [0; 0; 0; 0; 0]%float [1; 1; 1; 1; 1]%float layers'
          [decode_network <$> take 20 gd;
           decode_network <$> take 12 (drop 20 gd);
           decode_network <$> take 6 (drop 32 gd)] /\
        nd_shape <$> layers' = [[4; 5]; [3; 4]; [2; 3]].
Proof.
  apply (network_shapes_across_layers float float64 wide_state wide_space
           _ _ wide_space_ok eq_refl).
Defined.

(** C7. For an observation of the space's shape, [react_to] (in both
    variants) applies the weight matrices to the flattened vector
    [(observation - low) / (high - low)], whose length is the product of
    the shape's dimensions.  With [low = [0, 0]], [high = [2, 4]] and the
    observation [[1, 2]] that vector is [[0.5, 0.5]].  (The identity does
    not depend on [high > low].) *)
Theorem react_to_normalizes_observation :
  (forall (num : Type) (N : Num num) (E : Exp num) (s : @state num)
          (obs : ndarray) (o lo hi : list num),
     contents s obs o ->
     (forall self p w,
        perceptron_ok s self p lo hi w ->
        nd_shape obs = shape (p_observation_space p) ->
        length (normalized o lo hi) = size_of (shape (p_observation_space p)) /\
        exists outputs i s1,
          PerceptronActor_outputs self obs s = Some (outputs, s1) /\
          contents s1 outputs
            (matvec (p_n_act p) (p_n_obs p) w (normalized o lo hi)) /\
          PerceptronActor_react_to self obs s = Some (i, s1) /\
          perceptron_policy (p_n_act p) (p_n_obs p) w (normalized o lo hi)
          = Some i) /\
     (forall self p layers ws,
        nn_ok s self p lo hi layers ws ->
        nd_shape obs = shape (l_observation_space p) ->
        length (normalized o lo hi) = size_of (shape (l_observation_space p)) /\
        exists outputs i s1,
          NeuralNetActor_outputs self obs s = Some (outputs, s1) /\
          contents s1 outputs
            (feed_forward (nd_shape <$> layers) ws (normalized o lo hi)) /\
          NeuralNetActor_react_to self obs s = Some (i, s1) /\
          network_policy (nd_shape <$> layers) ws (normalized o lo hi)
          = Some i)) /\
  @normalized float float64 [1; 2]%float [0; 0]%float [2; 4]%float
  = [0.5; 0.5]%float.
Proof.
  split; [|by vm_compute].
  intros num N E s obs o lo hi Ho. split.
  - intros self p w Hok Hsh. split.
    + destruct Hok as [_ [Hls Hhs Hlo Hhi] _ _ _ _ _ _].
      apply contents_length in Ho, Hlo, Hhi.
      apply normalized_length; congruence.
    + destruct (wp_perceptron_outputs self p lo hi w obs o s
                  (fun out s1 => nd_shape out = [p_n_act p] /\
                     contents s1 out
                       (matvec (p_n_act p) (p_n_obs p) w (normalized o lo hi))))
        as (outputs & s1 & Hrun & Hosh & Hout); [done..|by intros|].
      destruct (wp_argmax outputs _ _ s1 (fun i _ =>
                  perceptron_policy (p_n_act p) (p_n_obs p) w
                    (normalized o lo hi) = Some i) Hosh Hout)
        as (i & s2 & Harg & Hi); [done|].
      destruct (argmax_Some _ _ _ _ Harg) as [-> _].
      exists outputs, i, s1. repeat split; try done.
      unfold PerceptronActor_react_to. by rewrite (bind_run _ _ _ _ _ Hrun).
  - intros self p layers ws Hok Hsh. split.
    + destruct Hok as [_ [Hls Hhs Hlo Hhi] _ _ _ _ _ _ _].
      apply contents_length in Ho, Hlo, Hhi.
      apply normalized_length; congruence.
    + destruct (wp_nn_outputs self p lo hi layers ws obs o s
                  (fun out s1 => (exists k, nd_shape out = [k]) /\
                     contents s1 out
                       (feed_forward (nd_shape <$> layers) ws
                          (normalized o lo hi))))
        as (outputs & s1 & Hrun & [k Hosh] & Hout); [done..|by eauto|].
      destruct (wp_argmax outputs _ _ s1 (fun i _ =>
                  network_policy (nd_shape <$> layers) ws
                    (normalized o lo hi) = Some i) Hosh Hout)
        as (i & s2 & Harg & Hi); [done|].
      destruct (argmax_Some _ _ _ _ Harg) as [-> _].
      exists outputs, i, s1. repeat split; try done.
      unfold NeuralNetActor_react_to. by rewrite (bind_run _ _ _ _ _ Hrun).
Qed.

(** An instance of C7: the perceptron of [demo_state] on [[1, 2]]. *)
Lemma react_to_normalizes_observation_witness :
  length (@normalized float float64 [1; 2]%float [0; 0]%float [2; 4]%float)
  = size_of [2] /\
  exists outputs i s1,
    PerceptronActor_outputs 5 (vec 2 2) demo_state = Some (outputs, s1) /\
    contents s1 outputs
      (matvec 3 2 [0.5; -0.5; 0.25; 0.75; -1; 1]%float
         (normalized [1; 2]%float [0; 0]%float [2; 4]%float)) /\
    PerceptronActor_react_to 5 (vec 2 2) demo_state = Some (i, s1) /\
    perceptron_policy 3 2 [0.5; -0.5; 0.25; 0.75; -1; 1]%float
      (normalized [1; 2]%float [0; 0]%float [2; 4]%float) = Some i.
Proof.
  apply (proj1 (proj1 react_to_normalizes_observation float float64
                  (fun x => x) demo_state (vec 2 2) [1; 2]%float
                  [0; 0]%float [2; 4]%float demo_observation)
           5 demo_perceptron [0.5; -0.5; 0.25; 0.75; -1; 1]%float
           demo_perceptron_ok eq_refl).
Defined.

(** C8. [from_genome] called on an actor [A] with a genome of matching
    length returns a new actor (an object that did not exist before, so
    not [A]) and leaves every existing object as it was: [A] keeps its
    weight matrices, and [A.react_to] answers as before on every
    observation of the space's shape. *)
Theorem from_genome_leaves_template (num : Type) (N : Num num) (E : Exp num)
    (s : @state num) (A : nat) (lo hi : list num) (genome : ndarray)
    (gd : list num) :
  contents s genome gd ->
  (forall p w,
     perceptron_ok s A p lo hi w ->
     size_of (nd_shape genome)
     = matrix_parameters (nd_shape (p_perceptron_matrix p)) ->
     exists A' s1,
       GeneticPerceptronActor_from_genome A genome s = Some (A', s1) /\
       heap s !! A' = None /\ A' <> A /\ heap s ⊆ heap s1 /\
       perceptron_ok s1 A p lo hi w /\
       forall obs o,
         contents s obs o -> nd_shape obs = shape (p_observation_space p) ->
         exists i t t',
           PerceptronActor_react_to A obs s = Some (i, t) /\
           PerceptronActor_react_to A obs s1 = Some (i, t')) /\
  (forall p layers ws,
     nn_ok s A p lo hi layers ws ->
     nd_shape genome
     = [sum_list (matrix_parameters <$> (nd_shape <$> layers))] ->
     exists A' s1,
       GeneticNNActor_from_genome A genome s = Some (A', s1) /\
       heap s !! A' = None /\ A' <> A /\ heap s ⊆ heap s1 /\
       nn_ok s1 A p lo hi layers ws /\
       forall obs o,
         contents s obs o -> nd_shape obs = shape (l_observation_space p) ->
         exists i t t',
           NeuralNetActor_react_to A obs s = Some (i, t) /\
           NeuralNetActor_react_to A obs s1 = Some (i, t')).
Proof.
  intros Hg. split.
  - intros p w Hok Hsz.
    destruct (wp_perceptron_from_genome A p lo hi w genome gd s
                (fun A' s1 => heap s !! A' = None /\ heap s ⊆ heap s1))
      as (A' & s1 & Hrun & Hnew & Hsub); [done..| |by intros|].
    { destruct Hok as [_ _ _ _ _ _ Hms _]. by rewrite Hms in Hsz. }
    exists A', s1. split; [done|]. split; [done|].
    split; [intros ->; destruct Hok; congruence|]. split; [done|].
    split; [by eapply perceptron_ok_weaken|].
    intros obs o Ho Hosh.
    destruct (wp_perceptron_react_to A p lo hi w obs o s
                (fun i _ => perceptron_policy (p_n_act p) (p_n_obs p) w
                              (normalized o lo hi) = Some i))
      as (i & t & Hrun1 & Hi); [done..|by intros|].
    destruct (wp_perceptron_react_to A p lo hi w obs o s1
                (fun i _ => perceptron_policy (p_n_act p) (p_n_obs p) w
                              (normalized o lo hi) = Some i))
      as (i' & t' & Hrun2 & Hi');
      [by eapply perceptron_ok_weaken|by eapply contents_weaken|done
      |by intros|].
    exists i, t, t'. split; [done|]. congruence.
  - intros p layers ws Hok Hsz.
    destruct (wp_nn_from_genome A p lo hi layers ws genome gd s
                (fun A' s1 => heap s !! A' = None /\ heap s ⊆ heap s1))
      as (A' & s1 & Hrun & Hnew & Hsub); [done..| |by intros|].
    { destruct Hok as [_ _ _ _ _ _ _ Hch _].
      by rewrite (total_parameters_chained _ _ Hch). }
    exists A', s1. split; [done|]. split; [done|].
    split; [intros ->; destruct Hok; congruence|]. split; [done|].
    split; [by eapply nn_ok_weaken|].
    intros obs o Ho Hosh.
    destruct (wp_nn_react_to A p lo hi layers ws obs o s
                (fun i _ => network_policy (nd_shape <$> layers) ws
                              (normalized o lo hi) = Some i))
      as (i & t & Hrun1 & Hi); [done..|by intros|].
    destruct (wp_nn_react_to A p lo hi layers ws obs o s1
                (fun i _ => network_policy (nd_shape <$> layers) ws
                              (normalized o lo hi) = Some i))
      as (i' & t' & Hrun2 & Hi');
      [by eapply nn_ok_weaken|by eapply contents_weaken|done|by intros|].
    exists i, t, t'. split; [done|]. congruence.
Qed.

(** An instance of C8: the perceptron of [demo_state] and a genome of
    length 6. *)
Lemma from_genome_leaves_template_witness :
  exists A' s1,
    GeneticPerceptronActor_from_genome 5 (vec 6 6) genome_state
    = Some (A', s1) /\
    heap genome_state !! A' = None /\ A' <> 5 /\
    heap genome_state ⊆ heap s1 /\
    perceptron_ok s1 5 demo_perceptron [0; 0]%float [2; 4]%float
      [0.5; -0.5; 0.25; 0.75; -1; 1]%float /\
    forall obs o,
      contents genome_state obs o -> nd_shape obs = [2] ->
      exists i t t',
        PerceptronActor_react_to 5 obs genome_state = Some (i, t) /\
        PerceptronActor_react_to 5 obs s1 = Some (i, t').
Proof.
  assert (Hg : contents genome_state (vec 6 6)
                 [0; 0.25; 0.5; 0.75; 1; 0.5]%float).
  { eexists. split; [reflexivity|]. split; [simpl; lia|reflexivity]. }
  apply (proj1 (from_genome_leaves_template float float64 (fun x => x)
                  genome_state 5 [0; 0]%float [2; 4]%float (vec 6 6) _ Hg)
           demo_perceptron _ genome_perceptron_ok eq_refl).
Defined.

(** C9. Whenever [react_to] returns, in either variant, every object that
    existed before the call is unchanged; in particular the caller's
    observation array holds what it held. *)
Theorem react_to_leaves_observation_unchanged
    (num : Type) (N : Num num) (E : Exp num) (self : nat) (obs : ndarray)
    (s s1 : @state num) (i : nat) :
  PerceptronActor_react_to self obs s = Some (i, s1) \/
  NeuralNetActor_react_to self obs s = Some (i, s1) ->
  heap s ⊆ heap s1 /\ forall o, contents s obs o -> contents s1 obs o.
Proof.
  intros Hrun.
  assert (Hsub : heap s ⊆ heap s1).
  { destruct Hrun as [Hrun|Hrun].
    - by apply (wlp_perceptron_react_to self obs s i s1).
    - by apply (wlp_nn_react_to self obs s i s1). }
  split; [done|]. intros o. by apply contents_weaken.
Qed.

(** An instance of C9: the perceptron of [demo_state] on [[1, 2]]. *)
Lemma react_to_leaves_observation_unchanged_witness :
  exists i s1,
    PerceptronActor_react_to 5 (vec 2 2) demo_state = Some (i, s1) /\
    heap demo_state ⊆ heap s1 /\
    forall o, contents demo_state (vec 2 2) o -> contents s1 (vec 2 2) o.
Proof.
  eexists _, _. split; [by vm_compute|].
  eapply (react_to_leaves_observation_unchanged float float64 (fun x => x)
            5 (vec 2 2) demo_state).
  left. by vm_compute.
Defined.

(** C10. [product] of an empty sequence is undefined, so building a
    [PerceptronActor] or a [NeuralNetActor] over a space whose shape is
    empty raises instead of returning an actor; on a non-empty sequence
    [product] is the product of its elements. *)
Theorem product_empty_shape_fails :
  product [] = None /\
  (forall (num : Type) (N : Num num) (lo hi : ndarray) (act : Discrete)
          (s : @state num),
     PerceptronActor_init {| shape := []; low := lo; high := hi |} act s
     = None) /\
  (forall (num : Type) (N : Num num) (lo hi : ndarray) (act : Discrete)
          (hidden_layers : list nat) (s : @state num),
     NeuralNetActor_init {| shape := []; low := lo; high := hi |} act
       hidden_layers s = None) /\
  (forall (x : nat) (l : list nat),
     product (x :: l) = Some (foldr Nat.mul 1 (x :: l))).
Proof.
  split; [done|]. split; [done|]. split; [done|].
  intros x l. apply product_cons.
Qed.

(** * Further properties of the program *)

(** ** Lemmas *)

Section FurtherLemmas.
Context {num : Type} `{Num num}.
Implicit Types (s : @state num) (a b : ndarray) (d : list num).

(** *** Runs, and computations that raise *)

Lemma wp_run {A} (m : M A) s (Q : A -> state -> Prop) x s1 :
  wp m s Q -> m s = Some (x, s1) -> Q x s1.
Proof.
  intros (y & s2 & Hr & HQ) Hrun. rewrite Hr in Hrun.
  by injection Hrun as <- <-.
Qed.

Lemma wp_wlp {A} (m : M A) s (Q : A -> state -> Prop) : wp m s Q -> wlp m s Q.
Proof. intros Hwp x s1 Hrun. by eapply wp_run. Qed.

Lemma wlp_raises {A} (m : M A) s : wlp m s (fun _ _ => False) -> m s = None.
Proof.
  intros Hw. destruct (m s) as [[x s1]|] eqn:E; [destruct (Hw x s1 E)|done].
Qed.

(** [normalize] on an array whose size is not [n_obs]: whatever the
    in-place operators do, the array keeps the shape of the observation
    and [np.reshape] raises. *)
Lemma normalize_wrong_size sp rg n_obs obs s :
  size_of (nd_shape obs) <> n_obs ->
  normalize sp rg n_obs obs s = None.
Proof.
  intros Hne. apply wlp_raises. unfold normalize.
  apply wlp_bind, wlp_np_copy. intros d a' s1 _ (_ & _ & Hsh & _).
  apply wlp_bind, wlp_inplace. intros buf2 s2 _.
  apply wlp_bind, wlp_inplace. intros buf3 s3 _.
  apply wlp_np_reshape. intros Hsz. apply Hne.
  by rewrite <- Hsh, <- Hsz, size_of_1.
Qed.

Lemma matvec_length (r c : nat) (w x : list num) : length (matvec r c w x) = r.
Proof. unfold matvec. by rewrite length_fmap, length_seq. Qed.

(** The scan, entry by entry: after [k] entries the candidate [i] is an
    index already seen, no entry seen after it beat it, and it was taken
    because it beat an earlier candidate. *)
Lemma scan_candidate (v : list num) (k : nat) :
  k <= length v ->
  exists i,
    fold_left (argmax_step v) (take k (imap pair v)) (Some 0) = Some i /\
    (i = 0 \/ i < k) /\
    (forall j y x, i < j < k -> v !! j = Some y -> v !! i = Some x ->
       gtb y x = false) /\
    (0 < i -> exists i' x' x, i' < i /\ v !! i' = Some x' /\ v !! i = Some x /\
                              gtb x x' = true).
Proof.
  induction k as [|k IH]; intros Hk.
  - exists 0. split; [done|]. split; [by left|]. split; intros; lia.
  - destruct IH as (i & Hfold & Hi & Hlater & Hbeat); [lia|].
    destruct (lookup_lt_is_Some_2 v k) as [xk Hxk]; [lia|].
    assert (Hik : i < length v) by lia.
    destruct (lookup_lt_is_Some_2 v i Hik) as [xi Hxi].
    erewrite take_S_r; last by (rewrite list_lookup_imap, Hxk).
    rewrite fold_left_app, Hfold. simpl. unfold argmax_step. simpl.
    rewrite Hxi. simpl.
    destruct (gtb xk xi) eqn:Hgt; eexists; (split; [reflexivity|]).
    + split; [right; lia|]. split; [intros; lia|].
      intros Hpos. exists i, xi, xk. repeat split; try done. lia.
    + split; [destruct Hi; [by left|right; lia]|]. split; [|done].
      intros j y x Hj Hy Hx. rewrite Hxi in Hx. injection Hx as <-.
      destruct (decide (j = k)) as [->|Hjk].
      * rewrite Hxk in Hy. by injection Hy as <-.
      * eapply (Hlater j); eauto. lia.
Qed.

(** *** Partial-correctness rules for the codec *)

Lemma wlp_np_slice a k start stop s (Q : ndarray -> state -> Prop) :
  nd_shape a = [k] ->
  (forall sl, nd_shape sl = [stop `min` k - start `min` k] -> Q sl s) ->
  wlp (np_slice a start stop) s Q.
Proof.
  intros Hsh HQ sl s1 Hrun. unfold np_slice in Hrun. rewrite Hsh in Hrun.
  apply ret_Some in Hrun as [-> ->]. by apply HQ.
Qed.

Lemma wlp_np_concatenate a b s Q :
  (forall sh d g s1, allocated s s1 g sh d -> Q g s1) ->
  wlp (np_concatenate a b) s Q.
Proof.
  intros HQ. unfold np_concatenate.
  destruct (nd_shape a) as [|da ra]; [done|].
  destruct (nd_shape b) as [|db rb]; [done|].
  case_decide; [|done].
  apply wlp_bind, wlp_elements. intros ea _.
  apply wlp_bind, wlp_elements. intros eb _.
  apply wlp_new_array. eauto.
Qed.

Lemma wlp_list_append l x s (Q : unit -> state -> Prop) :
  (forall xs s1, heap s !! l = Some (PyList xs) ->
     heap s1 = <[l := PyList (xs ++ [x])]> (heap s) -> Q tt s1) ->
  wlp (list_append l x) s Q.
Proof.
  intros HQ. unfold list_append.
  apply wlp_bind, wlp_load_list. intros xs Hxs.
  apply wp_wlp, wp_store. intros s1 Hh _. by eapply HQ.
Qed.

(** A computation that ends in an elementwise operation returns an array
    in a buffer of its own. *)
Lemma wlp_map_array_new f a s0 s :
  heap s0 ⊆ heap s ->
  wlp (map_array f a) s
    (fun g s1 => heap s0 ⊆ heap s1 /\ heap s0 !! nd_base g = None).
Proof.
  intros Hsub. apply wlp_map_array. intros d g s1 _ Hal.
  pose proof (allocated_sub _ _ _ _ _ Hal) as Hsub1.
  destruct Hal as (Hnone & _). split; [by etrans|].
  by eapply lookup_None_weaken.
Qed.

Lemma wlp_perceptron_get_genome self s :
  wlp (GeneticPerceptronActor_get_genome self) s
    (fun g s1 => heap s ⊆ heap s1 /\ heap s !! nd_base g = None).
Proof.
  unfold GeneticPerceptronActor_get_genome.
  apply wlp_bind, wlp_load_perceptron. intros p _.
  apply wlp_bind, wlp_np_copy. intros d c s1 _ Hsub1%allocated_sub.
  apply wlp_bind, wlp_np_reshape. intros _.
  apply wlp_bind, wlp_map_array. intros d2 v s2 _ Hsub2%allocated_sub.
  apply wlp_map_array_new. by etrans.
Qed.

Lemma wlp_nn_get_genome self s :
  wlp (GeneticNNActor_get_genome self) s
    (fun g s1 => heap s ⊆ heap s1 /\ heap s !! nd_base g = None).
Proof.
  unfold GeneticNNActor_get_genome.
  apply wlp_bind, wlp_load_nn. intros p _.
  apply wlp_bind, wlp_new_array. intros g0 s1 Hsub1%allocated_sub.
  apply wlp_bind, wlp_load_list. intros layers _.
  apply wlp_bind.
  eapply wlp_mono;
    [apply (wlp_foldM _ (fun _ s' => heap s ⊆ heap s')); [done|]|].
  - intros layer g s' Hsub. simpl.
    apply wlp_bind, wlp_np_copy. intros d c s2 _ Hsub2%allocated_sub.
    apply wlp_bind, wlp_lift. intros sz _.
    apply wlp_bind, wlp_np_reshape. intros _.
    apply wlp_np_concatenate. intros sh d' g' s3 Hsub3%allocated_sub.
    etrans; [exact Hsub|]. etrans; [exact Hsub2|exact Hsub3].
  - intros g s' Hsub. simpl in *.
    apply wlp_bind, wlp_map_array. intros d2 v s2 _ Hsub2%allocated_sub.
    apply wlp_map_array_new. etrans; [exact Hsub|exact Hsub2].
Qed.

(** *** The loop of [GeneticNNActor.from_genome] *)

Lemma total_parameters_cons (sh : list nat) (shapes : list (list nat)) :
  total_parameters (sh :: shapes) = size_of sh + total_parameters shapes.
Proof. done. Qed.

(** The loop of [GeneticNNActor.from_genome] on a genome that runs out:
    the slice of the first layer that does not fit is shorter than the
    layer, and [reshape] raises. *)
Lemma wlp_decode_layers_short genome k nna (layers : list ndarray) :
  forall start s,
  nd_shape genome = [k] ->
  Forall (fun sh => exists r c, sh = [r; c]) (nd_shape <$> layers) ->
  start <= k -> k < start + total_parameters (nd_shape <$> layers) ->
  wlp (foldM (fun start layer =>
                layer_size ← lift (product (nd_shape layer));
                sl ← np_slice genome start (start + layer_size);
                c ← np_copy sl;
                new_layer ← np_reshape c (nd_shape layer);
                b ← load_nn nna;
                list_append (l_layers b) new_layer;;
                mret (start + layer_size)) start layers) s
      (fun _ _ => False).
Proof.
  induction layers as [|layer layers IH]; intros start s Hgsh H2d Hstart Hshort.
  - simpl in Hshort. unfold total_parameters in Hshort. simpl in Hshort. lia.
  - rewrite fmap_cons in H2d, Hshort.
    apply Forall_cons in H2d as [(r & c & Hl) H2d].
    rewrite total_parameters_cons, Hl, size_of_2 in Hshort.
    simpl. apply wlp_bind, wlp_bind, wlp_lift. intros sz Hsz.
    rewrite Hl, product_pair in Hsz. injection Hsz as <-.
    apply wlp_bind, (wlp_np_slice _ k); [done|]. intros sl Hsl.
    apply wlp_bind, wlp_np_copy. intros d cp s1 _ (_ & _ & Hcsh & _).
    apply wlp_bind, wlp_np_reshape. intros Hfit.
    rewrite Hl, Hcsh, Hsl, size_of_2, size_of_1 in Hfit.
    apply wlp_bind, wlp_load_nn. intros b _.
    apply wlp_bind. intros [] s2 _. apply wlp_ret.
    apply IH; [done|done|lia|lia].
Qed.

(** The arrays that the loop of [GeneticNNActor.from_genome] appends are
    copies: each lives in a buffer that the heap [h0] does not hold. *)
Lemma wlp_decode_layers_new (h0 : gmap nat obj) genome nna pn
    (layers : list ndarray) start s :
  h0 ⊆ heap s -> h0 !! nna = None -> h0 !! l_layers pn = None ->
  l_layers pn <> nna ->
  heap s !! nna = Some (NeuralNet pn) ->
  heap s !! l_layers pn = Some (PyList []) ->
  wlp (foldM (fun start layer =>
                layer_size ← lift (product (nd_shape layer));
                sl ← np_slice genome start (start + layer_size);
                c ← np_copy sl;
                new_layer ← np_reshape c (nd_shape layer);
                b ← load_nn nna;
                list_append (l_layers b) new_layer;;
                mret (start + layer_size)) start layers) s
      (fun _ s1 => h0 ⊆ heap s1 /\ heap s1 !! nna = Some (NeuralNet pn) /\
         exists new_layers,
           heap s1 !! l_layers pn = Some (PyList new_layers) /\
           Forall (fun W => h0 !! nd_base W = None) new_layers).
Proof.
  intros Hsub Hnna0 Hlst0 Hne Hnna Hlst.
  apply wlp_foldM.
  { split; [done|]. split; [done|]. by exists []. }
  intros layer st s1 (Hsub1 & Hnna1 & done_layers & Hlst1 & Hnew).
  apply wlp_bind, wlp_lift. intros sz _.
  apply wlp_bind. intros sl s1' Hsl.
  assert (s1' = s1) as ->.
  { unfold np_slice in Hsl. destruct (nd_shape genome); [done|].
    by apply ret_Some in Hsl as [_ ->]. }
  clear Hsl.
  apply wlp_bind, wlp_np_copy. intros d c s2 _ Hal.
  pose proof (allocated_sub _ _ _ _ _ Hal) as Hsub2.
  destruct Hal as (Hc & _).
  apply wlp_bind, wlp_np_reshape. intros _.
  apply wlp_bind, wlp_load_nn. intros b Hb.
  assert (b = pn) as ->.
  { assert (heap s2 !! nna = Some (NeuralNet pn)) by (by eapply lookup_weaken).
    congruence. }
  apply wlp_bind, wlp_list_append. intros xs s3 Hxs Hh3. apply wlp_ret.
  assert (xs = done_layers) as ->.
  { assert (heap s2 !! l_layers pn = Some (PyList done_layers))
      by (by eapply lookup_weaken).
    congruence. }
  split; [|split].
  - rewrite Hh3. apply insert_subseteq_r; [done|]. by etrans.
  - rewrite Hh3, lookup_insert_ne by done. by eapply lookup_weaken.
  - exists (done_layers ++
            [{| nd_base := nd_base c; nd_offset := nd_offset c;
                nd_shape := nd_shape layer |}]).
    split; [rewrite Hh3; apply lookup_insert_eq|].
    apply Forall_app. split; [done|]. constructor; [|done]. simpl.
    destruct (h0 !! nd_base c) eqn:E; [|done].
    by rewrite (lookup_weaken _ _ _ _ E Hsub1) in Hc.
Qed.

Lemma split_sizes_take (sizes : list nat) :
  forall d, split_sizes sizes d = split_sizes sizes (take (sum_list sizes) d).
Proof.
  induction sizes as [|k sizes IH]; intros d; [done|].
  simpl. rewrite take_take, Nat.min_l by lia. f_equal.
  rewrite IH. f_equal. by rewrite take_drop_commute.
Qed.

Lemma concat_split_sizes (sizes : list nat) :
  forall d : list num,
  concat (split_sizes sizes d) = take (sum_list sizes) d.
Proof.
  induction sizes as [|k sizes IH]; intros d; simpl.
  - by rewrite take_0.
  - by rewrite IH, take_take_drop.
Qed.

(** *** Constructors and the forward pass *)

(** [NeuralNetActor.__init__] with [hidden_layers = []]: one matrix, drawn
    as the perceptron's is. *)
Lemma wp_NeuralNetActor_init_single sp act lo hi n_obs s Q :
  space_ok s sp lo hi -> product (shape sp) = Some n_obs ->
  (forall self p W s1, heap s ⊆ heap s1 -> heap s !! self = None ->
     nn_ok s1 self p lo hi [W]
       [fresh_weight <$> (rng s <$> seq 0 (n act * n_obs))] ->
     nd_shape W = [n act; n_obs] ->
     Q self s1) ->
  wp (NeuralNetActor_init sp act []) s Q.
Proof.
  intros Hsp Hprod HQ. unfold NeuralNetActor_init.
  apply wp_bind, (wp_actor_dims _ lo hi n_obs); [done..|].
  intros rg s1 Hsub1 Hr1 Hrsh Hrg. simpl.
  apply wp_bind, wp_alloc. intros lst s2 Hlst Hh2 Hr2.
  assert (Hsub2 : heap s1 ⊆ heap s2) by (rewrite Hh2; by apply insert_subseteq).
  apply wp_bind, wp_bind, wp_bind, wp_random_matrix.
  intros m s3 Hsub3 _ Hmsh Hm Hr3. rewrite Hr2, Hr1 in Hm.
  apply (wp_list_append _ []).
  { eapply lookup_weaken; [|exact Hsub3]. rewrite Hh2. apply lookup_insert_eq. }
  intros s4 Hh4 Hr4. apply wp_ret.
  assert (Hl3 : heap s3 !! lst = Some (PyList [])).
  { eapply lookup_weaken; [|exact Hsub3]. rewrite Hh2. apply lookup_insert_eq. }
  assert (Hp4 : preserved_except lst s3 s4) by (by eapply preserved_store).
  assert (Hsub13 : heap s1 ⊆ heap s3) by (etrans; [exact Hsub2|exact Hsub3]).
  assert (Hsub14 : heap s1 ⊆ heap s4) by (by eapply preserved_extends).
  apply wp_alloc. intros self s5 Hself Hh5 Hr5.
  assert (Hsub5 : heap s4 ⊆ heap s5) by (rewrite Hh5; by apply insert_subseteq).
  assert (Hsub15 : heap s1 ⊆ heap s5) by (etrans; [exact Hsub14|exact Hsub5]).
  apply (HQ self {| l_observation_space := sp; l_action_space := act;
                    l_n_obs := n_obs; l_obs_range := rg; l_n_act := n act;
                    l_layers := lst |} m); try done.
  - by etrans.
  - eapply lookup_None_weaken; [|done]. etrans; [exact Hsub1|exact Hsub14].
  - split; simpl; try done.
    + rewrite Hh5. apply lookup_insert_eq.
    + eapply space_ok_weaken; [|done]. by etrans.
    + by eapply contents_weaken.
    + eapply lookup_weaken; [|exact Hsub5]. rewrite Hh4.
      apply lookup_insert_eq.
    + rewrite Hmsh. eauto.
    + constructor; [|done]. eapply contents_weaken; [exact Hsub5|].
      by eapply preserved_contents.
Qed.

Lemma layer_shapes_cons (n_obs h : nat) (hs : list nat) (n_act : nat) :
  layer_shapes n_obs (h :: hs) n_act = [h; n_obs] :: layer_shapes h hs n_act.
Proof. done. Qed.

Context `{Exp num}.

(** The vector a freshly built network computes has one entry per
    action. *)
Lemma feed_forward_length (hidden_layers : list nat) (n_act : nat) :
  forall (n_obs : nat) (ws : list (list num)) (x : list num),
  length ws = length (layer_shapes n_obs hidden_layers n_act) ->
  length (feed_forward (layer_shapes n_obs hidden_layers n_act) ws x) = n_act.
Proof.
  induction hidden_layers as [|h hs IH]; intros n_obs ws x Hlen.
  - destruct ws as [|w [|]]; try done.
    unfold feed_forward. simpl. by rewrite length_fmap, matvec_length.
  - rewrite layer_shapes_cons in *. destruct ws as [|w ws]; [done|].
    unfold feed_forward. simpl. apply IH. simpl in Hlen. lia.
Qed.

(** Every entry of the vector a network with at least one layer computes
    is a value of the sigmoid. *)
Lemma feed_forward_sigmoid (P : num -> Prop) (shapes : list (list nat)) :
  (forall y, P (sigmoid y)) ->
  forall (ws : list (list num)) (x : list num),
  shapes <> [] -> Forall (fun sh => exists r c, sh = [r; c]) shapes ->
  length ws = length shapes ->
  Forall P (feed_forward shapes ws x).
Proof.
  intros HP. induction shapes as [|sh shapes IH]; intros ws x Hne H2d Hlen;
    [done|].
  apply Forall_cons in H2d as [(r & c & ->) H2d].
  destruct ws as [|w ws]; [done|]. unfold feed_forward. simpl.
  destruct shapes as [|sh' shapes].
  - destruct ws; [|done]. simpl. apply Forall_fmap, Forall_forall.
    intros y _. apply HP.
  - apply IH; [done|done|]. simpl in *. lia.
Qed.

End FurtherLemmas.

(** *** The concrete states *)

(** The in-place operators broadcast: the perceptron of [demo_state]
    accepts the observation [[1, 2]] in an array of shape (1, 2), as it
    does in one of shape (2,). *)
Lemma react_to_row_observation :
  exists s1, PerceptronActor_react_to 5 (mat 2 1 2) demo_state = Some (1, s1).
Proof. eexists. vm_compute. reflexivity. Qed.

Lemma long_genome_network_ok :
  @nn_ok R (rounded id) long_genome_state 7 demo_network [0; 0]%R [2; 4]%R
    [mat 4 3 2] [[/ 2; - / 2; / 4; 3 / 4; -1; 1]%R].
Proof.
  eapply nn_ok_weaken; [|apply real_pair_network_ok].
  by apply insert_subseteq.
Qed.

(** ** The two constructors *)
Lemma real_genome_perceptron_ok :
  @perceptron_ok R (rounded id) real_genome_state 5 demo_perceptron
    [0; 0]%R [2; 4]%R [/ 2; - / 2; / 4; 3 / 4; -1; 1]%R.
Proof.
  eapply perceptron_ok_weaken; [|apply real_perceptron_ok].
  by apply insert_subseteq.
Qed.

(** ** The action returned by [react_to] *)

(** X1. The scan that ends both [react_to] methods, for any outcome of the
    comparisons (so also with NaN among the outputs): it returns an index of
    the vector (0 on the empty vector), no later entry compares greater than
    the entry returned, and an index other than 0 is returned only because its
    entry compared greater than an earlier one. *)
Theorem scan_result_not_beaten_later (num : Type) (N : Num num)
    (v : list num) :
  exists i, argmax_scan v = Some i /\
    (v = [] -> i = 0) /\ (v <> [] -> i < length v) /\
    (forall j y x, i < j -> v !! j = Some y -> v !! i = Some x ->
       gtb y x = false) /\
    (0 < i -> exists i' x' x, i' < i /\ v !! i' = Some x' /\ v !! i = Some x /\
                              gtb x x' = true).
Proof.
  destruct (scan_candidate v (length v)) as (i & Hfold & Hi & Hlater & Hbeat);
    [lia|].
  rewrite take_ge in Hfold by (rewrite length_imap; lia).
  exists i. split; [done|]. split; [|split; [|split; [|done]]].
  - intros ->. simpl in Hi. lia.
  - intros Hne. destruct Hi as [->|]; [|done]. destruct v; [done|simpl; lia].
  - intros j y x Hj Hy Hx. eapply (Hlater j); eauto.
    split; [done|]. by eapply lookup_lt_Some.
Qed.

(** X2. [PerceptronActor.react_to] on an observation of the space's shape
    returns, in any arithmetic (a zero-width range [high = low] included), and
    the index it returns is an action of the space: below [n] when the space
    has actions; with [n = 0] the answer is 0. *)
Theorem perceptron_react_to_in_range (num : Type) (N : Num num)
    (s : @state num) (self : nat) (p : PerceptronActor) (lo hi w o : list num)
    (obs : ndarray) :
  perceptron_ok s self p lo hi w ->
  contents s obs o -> nd_shape obs = shape (p_observation_space p) ->
  exists i s1,
    PerceptronActor_react_to self obs s = Some (i, s1) /\
    (0 < n (p_action_space p) -> i < n (p_action_space p)) /\
    (n (p_action_space p) = 0 -> i = 0).
Proof.
  intros Hok Ho Hsh.
  destruct (wp_perceptron_react_to self p lo hi w obs o s
              (fun i _ => perceptron_policy (p_n_act p) (p_n_obs p) w
                            (normalized o lo hi) = Some i))
    as (i & s1 & Hrun & Hi); [done..|by intros|].
  exists i, s1. split; [done|].
  unfold perceptron_policy in Hi.
  destruct (argmax_scan_total
              (matvec (p_n_act p) (p_n_obs p) w (normalized o lo hi)))
    as (i' & Hi' & Hrange).
  rewrite matvec_length in Hrange.
  destruct Hok as [_ _ _ Hact _ _ _ _]. rewrite <- Hact.
  assert (i' = i) as -> by congruence. lia.
Qed.

(** An instance of X2: the perceptron of [demo_state] (three actions) on
    the observation [[1, 2]]. *)
Lemma perceptron_react_to_in_range_witness :
  exists i s1,
    PerceptronActor_react_to 5 (vec 2 2) demo_state = Some (i, s1) /\
    (0 < 3 -> i < 3) /\ (3 = 0 -> i = 0).
Proof.
  apply (perceptron_react_to_in_range float float64 demo_state 5
           demo_perceptron _ _ _ _ (vec 2 2) demo_perceptron_ok
           demo_observation eq_refl).
Defined.

(** X3. A network built by [NeuralNetActor.__init__], whatever the list
    [hidden_layers], reacts to every observation of the space's shape: the
    layers fit one another, [react_to] returns, and the index is an action of
    the space. *)
Theorem fresh_network_react_to_in_range (num : Type) (N : Num num)
    (E : Exp num) (s : @state num) (sp : Box) (act : Discrete)
    (hidden_layers : list nat) (lo hi o : list num) (n_obs : nat)
    (obs : ndarray) :
  space_ok s sp lo hi -> product (shape sp) = Some n_obs ->
  contents s obs o -> nd_shape obs = shape sp -> 0 < n act ->
  exists A s1 i s2,
    NeuralNetActor_init sp act hidden_layers s = Some (A, s1) /\
    NeuralNetActor_react_to A obs s1 = Some (i, s2) /\
    i < n act.
Proof.
  intros Hsp Hprod Ho Hosh Hact.
  cut (wp (NeuralNetActor_init sp act hidden_layers) s (fun A s1 =>
         wp (NeuralNetActor_react_to A obs) s1 (fun i _ => i < n act))).
  { intros (A & s1 & H1 & i & s2 & H2 & Hi). by exists A, s1, i, s2. }
  eapply (wp_NeuralNetActor_init (fun _ => True) _ _ _ lo hi n_obs); [done..|].
  intros A p layers ws s1 Hsub _ Hok Hsp1 _ Hshapes _.
  eapply (wp_nn_react_to _ p lo hi layers ws _ o); [done| |congruence|].
  { by eapply contents_weaken. }
  intros i s2 _ Hi. unfold network_policy in Hi. rewrite Hshapes in Hi.
  destruct (argmax_scan_total
              (feed_forward (layer_shapes n_obs hidden_layers (n act)) ws
                 (normalized o lo hi))) as (i' & Hi' & Hrange).
  rewrite feed_forward_length in Hrange.
  - assert (i' = i) as -> by congruence. lia.
  - destruct Hok as [_ _ _ _ _ _ _ _ Hc]. apply Forall2_length in Hc.
    by rewrite <- Hshapes, length_fmap.
Qed.

(** An instance of X3: hidden layers of 4 and 3 nodes over [demo_space],
    in exact arithmetic, on the observation held by the array of the
    lower bounds. *)
Lemma fresh_network_react_to_in_range_witness :
  exists A s1 i s2,
    @NeuralNetActor_init R (rounded id) demo_space {| n := 3 |} [4; 3]
      real_state = Some (A, s1) /\
    @NeuralNetActor_react_to R (rounded id) (rounded_exp id) A (vec 0 2) s1
    = Some (i, s2) /\
    i < 3.
Proof.
  assert (Ho : contents real_state (vec 0 2) [0; 0]%R).
  { eexists. split; [reflexivity|]. split; [simpl; lia|reflexivity]. }
  apply (fresh_network_react_to_in_range R (rounded id) (rounded_exp id)
           real_state demo_space {| n := 3 |} [4; 3] _ _ _ 2 (vec 0 2)
           real_space_ok eq_refl Ho eq_refl).
  simpl. lia.
Defined.

(** X4. Both [react_to] methods raise on an observation array whose number
    of elements is not the one of the observation space: the in-place
    operators keep the observation's size (or raise), and [np.reshape] to
    [_n_obs] elements raises. *)
Theorem react_to_rejects_wrong_size (num : Type) (N : Num num) (E : Exp num)
    (s : @state num) (self : nat) (lo hi : list num) (obs : ndarray) :
  (forall p w,
     perceptron_ok s self p lo hi w ->
     size_of (nd_shape obs) <> p_n_obs p ->
     PerceptronActor_react_to self obs s = None) /\
  (forall p layers ws,
     nn_ok s self p lo hi layers ws ->
     size_of (nd_shape obs) <> l_n_obs p ->
     NeuralNetActor_react_to self obs s = None).
Proof.
  split.
  - intros p w [Hself _ _ _ _ _ _ _] Hne.
    apply wlp_raises. unfold PerceptronActor_react_to, PerceptronActor_outputs.
    apply wlp_bind, wlp_bind, wlp_load_perceptron. intros p' Hp'.
    assert (p' = p) as -> by congruence.
    apply wlp_bind. intros v s1 Hrun.
    by rewrite normalize_wrong_size in Hrun.
  - intros p layers ws [Hself _ _ _ _ _ _ _ _] Hne.
    apply wlp_raises. unfold NeuralNetActor_react_to, NeuralNetActor_outputs.
    apply wlp_bind, wlp_bind, wlp_load_nn. intros p' Hp'.
    assert (p' = p) as -> by congruence.
    apply wlp_bind. intros v s1 Hrun.
    by rewrite normalize_wrong_size in Hrun.
Qed.

(** The perceptron of [demo_state] (two observations) on an array of
    shape (3, 2): the two in-place operators broadcast the bounds to it,
    and [np.reshape] raises. *)
Lemma react_to_rejects_wrong_size_witness :
  PerceptronActor_react_to 5 (mat 4 3 2) demo_state = None.
Proof.
  apply (proj1 (react_to_rejects_wrong_size float float64 (fun x => x)
                  demo_state 5 [0; 0]%float [2; 4]%float (mat 4 3 2))
           demo_perceptron _ demo_perceptron_ok).
  simpl. lia.
Defined.

(** ** The constructors *)

(** X5. For every list [hidden_layers = [h1, ..., hk]] the constructor of a
    network builds [k + 1] matrices; the one at index [i] has shape [(out,
    in)] where [in] is entry [i] of [[n_obs, h1, ..., hk]] and [out] entry [i]
    of [[h1, ..., hk, n_act]]. *)
Theorem network_layer_shapes (num : Type) (N : Num num) (s : @state num)
    (sp : Box) (act : Discrete) (hidden_layers : list nat) (lo hi : list num)
    (n_obs : nat) :
  space_ok s sp lo hi -> product (shape sp) = Some n_obs ->
  exists A s1 p layers ws,
    NeuralNetActor_init sp act hidden_layers s = Some (A, s1) /\
    nn_ok s1 A p lo hi layers ws /\
    length layers = S (length hidden_layers) /\
    forall i, i <= length hidden_layers ->
      exists W in_size out_size,
        layers !! i = Some W /\
        (n_obs :: hidden_layers) !! i = Some in_size /\
        (hidden_layers ++ [n act]) !! i = Some out_size /\
        nd_shape W = [out_size; in_size].
Proof.
  intros Hsp Hprod.
  destruct (wp_NeuralNetActor_init (fun _ => True) sp act hidden_layers
              lo hi n_obs s
              (fun A s1 => exists p layers ws,
                 nn_ok s1 A p lo hi layers ws /\
                 nd_shape <$> layers
                 = layer_shapes n_obs hidden_layers (n act)) Hsp Hprod)
    as (A & s1 & Hrun & p & layers & ws & Hok & Hsh); [done|by eauto 10|].
  exists A, s1, p, layers, ws. split; [done|]. split; [done|].
  assert (Hlen : length layers = S (length hidden_layers)).
  { rewrite <- (length_fmap nd_shape), Hsh. unfold layer_shapes.
    rewrite length_fmap, length_zip, !length_app, !length_cons, !length_nil.
    lia. }
  split; [done|]. intros i Hi.
  destruct (lookup_lt_is_Some_2 layers i) as [W HW]; [lia|].
  assert (Hi' : (nd_shape <$> layers) !! i = Some (nd_shape W))
    by (by rewrite list_lookup_fmap, HW).
  rewrite Hsh in Hi'. unfold layer_shapes in Hi'.
  apply list_lookup_fmap_Some in Hi' as ([in_size out_size] & HWsh & Hz).
  apply lookup_zip_with_Some in Hz as (x & y & [= <- <-] & Hx & Hy).
  exists W, in_size, out_size. done.
Qed.

(** An instance of X5: [hidden_layers = [4, 3]] over [wide_space]. *)
Lemma network_layer_shapes_witness :
  exists A s1 p layers ws,
    NeuralNetActor_init wide_space {| n := 2 |} [4; 3] wide_state
    = Some (A, s1) /\
    nn_ok s1 A p [0; 0; 0; 0; 0]%float [1; 1; 1; 1; 1]%float layers ws /\
    length layers = 3 /\
    forall i, i <= 2 ->
      exists W in_size out_size,
        layers !! i = Some W /\
        [5; 4; 3] !! i = Some in_size /\
        [4; 3; 2] !! i = Some out_size /\
        nd_shape W = [out_size; in_size].
Proof.
  apply (network_layer_shapes float float64 wide_state wide_space
           {| n := 2 |} [4; 3] _ _ 5 wide_space_ok eq_refl).
Defined.

(** X6. From one state of the generator, [PerceptronActor.__init__] and
    [NeuralNetActor.__init__] with [hidden_layers = []] draw the same weight
    matrix: the network's only layer has the shape and the entries of the
    perceptron's matrix. *)
Theorem single_layer_network_draws_perceptron_weights (num : Type)
    (N : Num num) (s : @state num) (sp : Box) (act : Discrete)
    (lo hi : list num) (n_obs : nat) :
  space_ok s sp lo hi -> product (shape sp) = Some n_obs ->
  exists A s1 p B s2 q W w,
    PerceptronActor_init sp act s = Some (A, s1) /\
    perceptron_ok s1 A p lo hi w /\
    NeuralNetActor_init sp act [] s = Some (B, s2) /\
    nn_ok s2 B q lo hi [W] [w] /\
    nd_shape W = nd_shape (p_perceptron_matrix p).
Proof.
  intros Hsp Hprod.
  set (w := fresh_weight <$> (rng s <$> seq 0 (n act * n_obs))).
  destruct (wp_PerceptronActor_init sp act lo hi n_obs s
              (fun A s1 => exists p, perceptron_ok s1 A p lo hi w /\
                 p_observation_space p = sp /\ p_action_space p = act)
              Hsp Hprod)
    as (A & s1 & Hrun1 & p & Hok1 & Hsp1 & Hact1); [by eauto|].
  destruct (wp_NeuralNetActor_init_single sp act lo hi n_obs s
              (fun B s2 => exists q W, nn_ok s2 B q lo hi [W] [w] /\
                                       nd_shape W = [n act; n_obs]) Hsp Hprod)
    as (B & s2 & Hrun2 & q & W & Hok2 & HW); [by eauto|].
  exists A, s1, p, B, s2, q, W, w. repeat (split; [done|]).
  destruct Hok1 as [_ _ Hn Hact _ _ Hms _].
  rewrite Hms, HW, Hact, Hact1. rewrite Hsp1, Hprod in Hn. congruence.
Qed.

(** An instance of X6 over [demo_space] with three actions. *)
Lemma single_layer_network_draws_perceptron_weights_witness :
  exists A s1 p B s2 q W w,
    PerceptronActor_init demo_space {| n := 3 |} demo_state = Some (A, s1) /\
    perceptron_ok s1 A p [0; 0]%float [2; 4]%float w /\
    NeuralNetActor_init demo_space {| n := 3 |} [] demo_state
    = Some (B, s2) /\
    nn_ok s2 B q [0; 0]%float [2; 4]%float [W] [w] /\
    nd_shape W = nd_shape (p_perceptron_matrix p).
Proof.
  apply (single_layer_network_draws_perceptron_weights float float64
           demo_state demo_space {| n := 3 |} _ _ 2 demo_space_ok eq_refl).
Defined.

(** ** The genome codec *)

(** X7. [GeneticPerceptronActor.from_genome] raises on a genome whose number
    of elements is not [n_act * n_obs]: a shorter genome and a longer one
    alike. *)
Theorem perceptron_from_genome_rejects_wrong_size (num : Type) (N : Num num)
    (s : @state num) (self : nat) (p : PerceptronActor) (lo hi w : list num)
    (genome : ndarray) :
  perceptron_ok s self p lo hi w ->
  size_of (nd_shape genome) <> p_n_act p * p_n_obs p ->
  GeneticPerceptronActor_from_genome self genome s = None.
Proof.
  intros Hok Hne. pose proof Hok as [Hself Hsp Hprod _ _ _ Hms _].
  apply wlp_raises. unfold GeneticPerceptronActor_from_genome.
  apply wlp_bind, wlp_load_perceptron. intros p' Hp'.
  assert (p' = p) as -> by congruence.
  apply wlp_bind, wp_wlp.
  apply (wp_PerceptronActor_init _ _ lo hi (p_n_obs p)); [done..|].
  intros pa p0 s1 Hsub1 _ _ _ _.
  apply wlp_bind, wlp_np_copy. intros d g s2 _ Hal.
  pose proof (allocated_sub _ _ _ _ _ Hal) as Hsub2.
  destruct Hal as (_ & _ & Hgsh & _).
  apply wlp_bind, wlp_load_perceptron. intros p' Hp''.
  assert (p' = p) as ->.
  { assert (heap s2 !! self = Some (Perceptron p)) as Hs2; [|congruence].
    eapply lookup_weaken; [done|]. by etrans. }
  apply wlp_bind, wlp_np_reshape. intros Hsz. exfalso. apply Hne.
  rewrite Hms, Hgsh, size_of_2 in Hsz. done.
Qed.

(** The perceptron of [demo_state] (a 3 x 2 matrix) and a genome of two
    elements. *)
Lemma perceptron_from_genome_rejects_wrong_size_witness :
  GeneticPerceptronActor_from_genome 5 (vec 2 2) demo_state = None.
Proof.
  apply (perceptron_from_genome_rejects_wrong_size float float64 demo_state
           5 demo_perceptron _ _ _ (vec 2 2) demo_perceptron_ok).
  simpl. lia.
Defined.

(** X8. [GeneticNNActor.from_genome] raises on a one-dimensional genome with
    fewer elements than the template's layers have parameters. *)
Theorem network_from_genome_rejects_short_genome (num : Type) (N : Num num)
    (s : @state num) (self : nat) (p : NeuralNetActor) (lo hi : list num)
    (layers : list ndarray) (ws : list (list num)) (genome : ndarray)
    (k : nat) :
  nn_ok s self p lo hi layers ws ->
  nd_shape genome = [k] ->
  k < total_parameters (nd_shape <$> layers) ->
  GeneticNNActor_from_genome self genome s = None.
Proof.
  intros Hok Hgsh Hshort.
  pose proof Hok as [Hself Hsp Hprod _ _ _ Hlist Hch _].
  apply wlp_raises. unfold GeneticNNActor_from_genome.
  apply wlp_bind, wlp_np_copy. intros d g1 s1 _ Hal1.
  pose proof (allocated_sub _ _ _ _ _ Hal1) as Hsub1.
  destruct Hal1 as (_ & _ & Hsh1 & _).
  apply wlp_bind, wlp_map_array. intros d2 g2 s2 _ Hal2.
  pose proof (allocated_sub _ _ _ _ _ Hal2) as Hsub2.
  destruct Hal2 as (_ & _ & Hsh2 & _).
  apply wlp_bind, wlp_map_array. intros d3 g3 s3 _ Hal3.
  pose proof (allocated_sub _ _ _ _ _ Hal3) as Hsub3.
  destruct Hal3 as (_ & _ & Hsh3 & _).
  rewrite Hsh2, Hsh1, Hgsh in Hsh3.
  assert (Hsub03 : heap s ⊆ heap s3).
  { etrans; [exact Hsub1|]. etrans; [exact Hsub2|exact Hsub3]. }
  apply wlp_bind, wlp_load_nn. intros p' Hp'.
  assert (p' = p) as ->.
  { assert (heap s3 !! self = Some (NeuralNet p)) by (by eapply lookup_weaken).
    congruence. }
  apply wlp_bind, wp_wlp.
  apply (wp_NeuralNetActor_init (fun _ => True) _ _ [] lo hi (l_n_obs p));
    [by eapply space_ok_weaken|done|done|].
  intros nna p0 layers0 ws0 s4 Hsub4 Hnna3 _ _ _ _ _.
  apply wlp_bind, wp_wlp, wp_alloc. intros fl s5 Hfl4 Hh5 _.
  apply wlp_bind, wlp_load_nn. intros b _.
  apply wlp_bind, wp_wlp, wp_store. intros s6 Hh6 _.
  assert (Hsub04 : heap s ⊆ heap s4) by (by etrans).
  assert (Hkeep : forall l o, heap s !! l = Some o -> heap s6 !! l = Some o).
  { intros l o Hl.
    assert (heap s3 !! l = Some o) as Hl3
      by (eapply lookup_weaken; [exact Hl|exact Hsub03]).
    assert (heap s4 !! l = Some o) as Hl4
      by (eapply lookup_weaken; [exact Hl|exact Hsub04]).
    rewrite Hh6, lookup_insert_ne by (intros ->; congruence).
    rewrite Hh5, lookup_insert_ne by (intros ->; congruence). done. }
  apply wlp_bind, wlp_load_nn. intros p' Hp''.
  assert (p' = p) as ->.
  { apply Hkeep in Hself. congruence. }
  apply wlp_bind, wlp_load_list. intros layers' Hl'.
  assert (layers' = layers) as ->.
  { apply Hkeep in Hlist. congruence. }
  apply wlp_bind.
  eapply wlp_mono;
    [apply (wlp_decode_layers_short g3 k nna layers 0 s6);
     [done|by eapply chained_2d|lia|lia]|].
  by intros.
Qed.

(** The network of [real_pair_state] (six parameters) and a genome of two
    elements. *)
Lemma network_from_genome_rejects_short_genome_witness :
  @GeneticNNActor_from_genome R (rounded id) 7 (vec 2 2) real_pair_state
  = None.
Proof.
  apply (network_from_genome_rejects_short_genome R (rounded id)
           real_pair_state 7 demo_network _ _ _ _ (vec 2 2) 2
           real_pair_network_ok eq_refl).
  vm_compute. lia.
Defined.

(** X9. [GeneticNNActor.from_genome] accepts a one-dimensional genome with
    more elements than the template's layers have parameters, and ignores the
    elements beyond the parameter count: the layers of the new actor are cut
    from the genome's leading elements. *)
Theorem network_from_genome_ignores_tail (num : Type) (N : Num num)
    (s : @state num) (self : nat) (p : NeuralNetActor) (lo hi : list num)
    (layers : list ndarray) (ws : list (list num)) (genome : ndarray)
    (gd : list num) (k : nat) :
  nn_ok s self p lo hi layers ws ->
  contents s genome gd -> nd_shape genome = [k] ->
  total_parameters (nd_shape <$> layers) <= k ->
  exists A' s1 p' layers',
    GeneticNNActor_from_genome self genome s = Some (A', s1) /\
    nn_ok s1 A' p' lo hi layers'
      (split_sizes (size_of <$> (nd_shape <$> layers))
         (decode_network
            <$> take (total_parameters (nd_shape <$> layers)) gd)) /\
    nd_shape <$> layers' = nd_shape <$> layers.
Proof.
  intros Hok Hg Hgsh Hk.
  destruct (wp_nn_from_genome_prefix self p lo hi layers ws genome gd k s
              (fun A' s1 => exists p' layers',
                 nn_ok s1 A' p' lo hi layers'
                   (split_sizes (size_of <$> (nd_shape <$> layers))
                      (decode_network <$> gd)) /\
                 nd_shape <$> layers' = nd_shape <$> layers))
    as (A' & s1 & Hrun & p' & layers' & Hok' & Hsh'); [done..|by eauto|].
  exists A', s1, p', layers'. split; [done|]. split; [|done].
  rewrite split_sizes_take, <- fmap_take in Hok'. done.
Qed.

(** The network of [long_genome_state] (six parameters) and a genome of
    eight elements. *)
Lemma network_from_genome_ignores_tail_witness :
  exists A' s1 p' layers',
    @GeneticNNActor_from_genome R (rounded id) 7 (vec 8 8) long_genome_state
    = Some (A', s1) /\
    @nn_ok R (rounded id) s1 A' p' [0; 0]%R [2; 4]%R layers'
      (@split_sizes R [6]
         (@decode_network R (rounded id)
            <$> take 6 [0; / 4; / 2; 3 / 4; 1; / 2; 1; 0]%R)) /\
    nd_shape <$> layers' = [[3; 2]].
Proof.
  assert (Hg : contents long_genome_state (vec 8 8)
                 [0; / 4; / 2; 3 / 4; 1; / 2; 1; 0]%R).
  { eexists. split; [reflexivity|]. split; [simpl; lia|reflexivity]. }
  apply (network_from_genome_ignores_tail R (rounded id) long_genome_state
           7 demo_network _ _ _ _ (vec 8 8) _ 8 long_genome_network_ok Hg
           eq_refl).
  vm_compute. lia.
Defined.

(** X10. [get_genome], in both variants, returns an array in a buffer that did
    not exist before the call and leaves every existing object as it was: the
    actor keeps its weights, and writing into the genome afterwards cannot
    reach them. *)
Theorem get_genome_returns_new_array (num : Type) (N : Num num)
    (s : @state num) (self : nat) (lo hi : list num) :
  (forall p w,
     perceptron_ok s self p lo hi w ->
     exists g s1,
       GeneticPerceptronActor_get_genome self s = Some (g, s1) /\
       heap s !! nd_base g = None /\ heap s ⊆ heap s1 /\
       perceptron_ok s1 self p lo hi w) /\
  (forall p layers ws,
     nn_ok s self p lo hi layers ws ->
     exists g s1,
       GeneticNNActor_get_genome self s = Some (g, s1) /\
       heap s !! nd_base g = None /\ heap s ⊆ heap s1 /\
       nn_ok s1 self p lo hi layers ws).
Proof.
  split.
  - intros p w Hok.
    destruct (wp_perceptron_get_genome self p lo hi w s (fun _ _ => True) Hok)
      as (g & s1 & Hrun & _); [done|].
    destruct (wlp_perceptron_get_genome self s g s1 Hrun) as [Hsub Hnew].
    exists g, s1. repeat (split; [done|]). by eapply perceptron_ok_weaken.
  - intros p layers ws Hok.
    destruct (wp_nn_get_genome self p lo hi layers ws s (fun _ _ => True) Hok)
      as (g & s1 & Hrun & _); [done|].
    destruct (wlp_nn_get_genome self s g s1 Hrun) as [Hsub Hnew].
    exists g, s1. repeat (split; [done|]). by eapply nn_ok_weaken.
Qed.

(** An instance of X10: the perceptron of [demo_state]. *)
Lemma get_genome_returns_new_array_witness :
  exists g s1,
    GeneticPerceptronActor_get_genome 5 demo_state = Some (g, s1) /\
    heap demo_state !! nd_base g = None /\ heap demo_state ⊆ heap s1 /\
    perceptron_ok s1 5 demo_perceptron [0; 0]%float [2; 4]%float
      [0.5; -0.5; 0.25; 0.75; -1; 1]%float.
Proof.
  apply (proj1 (get_genome_returns_new_array float float64 demo_state 5
                  [0; 0]%float [2; 4]%float)
           demo_perceptron _ demo_perceptron_ok).
Defined.

(** X11. [from_genome] copies what it takes from the genome: the weight
    matrices of the actor it returns live in buffers that did not exist before
    the call, so they share no memory with the genome array or with the
    template's matrices. *)
Theorem from_genome_copies_genome (num : Type) (N : Num num)
    (s : @state num) (A : nat) (lo hi gd : list num) (genome : ndarray) :
  contents s genome gd ->
  (forall p w,
     perceptron_ok s A p lo hi w ->
     size_of (nd_shape genome) = p_n_act p * p_n_obs p ->
     exists A' s1 p',
       GeneticPerceptronActor_from_genome A genome s = Some (A', s1) /\
       heap s1 !! A' = Some (Perceptron p') /\
       heap s !! nd_base (p_perceptron_matrix p') = None) /\
  (forall p layers ws,
     nn_ok s A p lo hi layers ws ->
     nd_shape genome = [total_parameters (nd_shape <$> layers)] ->
     exists A' s1 p' layers',
       GeneticNNActor_from_genome A genome s = Some (A', s1) /\
       heap s1 !! A' = Some (NeuralNet p') /\
       heap s1 !! l_layers p' = Some (PyList layers') /\
       Forall (fun W => heap s !! nd_base W = None) layers').
Proof.
  intros Hg. split.
  - intros p w Hok Hsz. pose proof Hok as [Hself Hsp Hprod _ _ _ _ _].
    destruct (wp_perceptron_from_genome A p lo hi w genome gd s
                (fun _ _ => True) Hok Hg Hsz) as (A' & s1 & Hrun & _); [done|].
    cut (wlp (GeneticPerceptronActor_from_genome A genome) s
           (fun A' s1 => exists p',
              heap s1 !! A' = Some (Perceptron p') /\
              heap s !! nd_base (p_perceptron_matrix p') = None)).
    { intros Hw. destruct (Hw A' s1 Hrun) as (p' & ? & ?).
      by exists A', s1, p'. }
    clear A' s1 Hrun. unfold GeneticPerceptronActor_from_genome.
    apply wlp_bind, wlp_load_perceptron. intros p0 Hp0.
    assert (p0 = p) as -> by congruence.
    apply wlp_bind, wp_wlp.
    apply (wp_PerceptronActor_init _ _ lo hi (p_n_obs p)); [done..|].
    intros pa pa0 s1 Hsub1 _ _ _ _.
    apply wlp_bind, wlp_np_copy. intros d g s2 _ Hsub2%allocated_sub.
    apply wlp_bind, wlp_load_perceptron. intros p1 _.
    apply wlp_bind, wlp_np_reshape. intros _.
    apply wlp_bind, wlp_map_array. intros d3 m s3 _ Hsub3%allocated_sub.
    apply wlp_bind. eapply wlp_mono; [apply (wlp_map_array_new _ _ s)|].
    { etrans; [exact Hsub1|]. etrans; [exact Hsub2|exact Hsub3]. }
    intros wn s4 [_ Hnew]. simpl.
    apply wlp_bind, wlp_load_perceptron. intros b _.
    apply wlp_bind, wp_wlp, wp_store. intros s5 Hh5 _. apply wlp_ret.
    eexists. split; [rewrite Hh5; apply lookup_insert_eq|done].
  - intros p layers ws Hok Hgsh.
    pose proof Hok as [Hself Hsp Hprod _ _ _ Hlist _ _].
    destruct (wp_nn_from_genome A p lo hi layers ws genome gd s
                (fun _ _ => True) Hok Hg Hgsh) as (A' & s1 & Hrun & _); [done|].
    cut (wlp (GeneticNNActor_from_genome A genome) s
           (fun A' s1 => exists p' layers',
              heap s1 !! A' = Some (NeuralNet p') /\
              heap s1 !! l_layers p' = Some (PyList layers') /\
              Forall (fun W => heap s !! nd_base W = None) layers')).
    { intros Hw. destruct (Hw A' s1 Hrun) as (p' & layers' & ? & ? & ?).
      by exists A', s1, p', layers'. }
    clear A' s1 Hrun. unfold GeneticNNActor_from_genome.
    apply wlp_bind, wlp_np_copy. intros d g1 s1 _ Hsub1%allocated_sub.
    apply wlp_bind, wlp_map_array. intros d2 g2 s2 _ Hsub2%allocated_sub.
    apply wlp_bind, wlp_map_array. intros d3 g3 s3 _ Hsub3%allocated_sub.
    assert (Hsub03 : heap s ⊆ heap s3).
    { etrans; [exact Hsub1|]. etrans; [exact Hsub2|exact Hsub3]. }
    apply wlp_bind, wlp_load_nn. intros p0 Hp0.
    assert (p0 = p) as ->.
    { assert (heap s3 !! A = Some (NeuralNet p)) by (by eapply lookup_weaken).
      congruence. }
    apply wlp_bind, wp_wlp.
    apply (wp_NeuralNetActor_init (fun _ => True) _ _ [] lo hi (l_n_obs p));
      [by eapply space_ok_weaken|done|done|].
    intros nna pn0 layers0 ws0 s4 Hsub4 Hnna3 [Hnna4 _ _ _ _ _ _ _ _] _ _ _ _.
    apply wlp_bind, wp_wlp, wp_alloc. intros fl s5 Hfl4 Hh5 _.
    apply wlp_bind, wlp_load_nn. intros b _.
    apply wlp_bind, wp_wlp, wp_store. intros s6 Hh6 _.
    set (pn := {| l_observation_space := l_observation_space b;
                  l_action_space := l_action_space b;
                  l_n_obs := l_n_obs b;
                  l_obs_range := l_obs_range b;
                  l_n_act := l_n_act b;
                  l_layers := fl |}) in *.
    assert (Hsub04 : heap s ⊆ heap s4) by (etrans; [exact Hsub03|exact Hsub4]).
    assert (Hnna0 : heap s !! nna = None)
      by (eapply lookup_None_weaken; [exact Hsub03|exact Hnna3]).
    assert (Hfl0 : heap s !! fl = None)
      by (eapply lookup_None_weaken; [exact Hsub04|exact Hfl4]).
    assert (Hne : fl <> nna) by (intros ->; congruence).
    assert (Hsub06 : heap s ⊆ heap s6).
    { rewrite Hh6. apply insert_subseteq_r; [done|].
      rewrite Hh5. by apply insert_subseteq_r. }
    apply wlp_bind, wlp_load_nn. intros p1 _.
    apply wlp_bind, wlp_load_list. intros layers1 _.
    apply wlp_bind.
    eapply wlp_mono;
      [apply (wlp_decode_layers_new (heap s) g3 nna pn layers1 0 s6);
       try done|].
    + rewrite Hh6. apply lookup_insert_eq.
    + rewrite Hh6, lookup_insert_ne by done. rewrite Hh5.
      apply lookup_insert_eq.
    + intros st s7 (_ & Hnna7 & new_layers & Hl7 & Hnew). simpl.
      apply wlp_ret. by exists pn, new_layers.
Qed.

(** The perceptron of [genome_state] and its genome of six elements. *)
Lemma from_genome_copies_genome_witness :
  exists A' s1 p',
    GeneticPerceptronActor_from_genome 5 (vec 6 6) genome_state
    = Some (A', s1) /\
    heap s1 !! A' = Some (Perceptron p') /\
    heap genome_state !! nd_base (p_perceptron_matrix p') = None.
Proof.
  assert (Hg : contents genome_state (vec 6 6)
                 [0; 0.25; 0.5; 0.75; 1; 0.5]%float).
  { eexists. split; [reflexivity|]. split; [simpl; lia|reflexivity]. }
  apply (proj1 (from_genome_copies_genome float float64 genome_state 5
                  [0; 0]%float [2; 4]%float _ (vec 6 6) Hg)
           demo_perceptron _ genome_perceptron_ok eq_refl).
Defined.

(** X12. The actor that [from_genome] builds decides with the decoded genome:
    on an observation of the space's shape it answers the argmax of [W . x]
    for the perceptron, of the forward pass for a network, where the weights
    are the genome's elements mapped to [2g - 1] and cut to the template's
    shapes, and [x] is the normalized observation. *)
Theorem from_genome_policy (num : Type) (N : Num num) (E : Exp num)
    (s : @state num) (A : nat) (lo hi gd o : list num)
    (genome obs : ndarray) :
  contents s genome gd -> contents s obs o ->
  (forall p w,
     perceptron_ok s A p lo hi w ->
     size_of (nd_shape genome) = p_n_act p * p_n_obs p ->
     nd_shape obs = shape (p_observation_space p) ->
     exists A' s1 i s2,
       GeneticPerceptronActor_from_genome A genome s = Some (A', s1) /\
       PerceptronActor_react_to A' obs s1 = Some (i, s2) /\
       perceptron_policy (p_n_act p) (p_n_obs p) (decode_perceptron <$> gd)
         (normalized o lo hi) = Some i) /\
  (forall p layers ws,
     nn_ok s A p lo hi layers ws ->
     nd_shape genome = [total_parameters (nd_shape <$> layers)] ->
     nd_shape obs = shape (l_observation_space p) ->
     exists A' s1 i s2,
       GeneticNNActor_from_genome A genome s = Some (A', s1) /\
       NeuralNetActor_react_to A' obs s1 = Some (i, s2) /\
       network_policy (nd_shape <$> layers)
         (split_sizes (size_of <$> (nd_shape <$> layers))
            (decode_network <$> gd))
         (normalized o lo hi) = Some i).
Proof.
  intros Hg Ho. split.
  - intros p w Hok Hsz Hosh.
    cut (wp (GeneticPerceptronActor_from_genome A genome) s (fun A' s1 =>
           wp (PerceptronActor_react_to A' obs) s1 (fun i _ =>
             perceptron_policy (p_n_act p) (p_n_obs p)
               (decode_perceptron <$> gd) (normalized o lo hi) = Some i))).
    { intros (A' & s1 & H1 & i & s2 & H2 & Hi). by exists A', s1, i, s2. }
    eapply (wp_perceptron_from_genome _ p lo hi w _ gd); [done..|].
    intros A' p' s1 Hsub _ Hok' Hsp' _ Hn Ha.
    eapply (wp_perceptron_react_to _ p' lo hi _ _ o); [done| |congruence|].
    { by eapply contents_weaken. }
    intros i s2 _ Hi. by rewrite Hn, Ha in Hi.
  - intros p layers ws Hok Hgsh Hosh.
    cut (wp (GeneticNNActor_from_genome A genome) s (fun A' s1 =>
           wp (NeuralNetActor_react_to A' obs) s1 (fun i _ =>
             network_policy (nd_shape <$> layers)
               (split_sizes (size_of <$> (nd_shape <$> layers))
                  (decode_network <$> gd))
               (normalized o lo hi) = Some i))).
    { intros (A' & s1 & H1 & i & s2 & H2 & Hi). by exists A', s1, i, s2. }
    eapply (wp_nn_from_genome _ p lo hi layers ws _ gd); [done..|].
    intros A' p' layers' s1 Hsub _ Hok' Hsh' Hsp' _.
    eapply (wp_nn_react_to _ p' lo hi layers' _ _ o); [done| |congruence|].
    { by eapply contents_weaken. }
    intros i s2 _ Hi. by rewrite Hsh' in Hi.
Qed.

(** The perceptron of [genome_state], the genome
    [[0, 0.25, 0.5, 0.75, 1, 0.5]] and the observation [[1, 2]]. *)
Lemma from_genome_policy_witness :
  exists A' s1 i s2,
    GeneticPerceptronActor_from_genome 5 (vec 6 6) genome_state
    = Some (A', s1) /\
    PerceptronActor_react_to A' (vec 2 2) s1 = Some (i, s2) /\
    perceptron_policy 3 2
      (decode_perceptron <$> [0; 0.25; 0.5; 0.75; 1; 0.5]%float)
      (normalized [1; 2]%float [0; 0]%float [2; 4]%float) = Some i.
Proof.
  assert (Hg : contents genome_state (vec 6 6)
                 [0; 0.25; 0.5; 0.75; 1; 0.5]%float).
  { eexists. split; [reflexivity|]. split; [simpl; lia|reflexivity]. }
  assert (Ho : contents genome_state (vec 2 2) [1; 2]%float).
  { eexists. split; [reflexivity|]. split; [simpl; lia|reflexivity]. }
  apply (proj1 (from_genome_policy float float64 (fun x => x) genome_state 5
                  [0; 0]%float [2; 4]%float _ _ (vec 6 6) (vec 2 2) Hg Ho)
           demo_perceptron _ genome_perceptron_ok eq_refl eq_refl).
Defined.

(** ** Properties in rounded real arithmetic *)

Section RealProperties.

Local Open Scope R_scope.

Context (rnd : R -> R) (Hrnd : rounding rnd).

Let arith : Num R := rounded rnd.
#[local] Existing Instance arith.

Section Sigmoid.

(** Any implementation of [np.exp] whose values are not negative. *)
Context (E : Exp R) (HE : forall x, 0 <= np_exp x).

Lemma sigmoid_range (x : R) : 0 <= sigmoid x <= 1.
Proof.
  unfold sigmoid. simpl.
  set (e := np_exp (- x)). set (q := rnd (1 + e)).
  assert (He : 0 <= e) by apply HE.
  assert (Hq : 1 <= q).
  { rewrite <- (rnd_exact rnd Hrnd 1) by lia.
    apply (rnd_mono rnd Hrnd). lra. }
  apply (rnd_between rnd Hrnd _ 0 1); [lia..|].
  assert (0 < / q) by (apply Rinv_0_lt_compat; lra).
  assert (/ q <= / 1) by (apply Rinv_le_contravar; lra).
  rewrite Rinv_1 in *. unfold Rdiv. lra.
Qed.

(** An observation inside the box is normalized into [0, 1], when the
    range [high - low] that divides it is positive. *)
Lemma normalized_in_unit (lo o : list R) :
  Forall2 Rle lo o -> forall hi,
  Forall2 Rle o hi -> Forall (fun r => 0 < r) (zip_with sub hi lo) ->
  Forall (in_range 0 1) (normalized o lo hi).
Proof.
  induction 1 as [|l x lo o Hlx Hlo IH]; intros hi Hhi Hr.
  { unfold normalized. simpl. constructor. }
  apply Forall2_cons_inv_l in Hhi as (h & hi' & Hxh & Hhi & ->).
  simpl in Hr. apply Forall_cons in Hr as [Hd Hr].
  unfold normalized. simpl. constructor; [|by apply IH].
  set (d := rnd (h - l)) in *. set (a := rnd (x - l)).
  assert (Ha0 : 0 <= a).
  { rewrite <- (rnd_exact rnd Hrnd 0) by lia.
    apply (rnd_mono rnd Hrnd). lra. }
  assert (Had : a <= d) by (apply (rnd_mono rnd Hrnd); lra).
  apply (rnd_between rnd Hrnd _ 0 1); [lia..|].
  assert (Hi : 0 < / d) by (by apply Rinv_0_lt_compat).
  assert (Hone : d * / d = 1) by (apply Rinv_r; lra).
  unfold Rdiv. simpl. nra.
Qed.

(** X13. For an observation inside the box of the space, where the range
    [high - low] that the constructor stored is positive in every
    coordinate, [NeuralNetActor.react_to] scans a vector of numbers in
    [0, 1]: the normalized observation lies in [0, 1], and every entry of
    the vector a network with at least one layer computes is a value of the
    sigmoid.  The bounds on the magnitude of [low] and [high] and on the
    weights take no part in the argument over the reals; they keep the
    computation of binary64 away from overflow, where the reals with a
    rounding stand for it. *)
Theorem network_outputs_in_unit_interval (s : @state R) (self : nat)
    (p : NeuralNetActor) (lo hi o : list R) (layers : list ndarray)
    (ws : list (list R)) (obs : ndarray) :
  nn_ok s self p lo hi layers ws -> layers <> [] ->
  contents s obs o -> nd_shape obs = shape (l_observation_space p) ->
  Forall (in_range (- finite_bound) finite_bound) lo ->
  Forall (in_range (- finite_bound) finite_bound) hi ->
  Forall (fun r => 0 < r) (zip_with sub hi lo) ->
  Forall2 Rle lo o -> Forall2 Rle o hi ->
  Forall (Forall (in_range (-1) 1)) ws ->
  exists outputs s1 xs i,
    NeuralNetActor_outputs self obs s = Some (outputs, s1) /\
    contents s1 outputs xs /\
    Forall (in_range 0 1) (normalized o lo hi) /\
    Forall (in_range 0 1) xs /\
    NeuralNetActor_react_to self obs s = Some (i, s1).
Proof.
  intros Hok Hne Ho Hosh _ _ Hrange Hlo Hhi _.
  destruct (wp_nn_outputs self p lo hi layers ws obs o s
              (fun out s1 => (exists k, nd_shape out = [k]) /\
                 contents s1 out
                   (feed_forward (nd_shape <$> layers) ws
                      (normalized o lo hi))))
    as (outputs & s1 & Hrun & [k Hosh'] & Hout); [done..|by eauto|].
  destruct (wp_argmax outputs _ _ s1 (fun _ _ => True) Hosh' Hout)
    as (i & s2 & Harg & _); [done|].
  destruct (argmax_Some _ _ _ _ Harg) as [-> _].
  exists outputs, s1,
    (feed_forward (nd_shape <$> layers) ws (normalized o lo hi)), i.
  split; [done|]. split; [done|].
  split; [by apply normalized_in_unit|]. split.
  - destruct Hok as [_ _ _ _ _ _ _ Hch Hc].
    apply feed_forward_sigmoid.
    + apply sigmoid_range.
    + by destruct layers.
    + by eapply chained_2d.
    + apply Forall2_length in Hc. by rewrite length_fmap.
  - unfold NeuralNetActor_react_to. by rewrite (bind_run _ _ _ _ _ Hrun).
Qed.

End Sigmoid.

(** Encoding the decoding of a genome element in [0, 1] gives it back
    up to ten unit roundoffs, well within [1e-9]. *)
Lemma encode_decode_close (g : R) :
  0 <= g <= 1 ->
  Rabs (rnd (rnd (rnd (rnd (2 * g) - 1) + 1) / 2) - g) <= / 1000000000.
Proof.
  intros Hg.
  set (a := rnd (2 * g)). set (b := rnd (a - 1)).
  set (c := rnd (b + 1)). set (d := rnd (c / 2)).
  assert (Hu : unit_roundoff = / 9007199254740992) by done.
  pose proof (rnd_close rnd Hrnd (2 * g) ltac:(lra)) as Ha. fold a in Ha.
  pose proof (rnd_close rnd Hrnd (a - 1) ltac:(lra)) as Hb. fold b in Hb.
  pose proof (rnd_close rnd Hrnd (b + 1) ltac:(lra)) as Hc. fold c in Hc.
  pose proof (rnd_close rnd Hrnd (c / 2) ltac:(lra)) as Hd. fold d in Hd.
  apply Rabs_le. lra.
Qed.

Lemma encode_decode_perceptron (g : R) :
  0 <= g <= 1 -> close (encode (decode_perceptron g)) g.
Proof. intros Hg. by apply encode_decode_close. Qed.

Lemma encode_decode_network (g : R) :
  0 <= g <= 1 -> close (encode (decode_network g)) g.
Proof.
  intros Hg. change (close (rnd (rnd (rnd (rnd (g * 2) - 1) + 1) / 2)) g).
  rewrite (Rmult_comm g 2). by apply encode_decode_close.
Qed.

(** X14. The round trip in the other direction: [from_genome(g).get_genome()]
    gives back a genome [g] with elements in [0, 1], elementwise within
    [1e-9]. *)
Theorem genome_reverse_round_trip (s : @state R) (A : nat) (lo hi gd : list R)
    (genome : ndarray) :
  contents s genome gd -> Forall (in_range 0 1) gd ->
  (forall p w,
     perceptron_ok s A p lo hi w ->
     size_of (nd_shape genome) = (p_n_act p * p_n_obs p)%nat ->
     exists A' s1 g' s2 gd',
       GeneticPerceptronActor_from_genome A genome s = Some (A', s1) /\
       GeneticPerceptronActor_get_genome A' s1 = Some (g', s2) /\
       contents s2 g' gd' /\ Forall2 close gd' gd) /\
  (forall p layers ws,
     nn_ok s A p lo hi layers ws ->
     nd_shape genome = [total_parameters (nd_shape <$> layers)] ->
     exists A' s1 g' s2 gd',
       GeneticNNActor_from_genome A genome s = Some (A', s1) /\
       GeneticNNActor_get_genome A' s1 = Some (g', s2) /\
       contents s2 g' gd' /\ Forall2 close gd' gd).
Proof.
  intros Hg Hgd. split.
  - intros p w Hok Hsz.
    cut (wp (GeneticPerceptronActor_from_genome A genome) s (fun A' s1 =>
           wp (GeneticPerceptronActor_get_genome A') s1 (fun g' s2 =>
             exists gd', contents s2 g' gd' /\ Forall2 close gd' gd))).
    { intros (A' & s1 & H1 & g' & s2 & H2 & gd' & Hc & Hcl).
      by exists A', s1, g', s2, gd'. }
    eapply (wp_perceptron_from_genome _ p lo hi w _ gd); [done..|].
    intros A' p' s1 _ _ Hok' _ _ _ _.
    eapply (wp_perceptron_get_genome _ p' lo hi); [done|].
    intros g' s2 _ _ Hg'. eexists. split; [done|].
    rewrite <- list_fmap_compose. apply Forall2_fmap_l, Forall_Forall2_diag.
    eapply Forall_impl; [done|]. intros x Hx.
    by apply encode_decode_perceptron.
  - intros p layers ws Hok Hgsh.
    cut (wp (GeneticNNActor_from_genome A genome) s (fun A' s1 =>
           wp (GeneticNNActor_get_genome A') s1 (fun g' s2 =>
             exists gd', contents s2 g' gd' /\ Forall2 close gd' gd))).
    { intros (A' & s1 & H1 & g' & s2 & H2 & gd' & Hc & Hcl).
      by exists A', s1, g', s2, gd'. }
    eapply (wp_nn_from_genome _ p lo hi layers ws _ gd); [done..|].
    intros A' p' layers' s1 _ _ Hok' _ _ _.
    eapply (wp_nn_get_genome _ p' lo hi layers'); [done|].
    intros g' s2 _ _ Hg'. eexists. split; [done|].
    rewrite concat_split_sizes, take_ge.
    + rewrite <- list_fmap_compose. apply Forall2_fmap_l, Forall_Forall2_diag.
      eapply Forall_impl; [done|]. intros x Hx.
      by apply encode_decode_network.
    + apply contents_length in Hg. rewrite Hgsh, size_of_1 in Hg.
      rewrite length_fmap, Hg. done.
Qed.

(** X15. The weights both constructors draw lie in [-1, 1], for draws of the
    generator in [0, 1]. *)
Theorem constructed_weights_in_range (s : @state R) (sp : Box)
    (act : Discrete) (lo hi : list R) (n_obs : nat) :
  space_ok s sp lo hi -> product (shape sp) = Some n_obs ->
  (forall i, in_range 0 1 (rng s i)) ->
  (exists A s1 p w,
     PerceptronActor_init sp act s = Some (A, s1) /\
     perceptron_ok s1 A p lo hi w /\ Forall (in_range (-1) 1) w) /\
  (forall hidden_layers,
   exists A s1 p layers ws,
     NeuralNetActor_init sp act hidden_layers s = Some (A, s1) /\
     nn_ok s1 A p lo hi layers ws /\
     Forall (Forall (in_range (-1) 1)) ws).
Proof.
  intros Hsp Hprod Hrng. split.
  - destruct (wp_PerceptronActor_init sp act lo hi n_obs s
                (fun A s1 => exists p w,
                   perceptron_ok s1 A p lo hi w /\
                   Forall (in_range (-1) 1) w) Hsp Hprod)
      as (A & s1 & Hrun & p & w & Hok & Hw).
    { intros A p s1 _ _ Hok _ _. eexists p, _. split; [done|].
      apply (fresh_weights_in_range rnd); [done|]. by apply fresh_from_draws. }
    by exists A, s1, p, w.
  - intros hidden_layers.
    destruct (wp_NeuralNetActor_init (in_range 0 1) sp act hidden_layers
                lo hi n_obs s
                (fun A s1 => exists p layers ws,
                   nn_ok s1 A p lo hi layers ws /\
                   Forall (Forall (in_range (-1) 1)) ws) Hsp Hprod Hrng)
      as (A & s1 & Hrun & p & layers & ws & Hok & Hws).
    { intros A p layers ws s1 _ _ Hok _ _ _ Hfresh.
      exists p, layers, ws. split; [done|].
      eapply Forall_impl; [done|]. intros w.
      by apply fresh_weights_in_range. }
    by exists A, s1, p, layers, ws.
Qed.

End RealProperties.

(** The network of [real_pair_state] on the observation [[1, 2]], in
    exact arithmetic. *)
Lemma network_outputs_in_unit_interval_witness :
  exists outputs s1 xs i,
    @NeuralNetActor_outputs R (rounded id) (rounded_exp id) 7 (vec 2 2)
      real_pair_state = Some (outputs, s1) /\
    contents s1 outputs xs /\
    Forall (in_range 0 1)
      (@normalized R (rounded id) [1; 2]%R [0; 0]%R [2; 4]%R) /\
    Forall (in_range 0 1) xs /\
    @NeuralNetActor_react_to R (rounded id) (rounded_exp id) 7 (vec 2 2)
      real_pair_state = Some (i, s1).
Proof.
  assert (HE : forall x : R, (0 <= rounded_exp id x)%R).
  { intros x. unfold rounded_exp, id. left. apply exp_pos. }
  assert (Hb : (8 <= finite_bound)%R).
  { unfold finite_bound. replace 8%R with (2 ^ 3)%R by (simpl; lra).
    apply Rle_pow; [lra|lia]. }
  apply (network_outputs_in_unit_interval id rounding_id (rounded_exp id) HE
           real_pair_state 7 demo_network [0; 0]%R [2; 4]%R [1; 2]%R
           [mat 4 3 2] _ (vec 2 2)
           real_pair_network_ok ltac:(done) real_pair_observation eq_refl).
  - repeat constructor; unfold in_range; lra.
  - repeat constructor; unfold in_range; lra.
  - repeat constructor; simpl; unfold id; lra.
  - repeat constructor; lra.
  - repeat constructor; lra.
  - repeat constructor; unfold in_range; lra.
Defined.

(** The perceptron of [real_genome_state] and the genome
    [[0, 1/4, 1/2, 3/4, 1, 1/2]], in exact arithmetic. *)
Lemma genome_reverse_round_trip_witness :
  exists A' s1 g' s2 gd',
    @GeneticPerceptronActor_from_genome R (rounded id) 5 (vec 6 6)
      real_genome_state = Some (A', s1) /\
    @GeneticPerceptronActor_get_genome R (rounded id) A' s1 = Some (g', s2) /\
    contents s2 g' gd' /\
    Forall2 close gd' [0; / 4; / 2; 3 / 4; 1; / 2]%R.
Proof.
  assert (Hg : contents real_genome_state (vec 6 6)
                 [0; / 4; / 2; 3 / 4; 1; / 2]%R).
  { eexists. split; [reflexivity|]. split; [simpl; lia|reflexivity]. }
  assert (Hgd : Forall (in_range 0 1) [0; / 4; / 2; 3 / 4; 1; / 2]%R).
  { repeat constructor; unfold in_range; lra. }
  apply (proj1 (genome_reverse_round_trip id rounding_id real_genome_state 5
                  [0; 0]%R [2; 4]%R _ (vec 6 6) Hg Hgd)
           demo_perceptron _ real_genome_perceptron_ok eq_refl).
Defined.

(** Both constructors over [demo_space], with draws all equal to [1/4]. *)
Lemma constructed_weights_in_range_witness :
  exists A s1 p w,
    @PerceptronActor_init R (rounded id) demo_space {| n := 3 |} real_state
    = Some (A, s1) /\
    @perceptron_ok R (rounded id) s1 A p [0; 0]%R [2; 4]%R w /\
    Forall (in_range (-1) 1) w.
Proof.
  assert (Hdraws : forall i : nat, in_range 0 1 (rng real_state i))
    by (intros i; unfold in_range; simpl; lra).
  apply (proj1 (constructed_weights_in_range id rounding_id real_state
                  demo_space {| n := 3 |} [0; 0]%R [2; 4]%R 2 real_space_ok
                  eq_refl Hdraws)).
Defined.
